(** * eDog audio scanner (scan.c): a shallow embedding and its properties

    The scanner of [scan.c] reads 16 kHz mono samples, decorrelates and
    normalises them, sums a sliding window of magnitudes, captures the
    positive excursions of the windowed level as peaks, and every 100 ms
    looks in the peak buffer for "knocks" and "rings".

    C [int16_t] values are integers of [Z] with the 16-bit wrap-around
    written out ([wrap16]); C [int] values are integers of [Z], with the
    32-bit wrap-around of the compiled code written out ([wrap32]) where
    the sample counter is incremented and where the expiry time of a peak
    is computed from it, the other [int] operations being those of [Z];
    C [float] values are IEEE-754 binary32 numbers, computed with the
    Standard Library's [SpecFloat] operations at precision 24 and maximal
    exponent 128. *)

From Stdlib Require Import ZArith List Bool Lia.
From Stdlib Require Import Floats.SpecFloat.
From stdpp Require Import base list.

Open Scope Z_scope.

(** ** Binary32 arithmetic *)

Module F32.

Definition prec : Z := 24.
Definition emax : Z := 128.

Definition float : Type := spec_float.

Definition mul : float -> float -> float := SFmul prec emax.
Definition add : float -> float -> float := SFadd prec emax.
Definition sub : float -> float -> float := SFsub prec emax.
Definition div : float -> float -> float := SFdiv prec emax.
Definition abs : float -> float := SFabs.
Definition ltb : float -> float -> bool := SFltb.

(** [a > b] of C *)
Definition gtb (a b : float) : bool := ltb b a.

(** conversion [(float) n] of a C integer *)
Definition of_int (n : Z) : float := binary_normalize prec emax n 0 false.

(** a decimal literal [n/d] (with the [F] suffix), rounded to nearest *)
Definition literal (n d : positive) : float :=
  SFdiv prec emax (S754_finite false n 0) (S754_finite false d 0).

(** conversion of a C float to an integer type: the fraction is dropped.
    C leaves the conversion of infinities and NaN undefined; they give 0
    here. *)
Definition to_int (x : float) : Z :=
  match x with
  | S754_finite s m e => cond_Zopp s (Z.shiftl (Zpos m) e)
  | _ => 0
  end.

Definition zero : float := S754_zero false.

End F32.

Abbreviation float := F32.float.

(** ** Macros of scan.h and scan.c *)

Definition SCAN_KNOCK_DETECTED : Z := 1.
Definition SCAN_BELL_DETECTED : Z := 2.

Definition SCAN_HIGH_SENSITIVITY : Z := 1.
Definition SCAN_DISP_THRESHOLDS : Z := 2.
Definition SCAN_DISP_EVENTS : Z := 4.
Definition SCAN_DISP_PEAKS : Z := 8.
Definition SCAN_OUTP_DECORR_AUDIO : Z := 16.
Definition SCAN_OUTP_DECORR_LEVEL : Z := 32.
Definition SCAN_OUTP_NORMAL_AUDIO : Z := 64.
Definition SCAN_OUTP_WINDOW_LEVEL : Z := 128.
Definition SCAN_OUTP_FILTER_AUDIO : Z := 256.
Definition SCAN_OUTP_FILTER_LEVEL : Z := 512.

Definition SAMPLING_RATE : Z := 16000.
Definition MAX_NUM_PEAKS : nat := 16.
Definition KNOCK_MAX_SPAN : Z := 12000.
Definition KNOCK_MIN_SPAN : Z := 4000.
Definition WINDOW_BITS : Z := 8.
Definition WINDOW_SIZE : Z := Z.shiftl 1 WINDOW_BITS.
Definition WINDOW_MASK : Z := WINDOW_SIZE - 1.
Definition NORMALIZATION_LEVEL : Z := 128.
Definition ANALYSIS_INTERVAL : Z := Z.quot SAMPLING_RATE 10.

(** the C test [flags & bit] *)
Definition flag (flags bit : Z) : bool := negb (Z.land flags bit =? 0).

Definition HIGH_KNOCK_MAX_RATIO : float := F32.literal 12 10.
Definition LOW_KNOCK_MAX_RATIO : float := F32.literal 11 10.
Definition KNOCK_MAX_RATIO (flags : Z) : float :=
  if flag flags SCAN_HIGH_SENSITIVITY then HIGH_KNOCK_MAX_RATIO else LOW_KNOCK_MAX_RATIO.

Definition HIGH_THRESHOLD_SCALING : float := F32.literal 125 100.
Definition LOW_THRESHOLD_SCALING : float := F32.literal 15 10.
Definition THRESHOLD_SCALING (flags : Z) : float :=
  if flag flags SCAN_HIGH_SENSITIVITY then HIGH_THRESHOLD_SCALING else LOW_THRESHOLD_SCALING.

Definition HIGH_SPURIOUS_REJECTION_RATIO : float := F32.literal 75 100.
Definition LOW_SPURIOUS_REJECTION_RATIO : float := F32.literal 5 10.
Definition SPURIOUS_REJECTION_RATIO (flags : Z) : float :=
  if flag flags SCAN_HIGH_SENSITIVITY
  then HIGH_SPURIOUS_REJECTION_RATIO else LOW_SPURIOUS_REJECTION_RATIO.

(** the constants [255.0F / 256.0F] and [1.0F / 256.0F] of the two
    decaying averages *)
Definition decay_keep : float := F32.div (F32.of_int 255) (F32.of_int 256).
Definition decay_gain : float := F32.div (F32.of_int 1) (F32.of_int 256).

(** the clip level [32760.0F] *)
Definition clip_level : float := F32.of_int 32760.

(** conversion to [int16_t]: the value modulo 2^16, in [-32768, 32767] *)
Definition wrap16 (z : Z) : Z := (z + 32768) mod 65536 - 32768.

(** conversion to a 32-bit [int], and the range of one *)
Definition INT_MAX : Z := 2147483647.
Definition INT_MIN : Z := -2147483648.
Definition wrap32 (z : Z) : Z := (z + 2147483648) mod 4294967296 - 2147483648.

(** ** Structures and static variables *)

Record biquad := mk_biquad {
  a0 : float; a1 : float; a2 : float; b1 : float; b2 : float;
  in_d1 : float; in_d2 : float;
  out_d1 : float; out_d2 : float }.

(** [struct peak]; its member [filtered_level] is [start_level] here, to
    keep it apart from the static variable [filtered_level]. *)
Record peak := mk_peak {
  time : Z; area : Z; width : Z; height : Z; filter_hits : Z;
  start_level : float }.

(** The static variables of scan.c. The array [peak_buffer] and its count
    [num_peaks] are one list: the entries [0 .. num_peaks-1], the only ones
    the code reads. *)
Record scanner := mk_scanner {
  bell_biquad : biquad;
  current_peak : peak;
  peak_buffer : list peak;
  sample_window : list Z;
  sample_index : Z;
  filtered_level : float;
  decorrelated_level : float;
  peak_threshold : float;
  peak_started : bool;
  window_index : Z;
  window_sum : Z;
  last_sample : Z;
  weight : Z }.

Definition num_peaks (s : scanner) : nat := length (peak_buffer s).

Definition set_peak_buffer (b : list peak) (s : scanner) : scanner :=
  mk_scanner (bell_biquad s) (current_peak s) b (sample_window s)
    (sample_index s) (filtered_level s) (decorrelated_level s)
    (peak_threshold s) (peak_started s) (window_index s) (window_sum s)
    (last_sample s) (weight s).

Definition set_bell_biquad (f : biquad) (s : scanner) : scanner :=
  mk_scanner f (current_peak s) (peak_buffer s) (sample_window s)
    (sample_index s) (filtered_level s) (decorrelated_level s)
    (peak_threshold s) (peak_started s) (window_index s) (window_sum s)
    (last_sample s) (weight s).

Definition set_peak_threshold (t : float) (s : scanner) : scanner :=
  mk_scanner (bell_biquad s) (current_peak s) (peak_buffer s) (sample_window s)
    (sample_index s) (filtered_level s) (decorrelated_level s)
    t (peak_started s) (window_index s) (window_sum s)
    (last_sample s) (weight s).

Definition set_sample_index (i : Z) (s : scanner) : scanner :=
  mk_scanner (bell_biquad s) (current_peak s) (peak_buffer s) (sample_window s)
    i (filtered_level s) (decorrelated_level s)
    (peak_threshold s) (peak_started s) (window_index s) (window_sum s)
    (last_sample s) (weight s).

Definition set_capture (started : bool) (p : peak) (s : scanner) : scanner :=
  mk_scanner (bell_biquad s) p (peak_buffer s) (sample_window s)
    (sample_index s) (filtered_level s) (decorrelated_level s)
    (peak_threshold s) started (window_index s) (window_sum s)
    (last_sample s) (weight s).

(** The arguments of the calls of [Dbg_printf], in the order of the calls. *)
Inductive dbg_msg :=
| Dbg_peak_added (p : peak)
| Dbg_discarded_newest (h : Z)
| Dbg_discarded_smallest (h : Z)
| Dbg_knock (p1 p2 p3 : peak) (ratio : float)
| Dbg_ring (p : peak) (now : Z) (level : float)
| Dbg_thresholds (base actual : float).

(** the program image: every static variable zero, but for the two
    initialised ones of [scan_audio] *)
Definition zero_biquad : biquad :=
  mk_biquad F32.zero F32.zero F32.zero F32.zero F32.zero
            F32.zero F32.zero F32.zero F32.zero.

Definition zero_peak : peak := mk_peak 0 0 0 0 0 F32.zero.

Definition startup : scanner :=
  {| bell_biquad := zero_biquad;
     current_peak := zero_peak;
     peak_buffer := [];
     sample_window := replicate (Z.to_nat WINDOW_SIZE) 0;
     sample_index := 0;
     filtered_level := F32.zero;
     decorrelated_level := F32.of_int 32760;
     peak_threshold := F32.of_int 30;
     peak_started := false;
     window_index := 0;
     window_sum := 0;
     last_sample := 0;
     weight := 0 |}.

(** ** The biquad filter *)

Definition biquad_init (gain c0 c1 c2 d1 d2 : float) : biquad :=
  {| a0 := F32.mul c0 gain; a1 := F32.mul c1 gain; a2 := F32.mul c2 gain;
     b1 := d1; b2 := d2;
     in_d1 := F32.zero; in_d2 := F32.zero;
     out_d1 := F32.zero; out_d2 := F32.zero |}.

Definition biquad_apply (f : biquad) (input : float) : float * biquad :=
  let sum :=
    F32.sub
      (F32.sub
         (F32.add
            (F32.add (F32.mul input (a0 f)) (F32.mul (in_d1 f) (a1 f)))
            (F32.mul (in_d2 f) (a2 f)))
         (F32.mul (b1 f) (out_d1 f)))
      (F32.mul (b2 f) (out_d2 f)) in
  (sum,
   {| a0 := a0 f; a1 := a1 f; a2 := a2 f; b1 := b1 f; b2 := b2 f;
      in_d1 := input; in_d2 := in_d1 f;
      out_d1 := sum; out_d2 := out_d1 f |}).

(** the 770 Hz, Q = 100 bandpass *)
Definition bell_filter : biquad :=
  biquad_init (F32.of_int 4)
    (F32.literal 14867434962988915 10000000000000000000)
    F32.zero
    (SFopp (F32.literal 14867434962988915 10000000000000000000))
    (SFopp (F32.literal 19064233259820802 10000000000000000))
    (F32.literal 9970265130074023 10000000000000000).

Definition scan_audio_init (s : scanner) : scanner := set_bell_biquad bell_filter s.

(** ** The peak buffer *)

#[global] Instance peak_inhabited : Inhabited peak := populate zero_peak.

(** the search of [add_peak] for the smallest peak below the new one:
    [acc] is [(smallest_peak_height, smallest_peak_index)], the index [-1]
    of the code being [None] *)
Fixpoint find_smallest (buf : list peak) (i : nat) (acc : Z * option nat)
  : Z * option nat :=
  match buf with
  | [] => acc
  | p :: rest =>
      find_smallest rest (S i)
        (if height p <? fst acc then (height p, Some i) else acc)
  end.

Definition add_peak (new_peak : peak) (flags : Z) (s : scanner)
  : scanner * list dbg_msg :=
  if (num_peaks s =? MAX_NUM_PEAKS)%nat then
    match find_smallest (peak_buffer s) 0 (height new_peak, None) with
    | (_, None) =>
        (s, if flag flags SCAN_DISP_EVENTS
            then [Dbg_discarded_newest (height new_peak)] else [])
    | (smallest_peak_height, Some smallest_peak_index) =>
        (set_peak_buffer (delete smallest_peak_index (peak_buffer s) ++ [new_peak]) s,
         if flag flags SCAN_DISP_EVENTS
         then [Dbg_discarded_smallest smallest_peak_height] else [])
    end
  else (set_peak_buffer (peak_buffer s ++ [new_peak]) s, []).

(** ** The periodic analysis *)

(** the first loop of [check_peaks]: expired peaks leave at the front; the
    sum of the test is a 32-bit [int] *)
Fixpoint expire_peaks (now : Z) (buf : list peak) : list peak :=
  match buf with
  | [] => []
  | p :: rest =>
      if wrap32 (time p + KNOCK_MAX_SPAN * 2) <? now
      then expire_peaks now rest else buf
  end.

(** the [float ratio] of the two gaps *)
Definition gap_ratio (d1 d2 : Z) : float :=
  if d2 <? d1 then F32.div (F32.of_int d1) (F32.of_int d2)
  else F32.div (F32.of_int d2) (F32.of_int d1).

(** the [float min_height], scaled *)
Definition scaled_min_height (flags : Z) (q1 q2 q3 : peak) : float :=
  let min_height := F32.of_int (height q1) in
  let min_height :=
    if F32.ltb (F32.of_int (height q2)) min_height
    then F32.of_int (height q2) else min_height in
  let min_height :=
    if F32.ltb (F32.of_int (height q3)) min_height
    then F32.of_int (height q3) else min_height in
  F32.mul min_height (SPURIOUS_REJECTION_RATIO flags).

(** the test of the innermost loop, on entry [i] of the buffer *)
Definition spurious (p1 p2 p3 : nat) (q1 q3 : peak) (span : Z)
    (min_height : float) (i : nat) (q : peak) : bool :=
  negb (i =? p1)%nat && negb (i =? p2)%nat && negb (i =? p3)%nat
  && (time q1 - Z.quot span 3 <? time q)
  && (time q <? time q3 + Z.quot span 3)
  && F32.gtb (F32.of_int (height q)) min_height.

(** the innermost loop: the value of [i] when it ends, by [break] or at
    [num_peaks] *)
Fixpoint first_spurious (test : nat -> peak -> bool) (i : nat) (buf : list peak)
  : nat :=
  match buf with
  | [] => i
  | q :: rest => if test i q then i else first_spurious test (S i) rest
  end.

(** the two nested conditions on the triple [(p1, p2, p3)] *)
Definition knock_found (flags : Z) (buf : list peak) (now : Z) (p1 p2 p3 : nat)
  : bool :=
  let q1 := buf !!! p1 in
  let q2 := buf !!! p2 in
  let q3 := buf !!! p3 in
  let span := time q3 - time q1 in
  if (KNOCK_MIN_SPAN <? span) && (span <? KNOCK_MAX_SPAN)
     && (width q1 <? 512) && (width q2 <? 512) && (width q3 <? 512)
     && (time q3 + Z.quot span 2 <? now)
  then
    let d1 := time q2 - time q1 in
    let d2 := time q3 - time q2 in
    let ratio := gap_ratio d1 d2 in
    let min_height := scaled_min_height flags q1 q2 q3 in
    let i := first_spurious (spurious p1 p2 p3 q1 q3 span min_height) 0 buf in
    (i =? length buf)%nat && F32.ltb ratio (KNOCK_MAX_RATIO flags)
  else false.

(** The state of the loops of [check_peaks]: [detections], the scanner and
    the messages printed so far. *)
Definition analysis : Type := Z * scanner * list dbg_msg.

Definition knock_p3 (flags : Z) (p1 p2 : nat) (st : analysis) (p3 : nat) : analysis :=
  let '(detections, s, log) := st in
  if (detections =? 0) && (p3 <? num_peaks s)%nat then
    if knock_found flags (peak_buffer s) (sample_index s) p1 p2 p3 then
      (Z.lor detections SCAN_KNOCK_DETECTED,
       set_peak_buffer [] s,
       log ++ (if flag flags SCAN_DISP_EVENTS
               then [Dbg_knock (peak_buffer s !!! p1) (peak_buffer s !!! p2)
                       (peak_buffer s !!! p3)
                       (gap_ratio
                          (time (peak_buffer s !!! p2) - time (peak_buffer s !!! p1))
                          (time (peak_buffer s !!! p3) - time (peak_buffer s !!! p2)))]
               else []))
    else st
  else st.

Definition knock_p2 (flags : Z) (n : nat) (p1 : nat) (st : analysis) (p2 : nat)
  : analysis :=
  if Z.of_nat p2 <? Z.of_nat (num_peaks (snd (fst st))) - 1 then
    fold_left (knock_p3 flags p1 p2) (seq (p2 + 1) (n - (p2 + 1))) st
  else st.

Definition knock_p1 (flags : Z) (n : nat) (st : analysis) (p1 : nat) : analysis :=
  if Z.of_nat p1 <? Z.of_nat (num_peaks (snd (fst st))) - 2 then
    fold_left (knock_p2 flags n p1) (seq (p1 + 1) (n - (p1 + 1))) st
  else st.

(** The three nested loops. Each runs its index over the entries that
    exist when the search starts, and tests its own condition at every
    turn: a condition that fails keeps failing, since [num_peaks] only
    falls to zero and [detections] only gains bits. *)
Definition knock_search (flags : Z) (s : scanner) : analysis :=
  fold_left (knock_p1 flags (num_peaks s)) (seq 0 (num_peaks s)) (0, s, []).

Definition bell_heard (now : Z) (level : float) (p : peak) : bool :=
  (now <? time p + SAMPLING_RATE)
  && F32.gtb level (F32.add (F32.mul (start_level p) (F32.of_int 2)) (F32.of_int 50)).

Definition hit (p : peak) : peak :=
  mk_peak (time p) (area p) (width p) (height p) (filter_hits p + 1) (start_level p).

(** the last loop of [check_peaks]: the buffer with its counters advanced,
    and the peak at which the loop broke off, if it did *)
Fixpoint bell_loop (now : Z) (level : float) (buf : list peak)
  : list peak * option peak :=
  match buf with
  | [] => ([], None)
  | p :: rest =>
      if bell_heard now level p then
        if filter_hits (hit p) =? 5 then (hit p :: rest, Some (hit p))
        else let '(rest', r) := bell_loop now level rest in (hit p :: rest', r)
      else let '(rest', r) := bell_loop now level rest in (p :: rest', r)
  end.

Definition bell_search (flags : Z) (st : analysis) : analysis :=
  let '(detections, s, log) := st in
  match bell_loop (sample_index s) (filtered_level s) (peak_buffer s) with
  | (_, Some p) =>
      (Z.lor detections SCAN_BELL_DETECTED,
       set_peak_buffer [] s,
       log ++ (if flag flags SCAN_DISP_EVENTS
               then [Dbg_ring p (sample_index s) (filtered_level s)] else []))
  | (buf, None) => (detections, set_peak_buffer buf s, log)
  end.

Definition check_peaks (flags : Z) (s : scanner) : analysis :=
  let s1 := set_peak_buffer (expire_peaks (sample_index s) (peak_buffer s)) s in
  bell_search flags (knock_search flags s1).

(** ** scan_audio *)

(** the decorrelation of one sample: the decorrelated sample and the new
    weight *)
Definition decorrelate (weight last_sample x : Z) : Z * Z :=
  let sample := wrap16 (x - Z.shiftr (weight * last_sample + 512) 10) in
  (sample,
   if negb (sample =? 0) && negb (last_sample =? 0)
   then wrap16 (weight + Z.shiftl (Z.lor (Z.shiftr (Z.lxor sample last_sample) 30) 1) 1)
   else weight).

(** the decaying average [level * (255.0F / 256.0F) + x * (1.0F / 256.0F)] *)
Definition decay (level x : float) : float :=
  F32.add (F32.mul level decay_keep) (F32.mul x decay_gain).

Definition clip (x : float) : float :=
  if F32.gtb x clip_level then clip_level
  else if F32.ltb x (SFopp clip_level) then SFopp clip_level
  else x.

(** [if (out_samples && (flags & bit)) *out_samples++ = v;] *)
Definition tap (out_samples : bool) (flags bit : Z) (v : Z) : list Z :=
  if out_samples && flag flags bit then [v] else [].

(** a [float] stored in an [int16_t] *)
Definition to_int16 (x : float) : Z := wrap16 (F32.to_int x).

(** Decorrelation, normalisation, window and bell filter of one sample:
    the windowed level, the scanner and the samples written. *)
Definition signal_path (flags : Z) (out_samples : bool) (x : Z) (s : scanner)
  : Z * scanner * list Z :=
  let '(sample, weight') := decorrelate (weight s) (last_sample s) x in
  let decorrelated_level' :=
    decay (decorrelated_level s) (F32.of_int (Z.abs sample)) in
  let normalized_sample :=
    clip (F32.mul (F32.div (F32.of_int sample) decorrelated_level')
                  (F32.of_int NORMALIZATION_LEVEL)) in
  let slot := Z.to_nat (window_index s) in
  let entry := to_int16 (F32.abs normalized_sample) in
  let window_sum' := window_sum s - sample_window s !!! slot + entry in
  let window_level :=
    wrap16 (Z.shiftr (window_sum' + Z.quot WINDOW_SIZE 2) WINDOW_BITS
            - NORMALIZATION_LEVEL) in
  let '(filtered_sample, bell_biquad') :=
    biquad_apply (bell_biquad s) normalized_sample in
  let filtered_level' := decay (filtered_level s) (F32.abs filtered_sample) in
  (window_level,
   {| bell_biquad := bell_biquad';
      current_peak := current_peak s;
      peak_buffer := peak_buffer s;
      sample_window := <[slot := entry]> (sample_window s);
      sample_index := sample_index s;
      filtered_level := filtered_level';
      decorrelated_level := decorrelated_level';
      peak_threshold := peak_threshold s;
      peak_started := peak_started s;
      window_index := Z.land (window_index s + 1) WINDOW_MASK;
      window_sum := window_sum';
      last_sample := x;
      weight := weight' |},
   tap out_samples flags SCAN_OUTP_DECORR_AUDIO sample
   ++ tap out_samples flags SCAN_OUTP_DECORR_LEVEL (to_int16 decorrelated_level')
   ++ tap out_samples flags SCAN_OUTP_NORMAL_AUDIO (to_int16 normalized_sample)
   ++ tap out_samples flags SCAN_OUTP_WINDOW_LEVEL window_level
   ++ tap out_samples flags SCAN_OUTP_FILTER_AUDIO
        (if F32.gtb filtered_sample clip_level then 32760
         else if F32.ltb filtered_sample (SFopp clip_level) then -32760
         else to_int16 filtered_sample)
   ++ tap out_samples flags SCAN_OUTP_FILTER_LEVEL (to_int16 filtered_level')).

Definition open_peak (now window_level : Z) (level : float) (p : peak) : peak :=
  mk_peak now window_level (width p) window_level 0 level.

Definition raise_peak (now window_level : Z) (p : peak) : peak :=
  mk_peak now (area p) (width p) window_level (filter_hits p) (start_level p).

Definition grow_peak (window_level : Z) (p : peak) : peak :=
  mk_peak (time p) (area p + window_level) (width p) (height p) (filter_hits p)
          (start_level p).

Definition measure_peak (p : peak) : peak :=
  mk_peak (time p) (area p) (Z.quot (area p) (height p)) (height p)
          (filter_hits p) (start_level p).

(** the end of a peak: the two thresholds and [add_peak] *)
Definition close_peak (flags : Z) (s : scanner) : scanner * list dbg_msg :=
  let s := set_capture false (current_peak s) s in
  if F32.gtb (F32.of_int (height (current_peak s))) (peak_threshold s) then
    let s := set_peak_threshold (F32.mul (peak_threshold s) (F32.literal 101 100)) s in
    if F32.gtb (F32.of_int (height (current_peak s)))
               (F32.mul (peak_threshold s) (THRESHOLD_SCALING flags))
    then
      let s := set_capture false (measure_peak (current_peak s)) s in
      let '(s', log) := add_peak (current_peak s) flags s in
      (s', (if flag flags SCAN_DISP_PEAKS
            then [Dbg_peak_added (current_peak s)] else []) ++ log)
    else (s, [])
  else (s, []).

(** the capture of the transients, on the windowed level of one sample *)
Definition capture (flags : Z) (window_level : Z) (s : scanner)
  : scanner * list dbg_msg :=
  if peak_started s || (0 <? window_level) then
    if negb (peak_started s) then
      (set_capture true
         (open_peak (sample_index s) window_level (filtered_level s) (current_peak s)) s,
       [])
    else if height (current_peak s) <? window_level then
      (set_capture true (raise_peak (sample_index s) window_level (current_peak s)) s, [])
    else if window_level <=? 0 then close_peak flags s
    else (set_capture true (grow_peak window_level (current_peak s)) s, [])
  else (s, []).

Definition DAY : Z := SAMPLING_RATE * 3600 * 24.

(** the end of the loop body: the sample counter, a 32-bit [int] that
    [++sample_index] takes from the largest [int] to the least, the
    analysis every [ANALYSIS_INTERVAL] samples, the display of the
    thresholds and the 24-hour loop of the counter *)
Definition advance (flags : Z) (s : scanner) : analysis :=
  let s := set_sample_index (wrap32 (sample_index s + 1)) s in
  let '(detections, s, log) :=
    if Z.rem (sample_index s) ANALYSIS_INTERVAL =? 0 then
      let '(d, s', l) := check_peaks flags s in
      (d, set_peak_threshold (F32.mul (peak_threshold s') (F32.literal 999 1000)) s', l)
    else (0, s, []) in
  let log' :=
    if flag flags SCAN_DISP_THRESHOLDS
       && (Z.rem (sample_index s) (SAMPLING_RATE * 10) =? 0)
    then [Dbg_thresholds (peak_threshold s)
            (F32.mul (peak_threshold s) (THRESHOLD_SCALING flags))]
    else [] in
  let s :=
    if (DAY <? sample_index s) && (num_peaks s =? 0)%nat && negb (peak_started s)
    then set_sample_index (Z.rem (sample_index s) DAY) s
    else s in
  (detections, s, log ++ log').

(** What a call of [scan_audio] leaves: the value returned, the static
    variables, the samples written through [out_samples] and the messages
    printed. *)
Record outcome := mk_outcome {
  detections : Z;
  final : scanner;
  written : list Z;
  printed : list dbg_msg }.

(** one turn of the [while] loop *)
Definition scan_sample (flags : Z) (out_samples : bool) (acc : outcome) (x : Z)
  : outcome :=
  let '(window_level, s, out) := signal_path flags out_samples x (final acc) in
  let '(s, log1) := capture flags window_level s in
  let '(d, s, log2) := advance flags s in
  {| detections := Z.lor (detections acc) d;
     final := s;
     written := written acc ++ out;
     printed := printed acc ++ log1 ++ log2 |}.

(** [scan_audio (in_samples, num_samples, out_samples, flags)]:
    [out_samples] tells whether the pointer is not NULL. *)
Definition scan_audio (in_samples : list Z) (out_samples : bool) (flags : Z)
    (s : scanner) : outcome :=
  fold_left (scan_sample flags out_samples) in_samples (mk_outcome 0 s [] []).

(** ** Notions used by the statements *)

(** the scanners a program can be in: the program image, after any calls
    of [scan_audio_init] and [scan_audio] *)
Inductive reachable : scanner -> Prop :=
| reach_startup : reachable startup
| reach_init s : reachable s -> reachable (scan_audio_init s)
| reach_scan s in_samples out_samples flags :
    reachable s -> reachable (final (scan_audio in_samples out_samples flags s)).

(** the arithmetic sum of the window *)
Definition window_total (w : list Z) : Z := fold_right Z.add 0 w.

(** one call after another: the detections are gathered, the samples
    written and the messages printed follow each other *)
Definition join (a r : outcome) : outcome :=
  mk_outcome (Z.lor (detections a) (detections r)) (final r)
             (written a ++ written r) (printed a ++ printed r).

(** a caller that feeds a stream in batches and gathers the detections,
    as [WavePlayBack] does with [detection |= scan_audio (...)] *)
Definition scan_batches (batches : list (list Z)) (out_samples : bool) (flags : Z)
    (s : scanner) : outcome :=
  fold_left (fun acc batch => join acc (scan_audio batch out_samples flags (final acc)))
            batches (mk_outcome 0 s [] []).

(** the smaller of two floats, as [if (b < a) a = b;] leaves it in [a] *)
Definition fmin (a b : float) : float := if F32.ltb b a then b else a.

(** The knock pattern in words: entries [p1 < p2 < p3] of the buffer whose
    span lies strictly between the two limits, all three narrow, the
    post-roll elapsed, the two gaps nearly equal, and no other peak of some
    height around them. *)
Definition knock_pattern (flags : Z) (buf : list peak) (now : Z) (p1 p2 p3 : nat)
  : Prop :=
  exists q1 q2 q3 : peak,
    buf !! p1 = Some q1 /\ buf !! p2 = Some q2 /\ buf !! p3 = Some q3 /\
    (p1 < p2 < p3)%nat /\
    let span := time q3 - time q1 in
    let d1 := time q2 - time q1 in
    let d2 := time q3 - time q2 in
    let ratio := F32.div (F32.of_int (Z.max d1 d2)) (F32.of_int (Z.min d1 d2)) in
    let min_h :=
      F32.mul (fmin (fmin (F32.of_int (height q1)) (F32.of_int (height q2)))
                    (F32.of_int (height q3)))
              (if flag flags SCAN_HIGH_SENSITIVITY
               then F32.literal 75 100 else F32.literal 5 10) in
    4000 < span < 12000 /\
    width q1 < 512 /\ width q2 < 512 /\ width q3 < 512 /\
    time q3 + span / 2 < now /\
    F32.ltb ratio (if flag flags SCAN_HIGH_SENSITIVITY
                   then F32.literal 12 10 else F32.literal 11 10) = true /\
    forall (i : nat) (q : peak),
      buf !! i = Some q -> i <> p1 -> i <> p2 -> i <> p3 ->
      time q1 - span / 3 < time q < time q3 + span / 3 ->
      F32.gtb (F32.of_int (height q)) min_h = false.

(** what the message of a detected knock may be *)
Definition knock_report (flags : Z) (log : list dbg_msg) : Prop :=
  if flag flags SCAN_DISP_EVENTS
  then exists q1 q2 q3 r, log = [Dbg_knock q1 q2 q3 r]
  else log = [].

(** the result of a search over candidates, some of which succeed: a
    detection with the buffer cleared and at most one message, or nothing
    changed *)
Definition settled (s : scanner) (flags : Z) (found : Prop) (r : analysis) : Prop :=
  (found /\ fst (fst r) = SCAN_KNOCK_DETECTED
   /\ snd (fst r) = set_peak_buffer [] s /\ knock_report flags (snd r))
  \/ (~ found /\ r = (0, s, [])).

Definition finished (s : scanner) (st : analysis) : Prop :=
  fst (fst st) = SCAN_KNOCK_DETECTED /\ snd (fst st) = set_peak_buffer [] s.




(** a buffer of three even knocks, seen 9600 samples after the start *)
Definition three_knocks : scanner :=
  set_sample_index 9600
    (set_peak_buffer
       [mk_peak 1000 2000 20 100 0 F32.zero;
        mk_peak 3400 2400 20 120 0 F32.zero;
        mk_peak 5800 2200 20 110 0 F32.zero] startup).


(** the variables of the signal path: all but the peak capture, the peak
    buffer, the threshold and the sample counter *)
Definition signal_part (s : scanner) :=
  (bell_biquad s, sample_window s, filtered_level s, decorrelated_level s,
   window_index s, window_sum s, last_sample s, weight s).

(** the window is whole, its index inside it and its running sum right *)
Definition window_ok (s : scanner) : Prop :=
  length (sample_window s) = 256%nat
  /\ 0 <= window_index s < 256
  /\ window_sum s = window_total (sample_window s).

(** the decorrelator as the specification words it: the weight follows the
    signs of the raw samples [x] and [last_sample], and nothing wraps *)
Definition decorrelate_on_raw (weight last_sample x : Z) : Z * Z :=
  (x - Z.shiftr (weight * last_sample + 512) 10,
   if negb (x =? 0) && negb (last_sample =? 0)
   then weight + Z.shiftl (Z.lor (Z.shiftr (Z.lxor x last_sample) 30) 1) 1
   else weight).

(** [+2] when the two values have the same sign, [-2] when they differ *)
Definition sign_step (a b : Z) : Z := if Bool.eqb (a <? 0) (b <? 0) then 2 else -2.

(** ** Streams and scanners of the examples *)

(** a scanner just initialised *)
Definition fresh : scanner := scan_audio_init startup.

(** after 300 samples of a constant 100 *)
Definition steady_tone : scanner :=
  final (scan_audio (replicate 300 100) false 0 fresh).

(** after three samples *)
Definition three_samples : scanner :=
  final (scan_audio [1000; -2000; 30] false 0 fresh).

(** a pulse of 40 loud samples, then silence up to 2400 samples *)
Definition pulse : list Z := replicate 40 20000 ++ replicate 2360 0.

(** three pulses 2400 samples apart, and the post-roll *)
Definition three_pulses : list Z := pulse ++ pulse ++ pulse ++ replicate 1100 0.

(** a scanner that has heard 3000 samples of silence *)
Definition used : scanner := final (scan_audio (replicate 3000 0) false 0 fresh).

(** silence, one loud sample that fills the window, silence again for 253
    samples, then a sample of 100: the windowed level turns positive *)
Definition rising : list Z := replicate 3000 0 ++ [20000] ++ replicate 253 0 ++ [100].

(** the reset law as the specification words it, for one history and one
    stream: the detections and the scanner after [stream] are those of a
    fresh detector *)
Definition reset_law (history stream : list Z) : Prop :=
  let again := scan_audio_init (final (scan_audio history false 0 fresh)) in
  detections (scan_audio stream false 0 again) = detections (scan_audio stream false 0 fresh)
  /\ final (scan_audio stream false 0 again) = final (scan_audio stream false 0 fresh).

(** the peak is open, at height 45, when the next sample closes it *)
Definition before_close : scanner := final (scan_audio (rising ++ [3900]) false 0 fresh).
Definition after_close : scanner := final (scan_audio [0] false 0 before_close).

(** The acceptance of a closing peak as the specification words it, from
    the scanner [s] in which the peak closes to the scanner [s'] after:
    the peak enters the buffer exactly when its height exceeds the
    threshold and the threshold scaled, and the threshold grows by 1.01
    exactly when the peak enters. *)
Definition gate_as_worded (flags : Z) (s s' : scanner) : Prop :=
  let h := F32.of_int (height (current_peak s)) in
  let t := peak_threshold s in
  let inserted := peak_buffer s' = peak_buffer s ++ [measure_peak (current_peak s)] in
  (inserted <->
     F32.gtb h t = true
     /\ F32.gtb h (F32.mul t (if flag flags SCAN_HIGH_SENSITIVITY
                              then F32.literal 125 100 else F32.literal 15 10)) = true)
  /\ (inserted -> peak_threshold s' = F32.mul t (F32.literal 101 100))
  /\ (~ inserted -> peak_threshold s' = t).

(** what [add_peak] makes of the buffer *)
Definition stored (p : peak) (buf : list peak) : list peak :=
  if (length buf =? MAX_NUM_PEAKS)%nat then
    match find_smallest buf 0 (height p, None) with
    | (_, None) => buf
    | (_, Some i) => delete i buf ++ [p]
    end
  else buf ++ [p].

(** the peak capture closes a peak on this windowed level *)
Definition closes (window_level : Z) (s : scanner) : bool :=
  peak_started s && negb (height (current_peak s) <? window_level)
  && (window_level <=? 0).

(** the windowed level rises from 1 to 52 and falls below zero at once *)
Definition sharp_peak : scanner := final (scan_audio (rising ++ [5000; 0]) false 0 fresh).

(** ** Signs of binary32 numbers *)

(** a number above zero: finite with an exponent of the format, or
    [+infinity] *)
Definition above_zero (x : float) : Prop :=
  match x with
  | S754_finite false _ e => -149 <= e
  | S754_infinity false => True
  | _ => False
  end.

(** zero or above *)
Definition not_below_zero (x : float) : Prop :=
  match x with
  | S754_zero false => True
  | S754_finite false _ e => -149 <= e
  | S754_infinity false => True
  | _ => False
  end.

(** the mantissa of a shift record with its round and sticky bits, in
    quarters *)
Definition quarters (mrs : shr_record) : Z :=
  4 * shr_m mrs + (if shr_r mrs then 2 else 0) + (if shr_s mrs then 1 else 0).

(** [mrs] is [M] shifted right by [k] bits: exactly, or with the sticky
    bit standing for what was lost *)
Definition shifted (M k : Z) (mrs : shr_record) : Prop :=
  0 <= shr_m mrs
  /\ (quarters mrs * 2 ^ k = 4 * M
      \/ (shr_s mrs = true
          /\ (quarters mrs - 1) * 2 ^ k < 4 * M < (quarters mrs + 1) * 2 ^ k)).

(** after 2700 samples of silence *)
Definition quiet : scanner := final (scan_audio (replicate 2700 0) false 0 fresh).

(** the level is held at 1.0 or above, as a clamp at 1.0 would have it *)
Definition clamped_at_one (s : scanner) : Prop :=
  F32.ltb (decorrelated_level s) (F32.of_int 1) = false.

(** ** Invariants of the peak capture and of the peak buffer *)

(** a peak as the capture makes them and the analysis keeps them *)
Definition peak_sane (p : peak) : Prop :=
  1 <= height p /\ 1 <= area p /\ 0 <= width p <= area p /\ 0 <= filter_hits p <= 4.

(** the open peak, if any, and the buffered peaks are sane *)
Definition capture_ok (s : scanner) : Prop :=
  (peak_started s = true ->
     1 <= height (current_peak s) /\ 1 <= area (current_peak s)
     /\ filter_hits (current_peak s) = 0)
  /\ Forall peak_sane (peak_buffer s).

(** strictly increasing *)
Fixpoint ascending (l : list Z) : Prop :=
  match l with
  | [] => True
  | a :: rest => Forall (fun b => a < b) rest /\ ascending rest
  end.

(** The times of the peaks while a sample is processed: the buffered peaks
    in the order of their times, none later than [bound], and the open
    peak, if any, later than all of them. *)
Definition times_upto (bound : Z) (s : scanner) : Prop :=
  0 <= sample_index s
  /\ ascending (map time (peak_buffer s))
  /\ Forall (fun p => time p <= bound) (peak_buffer s)
  /\ (peak_started s = true ->
        time (current_peak s) <= bound
        /\ Forall (fun p => time p < time (current_peak s)) (peak_buffer s)).

(** between two samples every time is before the sample counter *)
Definition times_ok (s : scanner) : Prop := times_upto (sample_index s - 1) s.

(** what an analysis makes of a buffered peak that it keeps: nothing, or
    one more hit that is not the fifth *)
Definition kept (p p' : peak) : Prop :=
  p' = p \/ (p' = hit p /\ filter_hits p + 1 <> 5).

(** the variables of the peak capture, which the signal path leaves alone *)
Definition capture_part (s : scanner) :=
  (current_peak s, peak_buffer s, peak_started s, sample_index s, peak_threshold s).

(** a peak older than twice the longest knock *)
Definition expired (now : Z) (p : peak) : Prop := time p + KNOCK_MAX_SPAN * 2 < now.

(** sixteen peaks, the oldest the lowest *)
Definition full_buffer : list peak :=
  map (fun k => mk_peak (100 * k) 500 5 (100 + k) 0 F32.zero)
      [1; 2; 3; 4; 5; 6; 7; 8; 9; 10; 11; 12; 13; 14; 15; 16].

(** a scanner whose buffer is full *)
Definition crowded : scanner := set_peak_buffer full_buffer startup.

(** a detector at rest: the filter at its initial values, the window
    empty, no peak open or buffered, and zero as last sample *)
Definition silent (s : scanner) : Prop :=
  bell_biquad s = bell_filter
  /\ peak_buffer s = []
  /\ peak_started s = false
  /\ sample_window s = replicate 256 0
  /\ 0 <= window_index s < 256
  /\ window_sum s = 0
  /\ filtered_level s = F32.zero
  /\ last_sample s = 0
  /\ above_zero (decorrelated_level s).

(** ** The caller of the scanner: the microphone buffer and [fill_buffer] *)

Definition SAMPLE_RATE : Z := 16000.
Definition OUT_BUFFER_SAMPLES : Z := 128.
Definition MIC_BUFFER_SAMPLES : Z := Z.quot (OUT_BUFFER_SAMPLES * 3) 2.

(** [struct clip] and the table [canned_clips], with its closing entry *)
Record struct_clip := mk_clip { start_sample : Z; num_samples : Z }.

Definition canned_clips : list struct_clip :=
  [mk_clip 3840 78080; mk_clip 81920 94080; mk_clip 176000 78400;
   mk_clip 254400 52640; mk_clip 307040 99360; mk_clip 406400 48000;
   mk_clip 0 0].

#[global] Instance clip_inhabited : Inhabited struct_clip := populate (mk_clip 0 0).

(** The static variables of the player. [canned_ptr] is the index of the
    entry of [canned_clips] it points to; [canned_audio] is the offset, in
    samples, of the pointer from [CANNED_AUDIO_START]. *)
Record player := mk_player {
  mic_tail : Z;
  canned_ptr : nat;
  canned_audio : Z;
  canned_samples : Z;
  samples_since_trigger : Z;
  LED_Toggle : Z }.

(** the flags that [fill_buffer] passes to [scan_audio] *)
Definition fill_flags (user_mode : Z) : Z :=
  Z.lor (Z.lor (Z.lor (if flag user_mode 2 then SCAN_HIGH_SENSITIVITY else 0)
                      SCAN_DISP_THRESHOLDS)
               SCAN_DISP_EVENTS)
        SCAN_DISP_PEAKS.

(** The first loop of [fill_buffer]: [count] samples of the microphone
    buffer go to the scanner from [mic_tail] on, in one call up to the end
    of the buffer and then from its start. Every turn of the loop uses one
    unit of [fuel]; [None] stands for a loop that has not ended when the
    fuel is spent. The result is [detection], [mic_tail], the scanner and
    the messages printed. With [mic_tail] outside the buffer the C code
    would read outside [micbuff]; the model is meant for a [tail] inside
    it, where no value leaves the range of [uint16_t]. *)
Fixpoint scan_microphone (fuel : nat) (micbuff : list Z) (user_mode : Z)
    (count tail detection : Z) (s : scanner) (log : list dbg_msg)
  : option (Z * Z * scanner * list dbg_msg) :=
  if count =? 0 then Some (detection, tail, s, log)
  else
    match fuel with
    | O => None
    | S fuel' =>
        let samples_to_scan :=
          if MIC_BUFFER_SAMPLES <? tail + count
          then MIC_BUFFER_SAMPLES - tail else count in
        let r := scan_audio (take (Z.to_nat samples_to_scan) (drop (Z.to_nat tail) micbuff))
                            false (fill_flags user_mode) s in
        scan_microphone fuel' micbuff user_mode (count - samples_to_scan)
          (if MIC_BUFFER_SAMPLES <=? tail + samples_to_scan
           then 0 else tail + samples_to_scan)
          (Z.lor detection (detections r)) (final r) (log ++ printed r)
    end.

(** the samples of the microphone buffer from [tail] on, around its end *)
Definition ring_read (micbuff : list Z) (tail : Z) (n : nat) : list Z :=
  map (fun k => micbuff !!! Z.to_nat ((tail + Z.of_nat k) mod MIC_BUFFER_SAMPLES))
      (seq 0 n).

(** conversion to [uint8_t] *)
Definition wrap8 (z : Z) : Z := z mod 256.

Section Player.

(** the bits of [LED_Toggle], constants of main.h that are left open here *)
Variables LED_CTRL_GREEN_TOGGLE LED_CTRL_ORANGE_TOGGLE : Z.
Variables LED_CTRL_GREEN_OFF LED_CTRL_ORANGE_OFF : Z.

(** the canned audio in flash memory, by offset from [CANNED_AUDIO_START] *)
Variable flash : Z -> Z.

(** the start of a clip, on a detection while no clip plays *)
Definition trigger (user_mode : Z) (p : player) : player :=
  let leds :=
    wrap8 (Z.lor (wrap8 (Z.land (LED_Toggle p) (Z.lnot LED_CTRL_GREEN_TOGGLE)))
                 (Z.lor LED_CTRL_ORANGE_TOGGLE LED_CTRL_GREEN_OFF)) in
  if flag user_mode 1 then
    mk_player (mic_tail p) (canned_ptr p) 68464 8000 0 leds
  else
    let c := canned_clips !!! canned_ptr p in
    mk_player (mic_tail p)
      (if num_samples (canned_clips !!! S (canned_ptr p)) =? 0
       then 0%nat else S (canned_ptr p))
      (start_sample c) (num_samples c) 0 leds.

(** the second loop of [fill_buffer]: [count] stereo samples, of the clip
    while it lasts and of silence after *)
Fixpoint play (count : nat) (p : player) : list Z * player :=
  match count with
  | O => ([], p)
  | S count' =>
      if negb (canned_samples p =? 0) then
        let left := canned_samples p - 1 in
        let leds :=
          if left =? 0
          then wrap8 (Z.lor (wrap8 (Z.land (LED_Toggle p) (Z.lnot LED_CTRL_ORANGE_TOGGLE)))
                            (Z.lor LED_CTRL_GREEN_TOGGLE LED_CTRL_ORANGE_OFF))
          else LED_Toggle p in
        let '(out, p') :=
          play count' (mk_player (mic_tail p) (canned_ptr p) (canned_audio p + 1) left
                                 (samples_since_trigger p) leds) in
        (flash (canned_audio p) :: flash (canned_audio p) :: out, p')
      else
        let '(out, p') := play count' p in
        (0 :: 0 :: out, p')
  end.

(** the player when the second loop starts: with the new [mic_tail], and
    with a clip started if something was detected and none plays *)
Definition cued (user_mode detection tail : Z) (p : player) : player :=
  let p := mk_player tail (canned_ptr p) (canned_audio p) (canned_samples p)
                     (samples_since_trigger p) (LED_Toggle p) in
  if negb (detection =? 0) && (canned_samples p =? 0) then trigger user_mode p else p.

(** the last statement of [fill_buffer]: back to the first clip after a
    minute without a trigger; the count of samples is a 32-bit [int] *)
Definition rewound (detection count : Z) (p : player) : player :=
  if (canned_samples p =? 0) && (detection =? 0) then
    let since := wrap32 (samples_since_trigger p + count) in
    mk_player (mic_tail p) (if 16000 * 60 <? since then 0%nat else canned_ptr p)
              (canned_audio p) (canned_samples p) since (LED_Toggle p)
  else p.

(** [fill_buffer (buffer, num_samples)]: the samples written to [buffer],
    the player, the scanner and the messages printed; [None] if the first
    loop does not end. *)
Definition fill_buffer (micbuff : list Z) (user_mode : Z) (num : Z)
    (p : player) (s : scanner) : option (list Z * player * scanner * list dbg_msg) :=
  let count := Z.quot num 2 in
  match scan_microphone (Z.to_nat count) micbuff user_mode count (mic_tail p) 0 s [] with
  | None => None
  | Some (detection, tail, s', log) =>
      let '(buffer, p) := play (Z.to_nat count) (cued user_mode detection tail p) in
      Some (buffer, rewound detection (Z.quot num 2) p, s', log)
  end.

End Player.

(** the player between two calls: [canned_ptr] on one of the six clips,
    and a count of samples left that is not negative *)
Definition player_ok (p : player) : Prop :=
  (canned_ptr p < 6)%nat /\ 0 <= canned_samples p.

(** the program image *)
Definition player_startup : player := mk_player 0 0 0 0 0 0.

(** a microphone buffer that holds its own indices *)
Definition ramp : list Z := map Z.of_nat (seq 0 192).

(** every sample to both channels *)
Definition stereo (l : list Z) : list Z := flat_map (fun x => [x; x]) l.

(** [n] samples of the canned audio from offset [a] on *)
Definition clip_samples (flash : Z -> Z) (a : Z) (n : nat) : list Z :=
  map (fun k => flash (a + Z.of_nat k)) (seq 0 n).

(** the single bark of the debug mode, as a clip *)
Definition bark : struct_clip := mk_clip 68464 8000.

(** the audio still to play is the rest of a clip of the table, or of the
    single bark *)
Definition in_a_clip (p : player) : Prop :=
  canned_samples p = 0
  \/ exists c, In c (bark :: canned_clips)
       /\ start_sample c <= canned_audio p
       /\ canned_audio p + canned_samples p = start_sample c + num_samples c.

(** ** The microphone side: WaveRecorderCallback *)

(** [micbuff], [mic_head], the static [clip_timer] and the red LED *)
Record microphone := mk_microphone {
  mic_data : list Z;
  mic_head : Z;
  clip_timer : Z;
  LED5 : bool
}.

(** the stores [micbuff [mic_head + i] = sample], for [i] from [at] on; a
    store past the end of the array is dropped *)
Fixpoint store_samples (data : list Z) (at_ : nat) (buffer : list Z) : list Z :=
  match buffer with
  | [] => data
  | sample :: rest => store_samples (<[at_ := sample]> data) (S at_) rest
  end.

(** [WaveRecorderCallback (buffer, num_samples)], with [buffer] the
    [num_samples] samples passed *)
Definition WaveRecorderCallback (buffer : list Z) (m : microphone) : microphone :=
  let num_samples := Z.of_nat (length buffer) in
  let clip := existsb (fun sample => (32700 <=? sample) || (sample <=? -32700)) buffer in
  let data := store_samples (mic_data m) (Z.to_nat (mic_head m)) buffer in
  let head := if MIC_BUFFER_SAMPLES <=? mic_head m + num_samples
              then 0 else mic_head m + num_samples in
  let '(timer, led) :=
    if negb (clip_timer m =? 0) then
      (clip_timer m - 1, if clip_timer m - 1 =? 0 then false else LED5 m)
    else (clip_timer m, if clip then true else LED5 m) in
  mk_microphone data head (if clip then 50 else timer) led.




(** ** The debug output: serial.c *)

Definition TX_BUFLEN : Z := 8192.
Definition TX_BUFMASK : Z := TX_BUFLEN - 1.

(** [tx_buffer], [tx_head] and [tx_tail]; whether the transmit interrupt
    of the USART is enabled; the bytes written to its data register *)
Record usart := mk_usart {
  tx_buffer : list Z;
  tx_head : Z;
  tx_tail : Z;
  TXE_enabled : bool;
  DR : list Z
}.

(** [USART2_putchar (c)]. The function waits while the buffer is full, for
    the interrupt handler to move [tx_tail]; no handler runs inside this
    model, and [None] stands for that wait. *)
Definition USART2_putchar (c : Z) (u : usart) : option usart :=
  if Z.land (tx_head u + 1) TX_BUFMASK =? tx_tail u then None
  else
    let buffer_was_empty := tx_head u =? tx_tail u in
    Some (mk_usart (<[Z.to_nat (tx_head u) := wrap8 c]> (tx_buffer u))
                   (Z.land (tx_head u + 1) TX_BUFMASK)
                   (tx_tail u)
                   (if buffer_was_empty then true else TXE_enabled u)
                   (DR u)).

(** [Dbg_puts (s)]: [s] is the memory that the pointer refers to, read up
    to its first zero *)
Fixpoint Dbg_puts (s : list Z) (u : usart) : option usart :=
  match s with
  | [] => Some u
  | c :: rest =>
      if c =? 0 then Some u
      else
        match (if c =? 10 then USART2_putchar 13 u else Some u) with
        | None => None
        | Some u =>
            match USART2_putchar c u with
            | None => None
            | Some u => Dbg_puts rest u
            end
        end
  end.

(** [USART2_IRQHandler ()]: [txe] is the transmit flag of the hardware,
    which raises the interrupt only while that is enabled; [rx] is the
    character received, if the receive flag is set *)
Definition USART2_IRQHandler (txe : bool) (rx : option Z) (u : usart) : option usart :=
  let u :=
    if txe && TXE_enabled u then
      let tail := Z.land (tx_tail u + 1) TX_BUFMASK in
      mk_usart (tx_buffer u) (tx_head u) tail
               (if tail =? tx_head u then false else TXE_enabled u)
               (DR u ++ [tx_buffer u !!! Z.to_nat (tx_tail u)])
    else u in
  match rx with
  | Some c => USART2_putchar c u
  | None => Some u
  end.

(** the transmit interrupt, served [n] times *)
Fixpoint transmit (n : nat) (u : usart) : option usart :=
  match n with
  | O => Some u
  | S n' =>
      match USART2_IRQHandler true None u with
      | None => None
      | Some u' => transmit n' u'
      end
  end.

(** the characters queued: those from [tx_tail] up to [tx_head] *)
Definition pending (u : usart) : list Z :=
  map (fun k => tx_buffer u !!! Z.to_nat ((tx_tail u + Z.of_nat k) mod TX_BUFLEN))
      (seq 0 (Z.to_nat ((tx_head u - tx_tail u) mod TX_BUFLEN))).

(** the indices inside the buffer, and the transmit interrupt enabled
    exactly while characters are queued *)
Definition usart_ok (u : usart) : Prop :=
  length (tx_buffer u) = Z.to_nat TX_BUFLEN
  /\ 0 <= tx_head u < TX_BUFLEN
  /\ 0 <= tx_tail u < TX_BUFLEN
  /\ (TXE_enabled u = true <-> tx_head u <> tx_tail u).

(** the characters of a C string: those before its first zero *)
Fixpoint text (s : list Z) : list Z :=
  match s with
  | [] => []
  | c :: rest => if c =? 0 then [] else c :: text rest
  end.

(** the bytes a text is sent as: a carriage return before every newline *)
Definition crlf (t : list Z) : list Z :=
  flat_map (fun c => if c =? 10 then [13; wrap8 c] else [wrap8 c]) t.

Definition usart_startup : usart :=
  mk_usart (replicate (Z.to_nat TX_BUFLEN) 0) 0 0 false [].

(** the string "ok\n" in memory, with its closing zero *)
Definition ok_line : list Z := [111; 107; 10; 0].

(** ** The time of a message: time_format *)

(** the three values that [time_format] prints *)
Record clock := mk_clock { hours : Z; minutes : Z; seconds : float }.

Definition time_format (time_in_samples : Z) : clock :=
  let hours := Z.quot time_in_samples (SAMPLING_RATE * 3600) in
  let minutes := Z.quot time_in_samples (SAMPLING_RATE * 60) - hours * 60 in
  let seconds :=
    F32.div (F32.of_int (Z.rem time_in_samples (SAMPLING_RATE * 60)))
            (F32.of_int SAMPLING_RATE) in
  mk_clock hours minutes seconds.

(** the scanner one sample before the analysis that finds three knocks *)
Definition knocks_due : scanner := set_sample_index 9599 three_knocks.

(** a player at rest on the second clip, and one inside the first clip *)
Definition idle_player : player := mk_player 160 1 0 0 500 0.
Definition busy_player : player := mk_player 160 1 81900 20 0 0.


(** a microphone with the head near the end of the buffer *)
Definition late_microphone : microphone := mk_microphone ramp 160 0 false.

(** one character queued in an empty transmit buffer *)
Definition one_queued : usart :=
  mk_usart (<[0%nat := 65]> (replicate (Z.to_nat TX_BUFLEN) 0)) 1 0 true [].

(** * Properties *)

(** ** The sliding window *)

Lemma window_total_insert (w : list Z) (i : nat) (v : Z) :
  (i < length w)%nat ->
  window_total (<[i := v]> w) = window_total w - w !!! i + v.
Proof.
  revert i. induction w as [|a w IH]; intros [|i] Hi; simpl in *; try lia.
  rewrite IH by lia. unfold lookup_total, list_lookup_total. simpl.
  fold (@lookup_total nat Z (list Z) _ i w). lia.
Qed.

(** ** The knock search *)

Section Search.

Variable s : scanner.
Variable flags : Z.

Lemma fold_finished {A} (step : analysis -> A -> analysis) (l : list A) st :
  (forall a st, finished s st -> step st a = st) ->
  finished s st -> fold_left step l st = st.
Proof.
  intros Habs. induction l as [|a l IH]; intros Hst; simpl; trivial.
  rewrite Habs by trivial. auto.
Qed.

Lemma fold_search {A} (step : analysis -> A -> analysis) (P : A -> Prop) :
  (forall a st, finished s st -> step st a = st) ->
  (forall a, settled s flags (P a) (step (0, s, []) a)) ->
  forall l, settled s flags (exists a, In a l /\ P a) (fold_left step l (0, s, [])).
Proof.
  intros Habs Hstep. induction l as [|a l IH]; simpl.
  - right. split; trivial. intros (a & [] & _).
  - destruct (Hstep a) as [(Hp & Hd & Hs & Hl) | (Hn & ->)].
    + left. rewrite fold_finished by (trivial; split; trivial).
      repeat split; trivial. exists a. auto.
    + destruct IH as [((b & Hb & Hpb) & Hd & Hs & Hl) | (Hn' & ->)].
      * left. repeat split; trivial. exists b. auto.
      * right. split; trivial. intros (b & [<- | Hb] & Hpb); [auto|].
        apply Hn'. exists b. auto.
Qed.

Lemma settled_iff (P Q : Prop) r : (P <-> Q) -> settled s flags P r -> settled s flags Q r.
Proof. unfold settled. tauto. Qed.

Lemma settled_none (P : Prop) : ~ P -> settled s flags P (0, s, []).
Proof. right. auto. Qed.

Let n := num_peaks s.
Let found3 (p1 p2 p3 : nat) : Prop :=
  (p3 < n)%nat /\ knock_found flags (peak_buffer s) (sample_index s) p1 p2 p3 = true.
Let found2 (p1 p2 : nat) : Prop :=
  Z.of_nat p2 < Z.of_nat n - 1
  /\ exists p3, In p3 (seq (p2 + 1) (n - (p2 + 1))) /\ found3 p1 p2 p3.
Let found1 (p1 : nat) : Prop :=
  Z.of_nat p1 < Z.of_nat n - 2
  /\ exists p2, In p2 (seq (p1 + 1) (n - (p1 + 1))) /\ found2 p1 p2.

Lemma knock_p3_finished p1 p2 st p3 :
  finished s st -> knock_p3 flags p1 p2 st p3 = st.
Proof.
  destruct st as [[d s'] l]. intros [Hd Hs]. simpl in *. subst d. reflexivity.
Qed.

Lemma knock_p3_settled p1 p2 p3 :
  settled s flags (found3 p1 p2 p3) (knock_p3 flags p1 p2 (0, s, []) p3).
Proof.
  unfold knock_p3, found3. simpl.
  destruct (Nat.ltb_spec p3 (num_peaks s)) as [Hlt | Hge]; simpl.
  - destruct (knock_found _ _ _ _ _ _) eqn:Hk.
    + left. repeat split; trivial. unfold knock_report. simpl.
      destruct (flag flags SCAN_DISP_EVENTS); eauto.
    + apply settled_none. intros [_ H]. discriminate.
  - apply settled_none. subst n. intros [H _]. lia.
Qed.

Lemma knock_p2_finished m p1 st p2 :
  finished s st -> knock_p2 flags m p1 st p2 = st.
Proof.
  destruct st as [[d s'] l]. intros [Hd Hs]. simpl in *. subst.
  unfold knock_p2. simpl. unfold num_peaks. simpl.
  case Z.ltb_spec; [lia | reflexivity].
Qed.

Lemma knock_p2_settled p1 p2 :
  settled s flags (found2 p1 p2) (knock_p2 flags n p1 (0, s, []) p2).
Proof.
  unfold knock_p2, found2. simpl. fold n.
  destruct (Z.ltb_spec (Z.of_nat p2) (Z.of_nat n - 1)) as [Hlt | Hge].
  - eapply settled_iff; [| apply fold_search with (P := found3 p1 p2)].
    + tauto.
    + intros. now apply knock_p3_finished.
    + intros. apply knock_p3_settled.
  - apply settled_none. intros [H _]. lia.
Qed.

Lemma knock_p1_finished m st p1 :
  finished s st -> knock_p1 flags m st p1 = st.
Proof.
  destruct st as [[d s'] l]. intros [Hd Hs]. simpl in *. subst.
  unfold knock_p1. simpl. unfold num_peaks. simpl.
  case Z.ltb_spec; [lia | reflexivity].
Qed.

Lemma knock_p1_settled p1 :
  settled s flags (found1 p1) (knock_p1 flags n (0, s, []) p1).
Proof.
  unfold knock_p1, found1. simpl. fold n.
  destruct (Z.ltb_spec (Z.of_nat p1) (Z.of_nat n - 2)) as [Hlt | Hge].
  - eapply settled_iff; [| apply fold_search with (P := found2 p1)].
    + tauto.
    + intros. now apply knock_p2_finished.
    + intros. apply knock_p2_settled.
  - apply settled_none. intros [H _]. lia.
Qed.

(** the three loops visit exactly the ordered triples of the buffer *)
Lemma knock_search_settled :
  settled s flags
    (exists p1 p2 p3, (p1 < p2 < p3)%nat /\ (p3 < n)%nat
       /\ knock_found flags (peak_buffer s) (sample_index s) p1 p2 p3 = true)
    (knock_search flags s).
Proof.
  unfold knock_search. fold n.
  eapply settled_iff; [| apply fold_search with (P := found1)].
  - unfold found1, found2, found3. split.
    + intros (p1 & _ & _ & p2 & H2 & _ & p3 & H3 & Hn & Hk).
      apply in_seq in H2, H3. exists p1, p2, p3. repeat split; trivial; lia.
    + intros (p1 & p2 & p3 & [H12 H23] & Hn & Hk).
      exists p1. split; [apply in_seq; lia|]. split; [lia|].
      exists p2. split; [apply in_seq; lia|]. split; [lia|].
      exists p3. split; [apply in_seq; lia|]. split; trivial.
  - intros. now apply knock_p1_finished.
  - intros. apply knock_p1_settled.
Qed.

End Search.

Lemma first_spurious_bounds test k buf :
  (k <= first_spurious test k buf <= k + length buf)%nat.
Proof.
  revert k. induction buf as [|q buf IH]; intros k; simpl; [lia|].
  destruct (test k q); [lia|]. specialize (IH (S k)). lia.
Qed.

(** the innermost loop runs to the end exactly when no entry passes its test *)
Lemma first_spurious_end test k buf :
  first_spurious test k buf = (k + length buf)%nat
  <-> forall i q, buf !! i = Some q -> test (k + i)%nat q = false.
Proof.
  revert k. induction buf as [|q0 buf IH]; intros k; simpl.
  - split; [intros _ i q H; discriminate | lia].
  - destruct (test k q0) eqn:Ht.
    + split; [lia|]. intros H. specialize (H 0%nat q0 eq_refl).
      rewrite Nat.add_0_r in H. congruence.
    + replace (k + S (length buf))%nat with (S k + length buf)%nat by lia.
      rewrite IH. split; intros H i q Hi.
      * destruct i as [|i]; simpl in Hi.
        -- injection Hi as <-. now rewrite Nat.add_0_r.
        -- replace (k + S i)%nat with (S k + i)%nat by lia. auto.
      * replace (S k + i)%nat with (k + S i)%nat by lia. auto.
Qed.

Lemma gap_ratio_max_min d1 d2 :
  gap_ratio d1 d2 = F32.div (F32.of_int (Z.max d1 d2)) (F32.of_int (Z.min d1 d2)).
Proof.
  unfold gap_ratio. destruct (Z.ltb_spec d2 d1).
  - now rewrite Z.max_l, Z.min_r by lia.
  - now rewrite Z.max_r, Z.min_l by lia.
Qed.

Lemma spurious_false p1 p2 p3 q1 q3 span min_height i q :
  spurious p1 p2 p3 q1 q3 span min_height i q = false
  <-> (i <> p1 -> i <> p2 -> i <> p3 ->
       time q1 - Z.quot span 3 < time q < time q3 + Z.quot span 3 ->
       F32.gtb (F32.of_int (height q)) min_height = false).
Proof.
  unfold spurious.
  destruct (Nat.eqb_spec i p1), (Nat.eqb_spec i p2), (Nat.eqb_spec i p3);
    simpl; try tauto.
  destruct (Z.ltb_spec (time q1 - Z.quot span 3) (time q)),
           (Z.ltb_spec (time q) (time q3 + Z.quot span 3)); simpl;
    try (split; [intros; lia | trivial]).
  split; [intros Hg _ _ _ _; exact Hg | intros Hx; apply Hx; trivial; lia].
Qed.

(** the conditions the code tests on a triple are those of the pattern *)
Lemma knock_found_pattern flags buf now p1 p2 p3 :
  (p1 < p2 < p3)%nat -> (p3 < length buf)%nat ->
  knock_found flags buf now p1 p2 p3 = true <-> knock_pattern flags buf now p1 p2 p3.
Proof.
  intros Hord Hlen.
  destruct (lookup_lt_is_Some_2 buf p1) as [q1 H1]; [lia|].
  destruct (lookup_lt_is_Some_2 buf p2) as [q2 H2]; [lia|].
  destruct (lookup_lt_is_Some_2 buf p3) as [q3 H3]; [lia|].
  unfold knock_found, knock_pattern.
  rewrite (list_lookup_total_correct _ _ _ H1), (list_lookup_total_correct _ _ _ H2),
    (list_lookup_total_correct _ _ _ H3).
  unfold KNOCK_MIN_SPAN, KNOCK_MAX_SPAN, KNOCK_MAX_RATIO, HIGH_KNOCK_MAX_RATIO,
    LOW_KNOCK_MAX_RATIO, scaled_min_height, SPURIOUS_REJECTION_RATIO,
    HIGH_SPURIOUS_REJECTION_RATIO, LOW_SPURIOUS_REJECTION_RATIO.
  rewrite gap_ratio_max_min.
  set (span := time q3 - time q1).
  set (mh := F32.mul _ _).
  assert (Hmh : mh =
    F32.mul (fmin (fmin (F32.of_int (height q1)) (F32.of_int (height q2)))
                  (F32.of_int (height q3)))
            (if flag flags SCAN_HIGH_SENSITIVITY
             then F32.literal 75 100 else F32.literal 5 10)) by reflexivity.
  clearbody mh.
  split.
  - destruct (_ && _) eqn:Hc; [|discriminate].
    rewrite !andb_true_iff, !Z.ltb_lt in Hc.
    destruct Hc as [[[[[Ha Hb] Hw1] Hw2] Hw3] Hpost].
    rewrite andb_true_iff, Nat.eqb_eq. intros [Hend Hr].
    pose proof (proj1 (first_spurious_end _ 0 buf) Hend) as Hno.
    rewrite Z.quot_div_nonneg in Hpost by lia.
    exists q1, q2, q3. repeat split; try lia; trivial.
    intros i q Hi Hn1 Hn2 Hn3 Hrange. subst mh.
    specialize (Hno i q Hi). simpl in Hno.
    apply spurious_false in Hno; trivial.
    rewrite Z.quot_div_nonneg by lia. exact Hrange.
  - intros (q1' & q2' & q3' & E1 & E2 & E3 & _ & Hspan & Hw1 & Hw2 & Hw3 & Hpost & Hr & Hno).
    rewrite H1 in E1. rewrite H2 in E2. rewrite H3 in E3.
    injection E1 as <-. injection E2 as <-. injection E3 as <-. fold span in Hspan, Hpost, Hno.
    assert (Hc : (4000 <? span) && (span <? 12000) && (width q1 <? 512)
                 && (width q2 <? 512) && (width q3 <? 512)
                 && (time q3 + Z.quot span 2 <? now) = true).
    { rewrite !andb_true_iff, !Z.ltb_lt, Z.quot_div_nonneg by lia. lia. }
    rewrite Hc, andb_true_iff, Nat.eqb_eq. split.
    + apply (first_spurious_end _ 0 buf). intros i q Hi. simpl.
      apply spurious_false. intros Hn1 Hn2 Hn3 Hrange. subst mh.
      apply (Hno i q); trivial.
      rewrite Z.quot_div_nonneg in Hrange by lia. exact Hrange.
    + now destruct (flag flags SCAN_HIGH_SENSITIVITY).
Qed.

(** ** check_peaks *)

Lemma knock_search_cases flags s :
  let found :=
    exists p1 p2 p3, knock_pattern flags (peak_buffer s) (sample_index s) p1 p2 p3 in
  settled s flags found (knock_search flags s).
Proof.
  intros found. eapply settled_iff; [| apply knock_search_settled].
  unfold found. split.
  - intros (p1 & p2 & p3 & Hord & Hn & Hk). exists p1, p2, p3.
    now apply knock_found_pattern.
  - intros (p1 & p2 & p3 & Hp). exists p1, p2, p3.
    assert (Hp' := Hp). destruct Hp' as (q1 & q2 & q3 & _ & _ & H3 & Hord & _).
    apply lookup_lt_Some in H3. unfold num_peaks.
    repeat split; try lia. now apply knock_found_pattern.
Qed.

Lemma bell_loop_nil now level : bell_loop now level [] = ([], None).
Proof. reflexivity. Qed.




(** ** The bell confirmation *)









(** ** What the stages of the loop body leave alone *)

Lemma add_peak_buffer_only p flags s :
  exists b, fst (add_peak p flags s) = set_peak_buffer b s.
Proof.
  unfold add_peak. destruct (_ =? _)%nat; [|simpl; eauto].
  destruct (find_smallest _ _ _) as [h [i|]]; simpl; eauto.
  exists (peak_buffer s). now destruct s.
Qed.

Lemma check_peaks_buffer_only flags s :
  exists b, snd (fst (check_peaks flags s)) = set_peak_buffer b s.
Proof.
  unfold check_peaks.
  set (s1 := set_peak_buffer _ s).
  assert (Hst : exists d b l, knock_search flags s1 = (d, set_peak_buffer b s, l)).
  { destruct (knock_search_cases flags s1) as [(_ & Hd & Hs & _) | (_ & ->)].
    - destruct (knock_search flags s1) as [[d s'] l]. simpl in *. subst. eauto.
    - eauto. }
  destruct Hst as (d & b & l & ->). simpl.
  destruct (bell_loop _ _ _) as [b' [p|]]; simpl; eauto.
Qed.

Lemma add_peak_signal p flags s :
  signal_part (fst (add_peak p flags s)) = signal_part s.
Proof. destruct (add_peak_buffer_only p flags s) as [b ->]. reflexivity. Qed.

Lemma check_peaks_signal flags s :
  signal_part (snd (fst (check_peaks flags s))) = signal_part s.
Proof. destruct (check_peaks_buffer_only flags s) as [b ->]. reflexivity. Qed.

Lemma close_peak_signal flags s :
  signal_part (fst (close_peak flags s)) = signal_part s.
Proof.
  unfold close_peak. cbv zeta.
  repeat (match goal with |- context [if ?c then _ else _] => destruct c end);
    trivial.
  all: match goal with |- context [add_peak ?p ?f ?t] =>
    pose proof (add_peak_signal p f t) as H; destruct (add_peak p f t) end.
  all: exact H.
Qed.

Lemma capture_signal flags wl s :
  signal_part (fst (capture flags wl s)) = signal_part s.
Proof.
  unfold capture.
  repeat (match goal with |- context [if ?c then _ else _] => destruct c end);
    trivial.
  apply close_peak_signal.
Qed.

Lemma advance_signal flags s :
  signal_part (snd (fst (advance flags s))) = signal_part s.
Proof.
  unfold advance. cbv zeta.
  set (s1 := set_sample_index _ s).
  destruct (Z.rem _ _ =? 0).
  - pose proof (check_peaks_signal flags s1) as H.
    destruct (check_peaks flags s1) as [[d s'] l]. simpl in *.
    match goal with |- context [if ?c then _ else _] => destruct c end; simpl; exact H.
  - simpl. match goal with |- context [if ?c then _ else _] => destruct c end; reflexivity.
Qed.

(** only the signal path touches the variables of the signal path *)
Lemma scan_sample_signal flags out acc x :
  signal_part (final (scan_sample flags out acc x))
  = signal_part (snd (fst (signal_path flags out x (final acc)))).
Proof.
  unfold scan_sample.
  destruct (signal_path flags out x (final acc)) as [[wl s1] o].
  pose proof (capture_signal flags wl s1) as Hc.
  destruct (capture flags wl s1) as [s2 l1].
  pose proof (advance_signal flags s2) as Ha.
  destruct (advance flags s2) as [[d s3] l2]. simpl in *. congruence.
Qed.

(** ** Induction over the samples and over the calls *)

Lemma scan_audio_nil out flags s : scan_audio [] out flags s = mk_outcome 0 s [] [].
Proof. reflexivity. Qed.

Lemma fold_scan_invariant (P : scanner -> Prop) flags out :
  (forall acc x, P (final acc) -> P (final (scan_sample flags out acc x))) ->
  forall xs acc, P (final acc) -> P (final (fold_left (scan_sample flags out) xs acc)).
Proof.
  intros Hstep. induction xs as [|x xs IH]; intros acc H; simpl; auto.
Qed.

Lemma reachable_invariant (P : scanner -> Prop) :
  P startup ->
  (forall s, P s -> P (scan_audio_init s)) ->
  (forall flags out acc x, P (final acc) -> P (final (scan_sample flags out acc x))) ->
  forall s, reachable s -> P s.
Proof.
  intros H0 Hi Hs s Hr. induction Hr; auto.
  unfold scan_audio. apply fold_scan_invariant; auto.
Qed.

(** ** The running sum of the window *)

Lemma signal_path_window flags out x s :
  window_ok s -> window_ok (snd (fst (signal_path flags out x s))).
Proof.
  intros (Hlen & Hidx & Hsum). unfold signal_path.
  destruct (decorrelate _ _ _) as [sample w'].
  destruct (biquad_apply _ _) as [fs bq].
  unfold window_ok. simpl. rewrite length_insert. split; trivial. split.
  - change WINDOW_MASK with (Z.ones 8). rewrite Z.land_ones by lia.
    apply Z.mod_pos_bound. lia.
  - rewrite window_total_insert by lia. now rewrite Hsum.
Qed.

Lemma window_ok_signal s s' : signal_part s = signal_part s' -> window_ok s -> window_ok s'.
Proof.
  unfold signal_part, window_ok. intros H. injection H as _ -> _ _ -> -> _ _. trivial.
Qed.

Lemma scan_sample_window flags out acc x :
  window_ok (final acc) -> window_ok (final (scan_sample flags out acc x)).
Proof.
  intros H. eapply window_ok_signal.
  - symmetry. apply scan_sample_signal.
  - now apply signal_path_window.
Qed.

Lemma startup_window_ok : window_ok startup.
Proof. repeat split; simpl; lia. Qed.

(** C8: whatever the calls made and the samples scanned, after every
    sample [window_sum] is the arithmetic sum of the 256 entries of
    [sample_window]. *)
Theorem window_sum_is_total (s : scanner) :
  reachable s ->
  length (sample_window s) = 256%nat
  /\ window_sum s = window_total (sample_window s).
Proof.
  intros Hr.
  assert (H : window_ok s).
  { revert s Hr. apply reachable_invariant.
    - apply startup_window_ok.
    - intros s H. exact H.
    - intros. now apply scan_sample_window. }
  destruct H as (Hlen & _ & Hsum). auto.
Qed.

Lemma window_sum_is_total_witness :
  reachable three_samples
  /\ length (sample_window three_samples) = 256%nat
  /\ window_sum three_samples = window_total (sample_window three_samples).
Proof.
  assert (Hr : reachable three_samples)
    by (apply reach_scan, reach_init, reach_startup).
  split; [exact Hr | exact (window_sum_is_total three_samples Hr)].
Defined.

(** ** Batches *)

Lemma join_assoc a b c : join (join a b) c = join a (join b c).
Proof. unfold join. simpl. now rewrite Z.lor_assoc, !app_assoc. Qed.

Lemma join_idle acc : join acc (mk_outcome 0 (final acc) [] []) = acc.
Proof. destruct acc. unfold join. simpl. now rewrite Z.lor_0_r, !app_nil_r. Qed.

Lemma scan_sample_join flags out acc x :
  scan_sample flags out acc x
  = join acc (scan_sample flags out (mk_outcome 0 (final acc) [] []) x).
Proof.
  unfold scan_sample. cbn [final].
  destruct (signal_path flags out x (final acc)) as [[wl s1] o].
  destruct (capture flags wl s1) as [s2 l1].
  destruct (advance flags s2) as [[d s3] l2]. reflexivity.
Qed.

(** the loop of [scan_audio] goes on from where an earlier call stopped *)
Lemma scan_fold_join flags out xs acc :
  fold_left (scan_sample flags out) xs acc
  = join acc (scan_audio xs out flags (final acc)).
Proof.
  revert acc. induction xs as [|x xs IH]; intros acc.
  - simpl. now rewrite scan_audio_nil, join_idle.
  - unfold scan_audio. simpl. rewrite !IH.
    rewrite <- join_assoc, <- scan_sample_join.
    do 2 f_equal. now rewrite (scan_sample_join flags out acc x).
Qed.

Lemma scan_audio_app xs ys out flags s :
  scan_audio (xs ++ ys) out flags s
  = join (scan_audio xs out flags s)
         (scan_audio ys out flags (final (scan_audio xs out flags s))).
Proof.
  unfold scan_audio at 1. rewrite fold_left_app.
  fold (scan_audio xs out flags s). apply scan_fold_join.
Qed.

Lemma scan_batches_join batches out flags acc :
  fold_left (fun acc batch => join acc (scan_audio batch out flags (final acc)))
            batches acc
  = join acc (scan_audio (concat batches) out flags (final acc)).
Proof.
  revert acc. induction batches as [|b bs IH]; intros acc; simpl.
  - now rewrite scan_audio_nil, join_idle.
  - rewrite IH, scan_audio_app, join_assoc. reflexivity.
Qed.

(** C7: a stream fed in batches, however it is cut, leaves what the whole
    stream fed in one call leaves: the same scanner, the same detections
    gathered, the same samples written and messages printed; so do two
    calls on [S1] and [S2] and one call on [S1 ++ S2], the detections of
    the one call being the OR of those of the two. As this holds for every
    stream, two ways of cutting a stream agree after each of its samples. *)
Theorem batches_as_one_call (out : bool) (flags : Z) (s : scanner) :
  (forall batches : list (list Z),
      scan_batches batches out flags s = scan_audio (concat batches) out flags s)
  /\ (forall S1 S2 : list Z,
      let r1 := scan_audio S1 out flags s in
      let r2 := scan_audio S2 out flags (final r1) in
      let r := scan_audio (S1 ++ S2) out flags s in
      detections r = Z.lor (detections r1) (detections r2)
      /\ final r = final r2).
Proof.
  split.
  - intros batches. unfold scan_batches. rewrite scan_batches_join. simpl.
    destruct (scan_audio (concat batches) out flags s). reflexivity.
  - intros S1 S2. cbv zeta. rewrite scan_audio_app. split; reflexivity.
Qed.

(** ** The diagnostic flags and the output pointer *)

Lemma flag_sensitivity_only flags :
  flag (Z.land flags SCAN_HIGH_SENSITIVITY) SCAN_HIGH_SENSITIVITY
  = flag flags SCAN_HIGH_SENSITIVITY.
Proof. unfold flag. now rewrite <- Z.land_assoc, Z.land_diag. Qed.

Lemma fold_left_fst {A B C} (f g : A * B -> C -> A * B) :
  (forall st st' c, fst st = fst st' -> fst (f st c) = fst (g st' c)) ->
  forall l st st', fst st = fst st' -> fst (fold_left f l st) = fst (fold_left g l st').
Proof.
  intros H. induction l as [|c l IH]; intros st st' E; simpl; auto.
Qed.

Section SameMode.

Variables flags flags' : Z.
Hypothesis same_mode :
  flag flags SCAN_HIGH_SENSITIVITY = flag flags' SCAN_HIGH_SENSITIVITY.

Lemma knock_found_mode buf now p1 p2 p3 :
  knock_found flags buf now p1 p2 p3 = knock_found flags' buf now p1 p2 p3.
Proof.
  unfold knock_found, scaled_min_height, SPURIOUS_REJECTION_RATIO, KNOCK_MAX_RATIO.
  now rewrite same_mode.
Qed.

Lemma knock_p3_mode p1 p2 st st' p3 :
  fst st = fst st' ->
  fst (knock_p3 flags p1 p2 st p3) = fst (knock_p3 flags' p1 p2 st' p3).
Proof.
  destruct st as [[d s] l], st' as [[d' s'] l']. simpl. intros [= <- <-].
  unfold knock_p3. rewrite knock_found_mode.
  destruct (_ && _); trivial. destruct (knock_found _ _ _ _ _ _); trivial.
Qed.

Lemma knock_p2_mode n p1 st st' p2 :
  fst st = fst st' ->
  fst (knock_p2 flags n p1 st p2) = fst (knock_p2 flags' n p1 st' p2).
Proof.
  intros E. unfold knock_p2. rewrite E. destruct (_ <? _); trivial.
  apply fold_left_fst; trivial. intros. now apply knock_p3_mode.
Qed.

Lemma knock_p1_mode n st st' p1 :
  fst st = fst st' ->
  fst (knock_p1 flags n st p1) = fst (knock_p1 flags' n st' p1).
Proof.
  intros E. unfold knock_p1. rewrite E. destruct (_ <? _); trivial.
  apply fold_left_fst; trivial. intros. now apply knock_p2_mode.
Qed.

Lemma knock_search_mode s :
  fst (knock_search flags s) = fst (knock_search flags' s).
Proof.
  unfold knock_search. apply fold_left_fst; trivial.
  intros. now apply knock_p1_mode.
Qed.

Lemma bell_search_mode st st' :
  fst st = fst st' -> fst (bell_search flags st) = fst (bell_search flags' st').
Proof.
  destruct st as [[d s] l], st' as [[d' s'] l']. simpl. intros [= <- <-].
  destruct (bell_loop _ _ _) as [b [p|]]; reflexivity.
Qed.

Lemma check_peaks_mode s : fst (check_peaks flags s) = fst (check_peaks flags' s).
Proof. unfold check_peaks. apply bell_search_mode, knock_search_mode. Qed.

Lemma add_peak_mode p s : fst (add_peak p flags s) = fst (add_peak p flags' s).
Proof.
  unfold add_peak. destruct (_ =? _)%nat; trivial.
  destruct (find_smallest _ _ _) as [h [i|]]; reflexivity.
Qed.

Lemma close_peak_mode s : fst (close_peak flags s) = fst (close_peak flags' s).
Proof.
  unfold close_peak, THRESHOLD_SCALING. cbv zeta. rewrite same_mode.
  destruct (F32.gtb _ _); trivial. destruct (F32.gtb _ _); trivial.
  match goal with |- context [add_peak ?p flags ?t] =>
    pose proof (add_peak_mode p t) as H;
    destruct (add_peak p flags t), (add_peak p flags' t) end.
  exact H.
Qed.

Lemma capture_mode wl s : fst (capture flags wl s) = fst (capture flags' wl s).
Proof.
  unfold capture.
  repeat (match goal with |- context [if ?c then _ else _] => destruct c end);
    trivial.
  apply close_peak_mode.
Qed.

Lemma advance_mode s : fst (advance flags s) = fst (advance flags' s).
Proof.
  unfold advance. cbv zeta. set (s1 := set_sample_index _ s).
  destruct (Z.rem _ _ =? 0); [|reflexivity].
  pose proof (check_peaks_mode s1) as H.
  destruct (check_peaks flags s1) as [[d t] l], (check_peaks flags' s1) as [[d' t'] l'].
  simpl in H. injection H as <- <-. reflexivity.
Qed.

Lemma signal_path_mode out out' x s :
  fst (signal_path flags out x s) = fst (signal_path flags' out' x s).
Proof.
  unfold signal_path.
  destruct (decorrelate _ _ _), (biquad_apply _ _). reflexivity.
Qed.

Lemma scan_sample_mode out out' acc acc' x :
  detections acc = detections acc' -> final acc = final acc' ->
  detections (scan_sample flags out acc x) = detections (scan_sample flags' out' acc' x)
  /\ final (scan_sample flags out acc x) = final (scan_sample flags' out' acc' x).
Proof.
  intros Ed Ef. unfold scan_sample. rewrite Ed, Ef.
  pose proof (signal_path_mode out out' x (final acc')) as H1.
  destruct (signal_path flags out x (final acc')) as [[wl s1] o],
           (signal_path flags' out' x (final acc')) as [[wl' s1'] o'].
  simpl in H1. injection H1 as <- <-.
  pose proof (capture_mode wl s1) as H2.
  destruct (capture flags wl s1) as [s2 l2], (capture flags' wl s1) as [s2' l2'].
  simpl in H2. subst s2'.
  pose proof (advance_mode s2) as H3.
  destruct (advance flags s2) as [[d s3] l3], (advance flags' s2) as [[d' s3'] l3'].
  simpl in H3. injection H3 as <- <-. split; reflexivity.
Qed.

Lemma scan_audio_mode xs out out' s :
  detections (scan_audio xs out flags s) = detections (scan_audio xs out' flags' s)
  /\ final (scan_audio xs out flags s) = final (scan_audio xs out' flags' s).
Proof.
  unfold scan_audio.
  assert (H : forall acc acc', detections acc = detections acc' ->
            final acc = final acc' ->
            detections (fold_left (scan_sample flags out) xs acc)
            = detections (fold_left (scan_sample flags' out') xs acc')
            /\ final (fold_left (scan_sample flags out) xs acc)
               = final (fold_left (scan_sample flags' out') xs acc')).
  { induction xs as [|x xs IH]; intros acc acc' Ed Ef; simpl; [auto|].
    destruct (scan_sample_mode out out' acc acc' x Ed Ef). auto. }
  apply H; reflexivity.
Qed.

End SameMode.

Lemma tap_null flags bit v : tap false flags bit v = [].
Proof. reflexivity. Qed.

Lemma scan_audio_null_writes xs flags s : written (scan_audio xs false flags s) = [].
Proof.
  unfold scan_audio.
  assert (H : forall acc, written acc = [] ->
            written (fold_left (scan_sample flags false) xs acc) = []).
  { induction xs as [|x xs IH]; intros acc Hw; simpl; trivial.
    apply IH. unfold scan_sample, signal_path.
    destruct (decorrelate _ _ _), (biquad_apply _ _).
    rewrite !tap_null.
    destruct (capture _ _ _), (advance _ _) as [[? ?] ?]. simpl.
    now rewrite Hw. }
  now apply H.
Qed.

(** C10: whatever the diagnostic bits of [flags] and whether [out_samples]
    is NULL or not, [scan_audio] returns the detections and leaves the
    scanner of the call that has every bit but SCAN_HIGH_SENSITIVITY clear
    and [out_samples] NULL; and with [out_samples] NULL nothing is written. *)
Theorem diagnostics_do_not_interfere (in_samples : list Z) (out_samples : bool)
    (flags : Z) (s : scanner) :
  let r := scan_audio in_samples out_samples flags s in
  let quiet := scan_audio in_samples false (Z.land flags SCAN_HIGH_SENSITIVITY) s in
  detections r = detections quiet
  /\ final r = final quiet
  /\ written (scan_audio in_samples false flags s) = [].
Proof.
  cbv zeta.
  destruct (scan_audio_mode flags (Z.land flags SCAN_HIGH_SENSITIVITY)
              (eq_sym (flag_sensitivity_only flags)) in_samples out_samples false s)
    as [Hd Hf].
  auto using scan_audio_null_writes.
Qed.

(** ** The decorrelator *)

Lemma wrap16_range z : -32768 <= wrap16 z <= 32767.
Proof. unfold wrap16. pose proof (Z.mod_pos_bound (z + 32768) 65536). lia. Qed.

Lemma wrap16_small z : -32768 <= z <= 32767 -> wrap16 z = z.
Proof. intros H. unfold wrap16. rewrite Z.mod_small; lia. Qed.

Lemma shiftr_30_sign a :
  - 2 ^ 30 <= a < 2 ^ 30 -> Z.shiftr a 30 = if a <? 0 then -1 else 0.
Proof.
  intros H. rewrite Z.shiftr_div_pow2 by lia.
  destruct (Z.ltb_spec a 0).
  - symmetry. apply (Z.div_unique a (2 ^ 30) (-1) (a + 2 ^ 30)); lia.
  - apply Z.div_small. lia.
Qed.

(** the weight moves by 2, up when the two signs agree and down when not *)
Lemma xor_shift_step a b :
  - 2 ^ 30 <= a < 2 ^ 30 -> - 2 ^ 30 <= b < 2 ^ 30 ->
  Z.shiftl (Z.lor (Z.shiftr (Z.lxor a b) 30) 1) 1 = sign_step a b.
Proof.
  intros Ha Hb. rewrite Z.shiftr_lxor, !shiftr_30_sign by trivial.
  unfold sign_step. destruct (a <? 0), (b <? 0); reflexivity.
Qed.

Lemma signal_part_weight s s' :
  signal_part s = signal_part s' ->
  weight s = weight s' /\ last_sample s = last_sample s'.
Proof. unfold signal_part. intros [= _ _ _ _ _ _ -> ->]. auto. Qed.

Lemma signal_path_weight flags out x s :
  weight (snd (fst (signal_path flags out x s)))
  = snd (decorrelate (weight s) (last_sample s) x)
  /\ last_sample (snd (fst (signal_path flags out x s))) = x.
Proof.
  unfold signal_path. destruct (decorrelate _ _ _) as [a b].
  destruct (biquad_apply _ _). simpl. auto.
Qed.

(** C4, as the code has it: the decorrelated sample is
    [x - ((weight * last_sample + 512) >> 10)] cut to 16 bits, and when that
    decorrelated sample and the previous raw sample are both nonzero the
    weight moves by 2 (cut to 16 bits), up when the decorrelated sample and
    the previous raw sample agree in sign, down when they differ; the raw
    sample becomes [last_sample]. *)
Theorem decorrelate_on_residual (weight0 last x : Z) :
  -32768 <= last <= 32767 ->
  let y := wrap16 (x - Z.shiftr (weight0 * last + 512) 10) in
  decorrelate weight0 last x
  = (y, if negb (y =? 0) && negb (last =? 0)
        then wrap16 (weight0 + sign_step y last) else weight0)
  /\ forall flags out acc,
       weight (final acc) = weight0 -> last_sample (final acc) = last ->
       weight (final (scan_sample flags out acc x)) = snd (decorrelate weight0 last x)
       /\ last_sample (final (scan_sample flags out acc x)) = x.
Proof.
  intros Hl y. split.
  - unfold decorrelate. fold y. rewrite xor_shift_step; trivial.
    + pose proof (wrap16_range (x - Z.shiftr (weight0 * last + 512) 10)). fold y in H. lia.
    + lia.
  - intros flags out acc Hw Hs.
    destruct (signal_part_weight _ _ (scan_sample_signal flags out acc x)) as [-> ->].
    rewrite <- Hw, <- Hs. apply signal_path_weight.
Qed.

Lemma decorrelate_on_residual_witness :
  decorrelate 598 100 50 = (-8, 596).
Proof.
  assert (H : -32768 <= 100 <= 32767) by lia.
  exact (proj1 (decorrelate_on_residual 598 100 50 H)).
Defined.

(** C4 as worded fails: after 300 samples of 100 the weight is 598; on the
    sample 50 the code takes the weight down by 2, the decorrelated sample
    being -8, where the raw samples 50 and 100 agree in sign. *)
Lemma decorrelate_not_on_raw :
  weight steady_tone = 598 /\ last_sample steady_tone = 100
  /\ decorrelate (weight steady_tone) (last_sample steady_tone) 50 = (-8, 596)
  /\ decorrelate_on_raw (weight steady_tone) (last_sample steady_tone) 50 = (-8, 600)
  /\ decorrelate (weight steady_tone) (last_sample steady_tone) 50
     <> decorrelate_on_raw (weight steady_tone) (last_sample steady_tone) 50.
Proof.
  vm_compute. repeat split; discriminate.
Qed.

(** ** scan_audio_init *)

(** C6, as the code has it: [scan_audio_init] sets the biquad filter, its
    coefficients and its delays, to those of a fresh detector, and leaves
    every other variable as it is: the two levels, the peak threshold, the
    weight and last sample of the decorrelator, the window with its index
    and sum, the open peak, the peak buffer and the sample counter. It is
    what a fresh detector is made of from the program image, and a second
    call adds nothing. *)
Theorem init_resets_biquad_only (s : scanner) :
  bell_biquad (scan_audio_init s) = bell_biquad fresh
  /\ bell_biquad fresh = bell_filter
  /\ current_peak (scan_audio_init s) = current_peak s
  /\ peak_buffer (scan_audio_init s) = peak_buffer s
  /\ sample_window (scan_audio_init s) = sample_window s
  /\ sample_index (scan_audio_init s) = sample_index s
  /\ filtered_level (scan_audio_init s) = filtered_level s
  /\ decorrelated_level (scan_audio_init s) = decorrelated_level s
  /\ peak_threshold (scan_audio_init s) = peak_threshold s
  /\ peak_started (scan_audio_init s) = peak_started s
  /\ window_index (scan_audio_init s) = window_index s
  /\ window_sum (scan_audio_init s) = window_sum s
  /\ last_sample (scan_audio_init s) = last_sample s
  /\ weight (scan_audio_init s) = weight s
  /\ scan_audio_init (scan_audio_init s) = scan_audio_init s
  /\ scan_audio_init (set_bell_biquad (bell_biquad s) startup) = fresh.
Proof. repeat split. Qed.

(** C6 as worded fails: after 3000 samples of silence and a second
    [scan_audio_init], three pulses are a knock; to a fresh detector they
    are not. *)
Lemma reset_law_fails : ~ reset_law (replicate 3000 0) three_pulses.
Proof.
  assert (Hagain :
            detections
              (scan_audio three_pulses false 0
                 (scan_audio_init (final (scan_audio (replicate 3000 0) false 0 fresh))))
            = 1)
    by (vm_compute; reflexivity).
  assert (Hfresh : detections (scan_audio three_pulses false 0 fresh) = 0)
    by (vm_compute; reflexivity).
  unfold reset_law. cbv zeta. rewrite Hagain, Hfresh.
  intros [H _]. discriminate.
Qed.

(** ** The two thresholds *)

Lemma add_peak_stored p flags s :
  fst (add_peak p flags s) = set_peak_buffer (stored p (peak_buffer s)) s.
Proof.
  unfold add_peak, stored, num_peaks. destruct (_ =? _)%nat; trivial.
  destruct (find_smallest _ _ _) as [h [i|]]; trivial. now destruct s.
Qed.

Lemma find_smallest_some buf i h j :
  exists h' j', find_smallest buf i (h, Some j) = (h', Some j').
Proof.
  revert i h j. induction buf as [|q buf IH]; intros i h j; simpl; eauto.
  destruct (height q <? h); auto.
Qed.

(** the new peak is the one dropped exactly when no buffered peak is lower *)
Lemma find_smallest_none buf i h :
  snd (find_smallest buf i (h, None)) = None <-> Forall (fun q => h <= height q) buf.
Proof.
  revert i. induction buf as [|q buf IH]; intros i; simpl.
  - split; auto.
  - destruct (Z.ltb_spec (height q) h) as [Hlt | Hge].
    + destruct (find_smallest_some buf (S i) (height q) i) as (h' & j' & ->). simpl.
      split; [discriminate|]. intros H. inversion H. lia.
    + rewrite IH. split; intros H; [constructor; trivial | now inversion H].
Qed.

Lemma stored_cases p buf :
  (length buf <> MAX_NUM_PEAKS -> stored p buf = buf ++ [p])
  /\ (length buf = MAX_NUM_PEAKS -> Forall (fun q => height p <= height q) buf ->
      stored p buf = buf)
  /\ (length buf = MAX_NUM_PEAKS -> ~ Forall (fun q => height p <= height q) buf ->
      exists i, stored p buf = delete i buf ++ [p]).
Proof.
  unfold stored. pose proof (find_smallest_none buf 0 (height p)) as H.
  destruct (Nat.eqb_spec (length buf) MAX_NUM_PEAKS) as [E | N];
    repeat split; try tauto; intros _ Hall;
    destruct (find_smallest buf 0 (height p, None)) as [h [i|]]; simpl in H.
  - apply H in Hall. discriminate.
  - reflexivity.
  - eauto.
  - destruct Hall. now apply H.
Qed.

(** the search of [add_peak] finds the first of the lowest peaks, if it is
    lower than the height it starts from *)
Lemma find_smallest_first buf k h0 o0 h o :
  find_smallest buf k (h0, o0) = (h, o) ->
  h <= h0 /\ Forall (fun q => h <= height q) buf
  /\ ((o = o0 /\ h = h0)
      \/ exists j q, o = Some (k + j)%nat /\ buf !! j = Some q /\ height q = h /\ h < h0
           /\ forall j' q', (j' < j)%nat -> buf !! j' = Some q' -> h < height q').
Proof.
  revert k h0 o0. induction buf as [|q0 buf IH]; intros k h0 o0 H; simpl in H.
  - injection H as <- <-. split; [lia|]. split; [constructor | left; auto].
  - destruct (Z.ltb_spec (height q0) h0) as [Hlt | Hge]; simpl in H;
      apply IH in H; destruct H as (Hle & Hall & Hcase).
    + split; [lia|]. split; [constructor; [lia | trivial]|]. right.
      destruct Hcase as [[-> ->] | (j & q & -> & Hj & Hq & Hlt' & Hfirst)].
      * exists 0%nat, q0. rewrite Nat.add_0_r. repeat split; trivial. intros j' q' Hj'. lia.
      * exists (S j), q. replace (k + S j)%nat with (S k + j)%nat by lia.
        repeat split; trivial; [lia|].
        intros [|j'] q' Hj' Hq'; simpl in Hq'.
        -- injection Hq' as <-. lia.
        -- apply (Hfirst j' q'); [lia | trivial].
    + split; [lia|]. split; [constructor; [lia | trivial]|].
      destruct Hcase as [[-> ->] | (j & q & -> & Hj & Hq & Hlt' & Hfirst)]; [left; auto|].
      right. exists (S j), q. replace (k + S j)%nat with (S k + j)%nat by lia.
      repeat split; trivial.
      intros [|j'] q' Hj' Hq'; simpl in Hq'.
      * injection Hq' as <-. lia.
      * apply (Hfirst j' q'); [lia | trivial].
Qed.

Lemma stored_drops_a_lowest (p : peak) (buf : list peak) :
  length buf = MAX_NUM_PEAKS ->
  (stored p buf = buf /\ Forall (fun q => height p <= height q) buf)
  \/ exists i d,
       buf !! i = Some d
       /\ stored p buf = delete i buf ++ [p]
       /\ height d < height p
       /\ Forall (fun q => height d <= height q) buf
       /\ forall j q, (j < i)%nat -> buf !! j = Some q -> height d < height q.
Proof.
  intros Hlen. unfold stored. rewrite Hlen, Nat.eqb_refl.
  destruct (find_smallest buf 0 (height p, None)) as [h o] eqn:Hf.
  apply find_smallest_first in Hf. destruct Hf as (Hle & Hall & Hcase).
  destruct Hcase as [[-> ->] | (j & q & -> & Hj & Hq & Hlt & Hfirst)].
  - left. auto.
  - right. exists j, q. simpl. subst h. auto.
Qed.

Lemma close_peak_threshold flags s :
  peak_threshold (fst (close_peak flags s))
  = if F32.gtb (F32.of_int (height (current_peak s))) (peak_threshold s)
    then F32.mul (peak_threshold s) (F32.literal 101 100)
    else peak_threshold s.
Proof.
  unfold close_peak. cbv zeta. simpl.
  destruct (F32.gtb _ (peak_threshold s)); trivial.
  destruct (F32.gtb _ _); trivial.
  match goal with |- context [add_peak ?p ?f ?t] =>
    pose proof (add_peak_stored p f t) as H; destruct (add_peak p f t) end.
  simpl in *. now subst.
Qed.

Lemma close_peak_buffer flags s :
  peak_buffer (fst (close_peak flags s))
  = if F32.gtb (F32.of_int (height (current_peak s))) (peak_threshold s)
       && F32.gtb (F32.of_int (height (current_peak s)))
                  (F32.mul (F32.mul (peak_threshold s) (F32.literal 101 100))
                           (THRESHOLD_SCALING flags))
    then stored (measure_peak (current_peak s)) (peak_buffer s)
    else peak_buffer s.
Proof.
  unfold close_peak. cbv zeta. simpl.
  destruct (F32.gtb _ (peak_threshold s)); trivial.
  destruct (F32.gtb _ _); trivial. simpl.
  match goal with |- context [add_peak ?p ?f ?t] =>
    pose proof (add_peak_stored p f t) as H; destruct (add_peak p f t) end.
  simpl in *. now subst.
Qed.

Lemma capture_buffer flags wl s :
  peak_buffer (fst (capture flags wl s))
  = if closes wl s then peak_buffer (fst (close_peak flags s)) else peak_buffer s.
Proof.
  unfold capture, closes.
  destruct (peak_started s); simpl.
  - destruct (height (current_peak s) <? wl); simpl; trivial.
    destruct (wl <=? 0); trivial.
  - destruct (0 <? wl); trivial.
Qed.

Lemma capture_threshold flags wl s :
  peak_threshold (fst (capture flags wl s))
  = if closes wl s then peak_threshold (fst (close_peak flags s)) else peak_threshold s.
Proof.
  unfold capture, closes.
  destruct (peak_started s); simpl.
  - destruct (height (current_peak s) <? wl); simpl; trivial.
    destruct (wl <=? 0); trivial.
  - destruct (0 <? wl); trivial.
Qed.

Lemma signal_path_threshold flags out x s :
  peak_threshold (snd (fst (signal_path flags out x s))) = peak_threshold s.
Proof.
  unfold signal_path. destruct (decorrelate _ _ _) as [a b].
  destruct (biquad_apply _ _). reflexivity.
Qed.

Lemma advance_threshold flags s :
  peak_threshold (snd (fst (advance flags s)))
  = if Z.rem (wrap32 (sample_index s + 1)) ANALYSIS_INTERVAL =? 0
    then F32.mul (peak_threshold s) (F32.literal 999 1000)
    else peak_threshold s.
Proof.
  unfold advance. cbv zeta. set (s1 := set_sample_index _ s).
  change (sample_index s1) with (wrap32 (sample_index s + 1)).
  destruct (Z.rem _ _ =? 0).
  - destruct (check_peaks_buffer_only flags s1) as [b H].
    destruct (check_peaks flags s1) as [[d s'] l]. simpl in *. subst s'.
    match goal with |- context [if ?c then _ else _] => destruct c end; reflexivity.
  - simpl. match goal with |- context [if ?c then _ else _] => destruct c end; reflexivity.
Qed.

(** C3, as the code has it: [peak_threshold] starts at 30.0; when a peak
    closes, the threshold is multiplied by 1.01 as soon as the height of
    the peak exceeds it, whether the peak is then kept or not, and the
    peak goes to [add_peak] exactly when its height also exceeds the
    threshold so raised times the scaling (1.5, or 1.25 in high
    sensitivity); [add_peak] appends it unless the buffer holds 16 peaks,
    of which the first lowest one, at the least index among the peaks of
    the least height, leaves if it is lower than the new peak, the others
    keeping their order before the new peak, and the new peak is dropped
    if no buffered peak is lower. The threshold is multiplied by 0.999 at
    every analysis, when the sample counter comes to a multiple of 1600,
    and changes at no other place. *)
Theorem threshold_gate_and_drift (flags : Z) (s : scanner) :
  let h := F32.of_int (height (current_peak s)) in
  let t := peak_threshold s in
  let raised := F32.mul t (F32.literal 101 100) in
  let scaling := if flag flags SCAN_HIGH_SENSITIVITY
                 then F32.literal 125 100 else F32.literal 15 10 in
  peak_threshold startup = F32.of_int 30
  /\ peak_threshold (fst (close_peak flags s)) = (if F32.gtb h t then raised else t)
  /\ peak_buffer (fst (close_peak flags s))
     = (if F32.gtb h t && F32.gtb h (F32.mul raised scaling)
        then stored (measure_peak (current_peak s)) (peak_buffer s)
        else peak_buffer s)
  /\ (forall p buf,
        (length buf <> 16%nat -> stored p buf = buf ++ [p])
        /\ (length buf = 16%nat -> Forall (fun q => height p <= height q) buf ->
            stored p buf = buf)
        /\ (length buf = 16%nat -> ~ Forall (fun q => height p <= height q) buf ->
            exists i d,
              buf !! i = Some d
              /\ stored p buf = delete i buf ++ [p]
              /\ height d < height p
              /\ Forall (fun q => height d <= height q) buf
              /\ forall j q, (j < i)%nat -> buf !! j = Some q -> height d < height q))
  /\ (forall p s', peak_buffer (fst (add_peak p flags s')) = stored p (peak_buffer s'))
  /\ (forall wl,
        peak_threshold (fst (capture flags wl s))
        = (if closes wl s then peak_threshold (fst (close_peak flags s)) else t)
        /\ peak_buffer (fst (capture flags wl s))
           = (if closes wl s then peak_buffer (fst (close_peak flags s))
              else peak_buffer s))
  /\ (forall out x, peak_threshold (snd (fst (signal_path flags out x s))) = t)
  /\ peak_threshold (snd (fst (advance flags s)))
     = (if Z.rem (wrap32 (sample_index s + 1)) 1600 =? 0
        then F32.mul t (F32.literal 999 1000) else t).
Proof.
  cbv zeta. split; [reflexivity|].
  split; [apply close_peak_threshold|].
  split; [apply close_peak_buffer|].
  split.
  { intros p buf. destruct (stored_cases p buf) as (H1 & H2 & _).
    split; [exact H1|]. split; [exact H2|]. intros Hfull Hlow.
    destruct (stored_drops_a_lowest p buf Hfull) as [[_ Hall] | H]; [|exact H].
    contradiction. }
  split; [intros p s'; rewrite add_peak_stored; now destruct s'|].
  split; [intros; split; [apply capture_threshold | apply capture_buffer]|].
  split; [intros; apply signal_path_threshold|].
  apply advance_threshold.
Qed.

(** C3 as worded fails: a peak of height 45 closes under a threshold near
    29.94; 45 exceeds the threshold and 1.5 times the threshold, yet the
    peak is not stored, since 45 does not exceed 1.5 times the raised
    threshold; and the threshold has grown by 1.01 all the same. *)
Lemma gate_as_worded_fails :
  peak_started before_close = true /\ height (current_peak before_close) = 45
  /\ peak_started after_close = false
  /\ peak_buffer after_close = []
  /\ peak_threshold after_close
     = F32.mul (peak_threshold before_close) (F32.literal 101 100)
  /\ ~ gate_as_worded 0 before_close after_close.
Proof.
  assert (Hb : peak_buffer after_close = []) by (vm_compute; reflexivity).
  assert (Hg1 : F32.gtb (F32.of_int (height (current_peak before_close)))
                  (peak_threshold before_close) = true) by (vm_compute; reflexivity).
  assert (Hg2 : F32.gtb (F32.of_int (height (current_peak before_close)))
                  (F32.mul (peak_threshold before_close) (F32.literal 15 10)) = true)
    by (vm_compute; reflexivity).
  split; [vm_compute; reflexivity|].
  split; [vm_compute; reflexivity|].
  split; [vm_compute; reflexivity|].
  split; [exact Hb|].
  split; [vm_compute; reflexivity|].
  intros [Hiff _]. cbv zeta in Hiff.
  change (flag 0 SCAN_HIGH_SENSITIVITY) with false in Hiff. cbv iota in Hiff.
  assert (Hin : peak_buffer after_close
                = peak_buffer before_close ++ [measure_peak (current_peak before_close)]).
  { apply Hiff. split; [exact Hg1 | exact Hg2]. }
  rewrite Hb in Hin. destruct (peak_buffer before_close); discriminate.
Qed.

(** ** The area of a peak *)

(** a sample at which the level sets a new maximum adds nothing to the area *)
Lemma raise_peak_area now wl p : area (raise_peak now wl p) = area p.
Proof. reflexivity. Qed.

(** C5 fails on the code: on silence, one loud sample, silence, then the
    samples 100, 5000 and 0, the windowed level is 1, then 52, then
    negative; the peak closes with height 52 and area 1, the level 52
    having set the height without being added to the area, and enters the
    buffer with width 0. *)
Theorem peak_area_below_height :
  peak_started sharp_peak = false
  /\ height (current_peak sharp_peak) = 52
  /\ area (current_peak sharp_peak) = 1
  /\ peak_buffer sharp_peak = [mk_peak 3255 1 0 52 0 (start_level (current_peak sharp_peak))]
  /\ ~ (area (current_peak sharp_peak) >= height (current_peak sharp_peak)).
Proof.
  assert (Hh : height (current_peak sharp_peak) = 52) by (vm_compute; reflexivity).
  assert (Ha : area (current_peak sharp_peak) = 1) by (vm_compute; reflexivity).
  split; [vm_compute; reflexivity|].
  split; [exact Hh|]. split; [exact Ha|].
  split; [vm_compute; reflexivity|].
  rewrite Hh, Ha. lia.
Qed.

(** ** Rounding to binary32 keeps a positive number above zero *)

Lemma digits2_pos_lower (M : positive) : 2 ^ (Zpos (digits2_pos M) - 1) <= Zpos M.
Proof.
  induction M as [M IH | M IH |]; simpl digits2_pos; [| |simpl; lia].
  - rewrite Pos2Z.inj_succ.
    replace (Z.succ (Zpos (digits2_pos M)) - 1) with (Z.succ (Zpos (digits2_pos M) - 1)) by lia.
    rewrite Z.pow_succ_r by lia. lia.
  - rewrite Pos2Z.inj_succ.
    replace (Z.succ (Zpos (digits2_pos M)) - 1) with (Z.succ (Zpos (digits2_pos M) - 1)) by lia.
    rewrite Z.pow_succ_r by lia. lia.
Qed.

Lemma shifted_start (M : Z) : 0 <= M -> shifted M 0 (Build_shr_record M false false).
Proof. intros H. split; trivial. left. unfold quarters. simpl shr_m. simpl. lia. Qed.

(** one more bit shifted out *)
Lemma shifted_step M k mrs :
  0 <= k -> shifted M k mrs -> shifted M (k + 1) (shr_1 mrs).
Proof.
  intros Hk [Hm H]. unfold shifted. rewrite Z.pow_add_r, Z.pow_1_r by lia.
  pose proof (Z.pow_pos_nonneg 2 k) as HP. set (P := 2 ^ k) in *.
  assert (0 < P) by lia. clear HP.
  destruct mrs as [m r s]. unfold quarters in *. simpl in Hm, H.
  assert (Hc : exists h b : Z, m = 2 * h + b /\ 0 <= h /\ (b = 0 \/ b = 1)
             /\ shr_1 (Build_shr_record m r s)
                = Build_shr_record h (Z.eqb b 1) (r || s)).
  { destruct m as [|[p|p|]|p]; try lia.
    - exists 0, 0. simpl. repeat split; auto; lia.
    - exists (Zpos p), 1. simpl. repeat split; auto; lia.
    - exists (Zpos p), 0. simpl. repeat split; auto; lia.
    - exists 0, 1. simpl. repeat split; auto; lia. }
  destruct Hc as (h & b & -> & Hh & Hb & ->). simpl.
  split; trivial.
  destruct Hb as [-> | ->]; destruct r, s; simpl in *;
    destruct H as [H | [Hs H]]; try discriminate;
    first [left; lia | right; split; [reflexivity | lia]].
Qed.

Lemma shifted_iter (p : positive) M k mrs :
  0 <= k -> shifted M k mrs -> shifted M (k + Zpos p) (SpecFloat.iter_pos shr_1 p mrs).
Proof.
  revert k mrs. induction p as [p IH | p IH |]; intros k mrs Hk H; simpl.
  - replace (k + Zpos p~1) with (k + 1 + Zpos p + Zpos p) by lia.
    apply IH; [lia|]. apply IH; [lia|]. now apply shifted_step.
  - replace (k + Zpos p~0) with (k + Zpos p + Zpos p) by lia.
    apply IH; [lia|]. now apply IH.
  - now apply shifted_step.
Qed.

(** what is left of a number of more than [k] bits is not zero *)
Lemma shifted_large M k mrs :
  0 <= k -> shifted M k mrs -> 2 ^ k <= M -> 1 <= shr_m mrs.
Proof.
  intros Hk [Hm H] HM.
  pose proof (Z.pow_pos_nonneg 2 k) as HP. set (P := 2 ^ k) in *.
  assert (0 < P) by lia. clear HP.
  destruct (Z.eq_dec (shr_m mrs) 0) as [Hz | Hnz]; [|lia].
  unfold quarters in H. rewrite Hz in H. destruct (shr_r mrs), (shr_s mrs);
    destruct H as [H | [Hs H]]; try discriminate; lia.
Qed.

Lemma round_nearest_even_ge mrs :
  0 <= shr_m mrs ->
  shr_m mrs <= round_nearest_even (shr_m mrs) (loc_of_shr_record mrs).
Proof.
  intros Hm. destruct mrs as [m [|] [|]]; simpl; try lia.
  destruct (Z.even m); lia.
Qed.

(** a number above half of the last bit kept rounds to one at least *)
Lemma shifted_rounds_up M k mrs :
  0 <= k -> shifted M k mrs -> 2 ^ k < 2 * M ->
  1 <= round_nearest_even (shr_m mrs) (loc_of_shr_record mrs).
Proof.
  intros Hk [Hm H] HM.
  pose proof (Z.pow_pos_nonneg 2 k) as HP. set (P := 2 ^ k) in *.
  assert (0 < P) by lia. clear HP.
  destruct mrs as [m r s]. unfold quarters in H. simpl in *.
  destruct (Z.eq_dec m 0) as [-> | Hm0].
  - destruct r, s; simpl in *; destruct H as [H | [Hs H]]; try discriminate; lia.
  - pose proof (round_nearest_even_ge (Build_shr_record m r s) Hm) as Hge.
    simpl in Hge. lia.
Qed.

(** the first shift of a rounding: the exponent is one of the format, and
    the mantissa does not round to zero if the number is above half of the
    smallest binary32 number *)
Lemma shr_fexp_rounds (M : positive) (E : Z) :
  let r := shr_fexp 24 128 (Zpos M) E loc_Exact in
  let m1 := round_nearest_even (shr_m (fst r)) (loc_of_shr_record (fst r)) in
  -149 <= snd r /\ 0 <= m1
  /\ (-149 <= E \/ 2 ^ (-150 - E) < Zpos M -> 1 <= m1).
Proof.
  unfold shr_fexp, shr, fexp. change (emin 24 128) with (-149).
  simpl Zdigits2. simpl shr_record_of_loc.
  pose proof (digits2_pos_lower M) as Hd. set (d := Zpos (digits2_pos M)) in *.
  destruct (Z.max (d + E - 24) (-149) - E) as [|p|p] eqn:Hn; cbv zeta; simpl fst; simpl snd.
  - simpl. lia.
  - pose proof (shifted_iter p (Zpos M) 0 _ (Z.le_refl 0) (shifted_start (Zpos M) ltac:(lia)))
      as Hs. simpl Z.add in Hs.
    set (mrs := SpecFloat.iter_pos shr_1 p _) in *.
    pose proof (proj1 Hs) as Hm. pose proof (round_nearest_even_ge mrs Hm) as Hge.
    split; [lia|]. split; [lia|]. intros Hc.
    apply (shifted_rounds_up (Zpos M) (Zpos p) mrs); trivial; [lia|].
    destruct (Z.max_spec (d + E - 24) (-149)) as [[Hlt Hmax] | [Hle Hmax]].
    + assert (HE : E <= -150) by lia. destruct Hc as [Hc | Hc]; [lia|].
      replace (Zpos p) with (Z.succ (-150 - E)) by lia.
      rewrite Z.pow_succ_r by lia. lia.
    + assert (Hp : Zpos p <= d - 1) by lia.
      pose proof (Z.pow_le_mono_r 2 (Zpos p) (d - 1) ltac:(lia) Hp). lia.
  - simpl. lia.
Qed.

(** the second shift of a rounding keeps a mantissa that is not zero *)
Lemma shr_fexp_keeps (q : positive) (e : Z) :
  -149 <= e ->
  let r := shr_fexp 24 128 (Zpos q) e loc_Exact in
  1 <= shr_m (fst r) /\ -149 <= snd r.
Proof.
  intros He. unfold shr_fexp, shr, fexp. change (emin 24 128) with (-149).
  simpl Zdigits2. simpl shr_record_of_loc.
  pose proof (digits2_pos_lower q) as Hd. set (d := Zpos (digits2_pos q)) in *.
  destruct (Z.max (d + e - 24) (-149) - e) as [|p|p] eqn:Hn; cbv zeta; simpl fst; simpl snd.
  - simpl. lia.
  - pose proof (shifted_iter p (Zpos q) 0 _ (Z.le_refl 0) (shifted_start (Zpos q) ltac:(lia)))
      as Hs. simpl Z.add in Hs.
    split; [|lia].
    apply (shifted_large (Zpos q) (Zpos p)); trivial; [lia|].
    assert (Hp : Zpos p <= d - 1) by lia.
    pose proof (Z.pow_le_mono_r 2 (Zpos p) (d - 1) ltac:(lia) Hp). lia.
  - simpl. lia.
Qed.

Lemma shr_fexp_zero (e : Z) :
  -149 <= e -> shr_fexp 24 128 0 e loc_Exact = (Build_shr_record 0 false false, e).
Proof.
  intros He. unfold shr_fexp, shr, fexp. change (emin 24 128) with (-149). simpl Zdigits2.
  simpl shr_record_of_loc.
  destruct (Z.max (0 + e - 24) (-149) - e) eqn:Hn; trivial. lia.
Qed.

(** rounding a positive number gives zero or a number above zero, and a
    number above zero if the number rounded is above half of the smallest
    binary32 number *)
Lemma binary_round_aux_sign (M : positive) (E : Z) :
  not_below_zero (binary_round_aux 24 128 false (Zpos M) E loc_Exact)
  /\ (-149 <= E \/ 2 ^ (-150 - E) < Zpos M ->
      above_zero (binary_round_aux 24 128 false (Zpos M) E loc_Exact)).
Proof.
  unfold binary_round_aux.
  pose proof (shr_fexp_rounds M E) as H1. cbv zeta in H1.
  destruct (shr_fexp 24 128 (Zpos M) E loc_Exact) as [mrs1 e1]. simpl fst in H1. simpl snd in H1.
  destruct H1 as (He1 & Hm0 & Hm1).
  destruct (round_nearest_even _ _) as [|q|q]; [| |lia].
  - rewrite shr_fexp_zero by trivial. simpl. split; trivial. intros Hc.
    specialize (Hm1 Hc). lia.
  - pose proof (shr_fexp_keeps q e1 He1) as H2. cbv zeta in H2.
    destruct (shr_fexp 24 128 (Zpos q) e1 loc_Exact) as [mrs2 e2].
    simpl fst in H2. simpl snd in H2. destruct H2 as [Hm2 He2].
    destruct (shr_m mrs2) as [|m|m]; try lia.
    destruct (e2 <=? 128 - 24); simpl; auto.
Qed.

Lemma binary_round_above (p : positive) (e : Z) :
  -149 <= e -> above_zero (binary_round 24 128 false p e).
Proof.
  intros He. unfold binary_round, shl_align, fexp. change (emin 24 128) with (-149).
  destruct (Z.max (Zpos (digits2_pos p) + e - 24) (-149) - e) eqn:Hn;
    apply binary_round_aux_sign; lia.
Qed.

Lemma of_int_not_below (a : Z) : 0 <= a -> not_below_zero (F32.of_int a).
Proof.
  intros Ha. unfold F32.of_int, binary_normalize. destruct a as [|p|p]; [exact I| |lia].
  pose proof (binary_round_above p 0 ltac:(lia)) as H.
  change F32.prec with 24. change F32.emax with 128.
  destruct (binary_round 24 128 false p 0) as [[|]|[|]| |[|] m e]; simpl in *; tauto.
Qed.

Lemma mul_gain_not_below (x : float) :
  not_below_zero x -> not_below_zero (F32.mul x decay_gain).
Proof.
  change decay_gain with (S754_finite false 8388608 (-31)).
  destruct x as [[|]|[|]| |[|] m e]; simpl; try tauto. intros _.
  apply binary_round_aux_sign.
Qed.

Lemma mul_keep_above (x : float) :
  above_zero x -> above_zero (F32.mul x decay_keep).
Proof.
  change decay_keep with (S754_finite false 16711680 (-24)).
  destruct x as [[|]|[|]| |[|] m e]; simpl; try tauto. intros He.
  apply binary_round_aux_sign.
  destruct (Z_le_gt_dec (-149) (e + -24)) as [Hle | Hgt]; [left; lia | right].
  assert (Hp : -150 - (e + -24) <= 23) by lia.
  pose proof (Z.pow_le_mono_r 2 _ 23 ltac:(lia) Hp) as Hpow.
  change (2 ^ 23) with 8388608 in Hpow. lia.
Qed.

Lemma add_above (x y : float) :
  above_zero x -> not_below_zero y -> above_zero (F32.add x y).
Proof.
  destruct x as [[|]|[|]| |[|] m1 e1]; simpl; try tauto;
    destruct y as [[|]|[|]| |[|] m2 e2]; simpl; try tauto.
  intros H1 H2. apply binary_round_above. lia.
Qed.

(** the decaying average of magnitudes stays above zero *)
Lemma decay_above (level : float) (a : Z) :
  above_zero level -> 0 <= a -> above_zero (decay level (F32.of_int a)).
Proof.
  intros Hl Ha. unfold decay. apply add_above.
  - now apply mul_keep_above.
  - now apply mul_gain_not_below, of_int_not_below.
Qed.

(** ** The level of the decorrelated audio *)

Lemma signal_path_level flags out x s :
  decorrelated_level (snd (fst (signal_path flags out x s)))
  = decay (decorrelated_level s)
          (F32.of_int (Z.abs (fst (decorrelate (weight s) (last_sample s) x)))).
Proof.
  unfold signal_path. destruct (decorrelate _ _ _) as [a b].
  destruct (biquad_apply _ _). reflexivity.
Qed.

Lemma signal_part_level s s' :
  signal_part s = signal_part s' -> decorrelated_level s = decorrelated_level s'.
Proof. unfold signal_part. intros [= _ _ _ -> _ _ _ _]. reflexivity. Qed.

Lemma scan_sample_level flags out acc x :
  decorrelated_level (final (scan_sample flags out acc x))
  = decay (decorrelated_level (final acc))
          (F32.of_int (Z.abs (fst (decorrelate (weight (final acc))
                                               (last_sample (final acc)) x)))).
Proof.
  rewrite (signal_part_level _ _ (scan_sample_signal flags out acc x)).
  apply signal_path_level.
Qed.

Lemma above_zero_positive (x : float) : above_zero x -> F32.ltb F32.zero x = true.
Proof. destruct x as [[|]|[|]| |[|] m e]; simpl; tauto. Qed.

(** C9, as the code has it: whatever the calls made and the samples
    scanned, [decorrelated_level] is strictly positive (never zero,
    negative or NaN), so the normaliser never divides by zero; it is not
    clamped: each sample makes it
    [level * (255.0F / 256.0F) + abs (sample) * (1.0F / 256.0F)] and nothing
    else, the rounding to binary32 never taking it to zero. *)
Theorem level_stays_above_zero (s : scanner) :
  reachable s ->
  F32.ltb F32.zero (decorrelated_level s) = true
  /\ above_zero (decorrelated_level s)
  /\ forall flags out acc x,
       final acc = s ->
       let level' := decorrelated_level (final (scan_sample flags out acc x)) in
       level' = decay (decorrelated_level s)
                      (F32.of_int (Z.abs (fst (decorrelate (weight s) (last_sample s) x))))
       /\ F32.ltb F32.zero level' = true.
Proof.
  intros Hr.
  assert (H : above_zero (decorrelated_level s)).
  { revert s Hr. apply reachable_invariant.
    - vm_compute. discriminate.
    - intros s H. exact H.
    - intros flags out acc x H. rewrite scan_sample_level.
      apply decay_above; [exact H | apply Z.abs_nonneg]. }
  split; [now apply above_zero_positive|]. split; [exact H|].
  intros flags out acc x <-. cbv zeta. rewrite scan_sample_level. split; trivial.
  apply above_zero_positive, decay_above; [exact H | apply Z.abs_nonneg].
Qed.

Lemma quiet_reachable : reachable quiet.
Proof. apply reach_scan, reach_init, reach_startup. Qed.

Lemma level_stays_above_zero_witness :
  reachable quiet /\ F32.ltb F32.zero (decorrelated_level quiet) = true.
Proof.
  split; [exact quiet_reachable|].
  exact (proj1 (level_stays_above_zero quiet quiet_reachable)).
Defined.

(** C9 as worded fails: there is no clamp; after 2700 samples of silence
    the level is below 1.0. *)
Lemma level_falls_below_one : reachable quiet /\ ~ clamped_at_one quiet.
Proof.
  split; [exact quiet_reachable|]. unfold clamped_at_one.
  assert (H : F32.ltb (decorrelated_level quiet) (F32.of_int 1) = true)
    by (vm_compute; reflexivity).
  rewrite H. discriminate.
Qed.

(** * Further properties of scan.c *)

(** ** What an analysis does to the peak buffer *)

Lemma expire_peaks_suffix now buf : exists pre, buf = pre ++ expire_peaks now buf.
Proof.
  induction buf as [|p buf [pre IH]]; simpl.
  - now exists [].
  - destruct (_ <? _).
    + exists (p :: pre). simpl. now f_equal.
    + now exists [].
Qed.

Lemma bell_loop_kept now level buf :
  snd (bell_loop now level buf) = None ->
  Forall2 kept buf (fst (bell_loop now level buf)).
Proof.
  induction buf as [|p buf IH]; simpl; [constructor|].
  destruct (bell_heard now level p).
  - destruct (Z.eqb_spec (filter_hits p + 1) 5) as [E | N]; [simpl; intros [=]|].
    destruct (bell_loop now level buf) as [b r]. simpl in *. intros ->.
    constructor; auto. right. auto.
  - destruct (bell_loop now level buf) as [b r]. simpl in *. intros ->.
    constructor; auto. now left.
Qed.

(** After an analysis the buffer is empty, or it is what was left of the
    old buffer once the expired peaks at its front had gone, each peak
    with one more hit or none. *)
Lemma check_peaks_buffer flags s :
  peak_buffer (snd (fst (check_peaks flags s))) = []
  \/ exists pre mid,
       peak_buffer s = pre ++ mid
       /\ Forall2 kept mid (peak_buffer (snd (fst (check_peaks flags s)))).
Proof.
  unfold check_peaks. set (s1 := set_peak_buffer _ s).
  destruct (expire_peaks_suffix (sample_index s) (peak_buffer s)) as [pre Hpre].
  destruct (knock_search_cases flags s1) as [(_ & Hd & Hs & _) | (_ & ->)].
  - left. destruct (knock_search flags s1) as [[d s'] l]. simpl in *. subst s'. reflexivity.
  - simpl. pose proof (bell_loop_kept (sample_index s) (filtered_level s)
                         (expire_peaks (sample_index s) (peak_buffer s))) as Hk.
    destruct (bell_loop _ _ _) as [b [p|]]; simpl in *; [now left|].
    right. exists pre, (expire_peaks (sample_index s) (peak_buffer s)). auto.
Qed.

Lemma Forall2_kept_transfer (P : peak -> Prop) l l' :
  (forall p, P p -> filter_hits p + 1 <> 5 -> P (hit p)) ->
  Forall2 kept l l' -> Forall P l -> Forall P l'.
Proof.
  intros Hhit H. induction H as [|p p' l l' Hk _ IH]; intros HP; [constructor|].
  inversion HP; subst. constructor; auto.
  destruct Hk as [-> | [-> Hn]]; auto.
Qed.

Lemma Forall2_kept_times l l' : Forall2 kept l l' -> map time l' = map time l.
Proof.
  induction 1 as [|p p' l l' Hk _ IH]; simpl; trivial.
  rewrite IH. destruct Hk as [-> | [-> _]]; reflexivity.
Qed.

(** an analysis keeps whatever holds of every buffered peak and survives
    a hit that is not the fifth *)
Lemma check_peaks_Forall (P : peak -> Prop) flags s :
  (forall p, P p -> filter_hits p + 1 <> 5 -> P (hit p)) ->
  Forall P (peak_buffer s) -> Forall P (peak_buffer (snd (fst (check_peaks flags s)))).
Proof.
  intros Hhit HP.
  destruct (check_peaks_buffer flags s) as [-> | (pre & mid & E & H2)]; [constructor|].
  rewrite E in HP. apply Forall_app in HP as [_ HP].
  eapply Forall2_kept_transfer; eauto.
Qed.

Lemma check_peaks_length flags s :
  (length (peak_buffer (snd (fst (check_peaks flags s)))) <= length (peak_buffer s))%nat.
Proof.
  destruct (check_peaks_buffer flags s) as [-> | (pre & mid & E & H2)]; [simpl; lia|].
  apply Forall2_length in H2. rewrite E, length_app. lia.
Qed.

(** ** What add_peak does to the peak buffer *)

Lemma find_smallest_index buf i acc h j :
  find_smallest buf i acc = (h, Some j) ->
  (snd acc = Some j /\ fst acc = h) \/ (i <= j < i + length buf)%nat.
Proof.
  revert i acc. induction buf as [|q buf IH]; intros i acc H; simpl in *.
  - subst acc. auto.
  - apply IH in H. destruct H as [[H1 H2] | H]; [|right; lia].
    destruct (height q <? fst acc); simpl in *; [|auto].
    right. injection H1 as <-. lia.
Qed.

Lemma stored_shape p buf :
  stored p buf = buf
  \/ (length buf <> MAX_NUM_PEAKS /\ stored p buf = buf ++ [p])
  \/ (length buf = MAX_NUM_PEAKS
      /\ exists i, (i < length buf)%nat /\ stored p buf = delete i buf ++ [p]).
Proof.
  unfold stored. destruct (Nat.eqb_spec (length buf) MAX_NUM_PEAKS) as [E | N].
  - destruct (find_smallest buf 0 (height p, None)) as [h [i|]] eqn:Hf; auto.
    right. right. split; trivial. exists i. split; trivial.
    apply find_smallest_index in Hf. simpl in Hf. destruct Hf as [[? _] | ?]; [discriminate | lia].
  - auto.
Qed.

Lemma stored_Forall (P : peak -> Prop) p buf :
  P p -> Forall P buf -> Forall P (stored p buf).
Proof.
  intros Hp Hb.
  destruct (stored_shape p buf) as [-> | [[_ ->] | (_ & i & _ & ->)]]; trivial;
    apply Forall_app; split; auto using Forall_delete.
Qed.

(** ** How the loop body moves the variables of the peak capture *)

Lemma signal_path_capture_part flags out x s :
  capture_part (snd (fst (signal_path flags out x s))) = capture_part s.
Proof.
  unfold signal_path. destruct (decorrelate _ _ _) as [a b].
  destruct (biquad_apply _ _). reflexivity.
Qed.

Lemma close_peak_capture flags s :
  peak_started (fst (close_peak flags s)) = false
  /\ sample_index (fst (close_peak flags s)) = sample_index s
  /\ (peak_buffer (fst (close_peak flags s)) = peak_buffer s
      \/ peak_buffer (fst (close_peak flags s))
         = stored (measure_peak (current_peak s)) (peak_buffer s)).
Proof.
  pose proof (close_peak_buffer flags s) as Hb.
  destruct (_ && _) in Hb; rewrite Hb; clear Hb.
  all: unfold close_peak; cbv zeta; simpl.
  all: destruct (F32.gtb _ (peak_threshold s)); simpl; auto.
  all: destruct (F32.gtb _ _); simpl; auto.
  all: match goal with |- context [add_peak ?p ?f ?t] =>
         pose proof (add_peak_stored p f t) as H; destruct (add_peak p f t) end.
  all: simpl in *; subst; simpl; auto.
Qed.

(** The end of the loop body: the counter moves on by one, as a 32-bit
    [int]; the analysis may change the buffer, and the counter falls back
    by 24 hours only past 24 hours with no peak open and none buffered. *)
Lemma advance_shape flags s :
  let n := wrap32 (sample_index s + 1) in
  let s1 := set_sample_index n s in
  exists b t i,
    snd (fst (advance flags s))
    = set_sample_index i (set_peak_threshold t (set_peak_buffer b s))
    /\ (b = peak_buffer s \/ b = peak_buffer (snd (fst (check_peaks flags s1))))
    /\ ((i = n /\ (DAY < n -> b = [] -> peak_started s = false -> False))
        \/ (i = Z.rem n DAY /\ DAY < n /\ b = [] /\ peak_started s = false)).
Proof.
  intros n s1. unfold advance. cbv zeta. fold n. fold s1.
  assert (Hc : exists b t d l,
             (if Z.rem (sample_index s1) ANALYSIS_INTERVAL =? 0
              then let '(d, s', l) := check_peaks flags s1 in
                   (d, set_peak_threshold
                         (F32.mul (peak_threshold s') (F32.literal 999 1000)) s', l)
              else (0, s1, []))
             = (d, set_sample_index n
                     (set_peak_threshold t (set_peak_buffer b s)), l)
             /\ (b = peak_buffer s \/ b = peak_buffer (snd (fst (check_peaks flags s1))))).
  { destruct (Z.rem _ _ =? 0).
    - destruct (check_peaks_buffer_only flags s1) as [b Hb].
      destruct (check_peaks flags s1) as [[d s'] l]. simpl in Hb. subst s'.
      exists b, (F32.mul (peak_threshold s) (F32.literal 999 1000)), d, l.
      split; [reflexivity | right; reflexivity].
    - exists (peak_buffer s), (peak_threshold s), 0, []. split; [|left; reflexivity].
      unfold s1. now destruct s. }
  destruct Hc as (b & t & d & l & -> & Hb). cbv iota beta.
  set (s2 := set_sample_index _ (set_peak_threshold t (set_peak_buffer b s))).
  exists b, t.
  change (sample_index s2) with n.
  change (num_peaks s2) with (length b). change (peak_started s2) with (peak_started s).
  destruct (Z.ltb_spec DAY n) as [Hday | Hday]; simpl.
  - destruct b as [|p b]; simpl.
    + destruct (peak_started s) eqn:Hst; simpl.
      * exists n. repeat split; auto. left. split; trivial.
        intros _ _ [=].
      * exists (Z.rem n DAY). repeat split; auto.
    + exists n. repeat split; auto. left. split; trivial.
      intros _ [=].
  - exists n. repeat split; auto. left. split; trivial. lia.
Qed.

(** ** The capacity of the peak buffer *)

Lemma stored_length p buf :
  (length buf <= MAX_NUM_PEAKS)%nat -> (length (stored p buf) <= MAX_NUM_PEAKS)%nat.
Proof.
  intros H.
  destruct (stored_shape p buf) as [-> | [[N ->] | (E & i & Hi & ->)]]; trivial.
  - rewrite length_app. simpl. lia.
  - rewrite length_app, length_delete by (apply lookup_lt_is_Some_2; lia). simpl. lia.
Qed.

Lemma scan_sample_capacity flags out acc x :
  (num_peaks (final acc) <= MAX_NUM_PEAKS)%nat ->
  (num_peaks (final (scan_sample flags out acc x)) <= MAX_NUM_PEAKS)%nat.
Proof.
  unfold num_peaks, scan_sample. intros H.
  pose proof (signal_path_capture_part flags out x (final acc)) as H1.
  destruct (signal_path flags out x (final acc)) as [[wl s1] o]. simpl in H1.
  assert (Hb1 : peak_buffer s1 = peak_buffer (final acc))
    by (unfold capture_part in H1; congruence).
  pose proof (capture_buffer flags wl s1) as H2.
  destruct (close_peak_capture flags s1) as (_ & _ & Hcl).
  destruct (capture flags wl s1) as [s2 l1]. simpl in H2.
  assert (Hb2 : (length (peak_buffer s2) <= MAX_NUM_PEAKS)%nat).
  { rewrite H2. destruct (closes wl s1); [|now rewrite Hb1].
    destruct Hcl as [-> | ->]; rewrite Hb1; auto using stored_length. }
  destruct (advance_shape flags s2) as (b & t & i & Hs3 & Hb & _).
  destruct (advance flags s2) as [[d s3] l2]. simpl in *. subst s3. simpl.
  destruct Hb as [-> | ->]; trivial.
  etransitivity; [apply check_peaks_length|]. exact Hb2.
Qed.

(** The peak buffer never holds more than its 16 entries, whatever the
    calls made and the samples scanned: [add_peak] writes inside the array. *)
Theorem peak_buffer_within_capacity (s : scanner) :
  reachable s -> (num_peaks s <= MAX_NUM_PEAKS)%nat.
Proof.
  revert s. apply reachable_invariant.
  - unfold num_peaks, MAX_NUM_PEAKS. simpl. lia.
  - intros s H. exact H.
  - intros. now apply scan_sample_capacity.
Qed.

Lemma sharp_peak_reachable : reachable sharp_peak.
Proof. apply reach_scan, reach_init, reach_startup. Qed.

Lemma peak_buffer_within_capacity_witness :
  reachable sharp_peak /\ (num_peaks sharp_peak <= MAX_NUM_PEAKS)%nat.
Proof.
  split; [exact sharp_peak_reachable|].
  exact (peak_buffer_within_capacity sharp_peak sharp_peak_reachable).
Defined.

(** ** The peaks captured *)

Lemma measure_peak_sane p :
  1 <= height p -> 1 <= area p -> filter_hits p = 0 -> peak_sane (measure_peak p).
Proof.
  intros Hh Ha Hf. unfold peak_sane. simpl.
  rewrite Z.quot_div_nonneg by lia. rewrite Hf.
  pose proof (Z.div_pos (area p) (height p) ltac:(lia) ltac:(lia)).
  assert (area p / height p <= area p) by (apply Z.div_le_upper_bound; nia).
  lia.
Qed.

Lemma hit_sane p : peak_sane p -> filter_hits p + 1 <> 5 -> peak_sane (hit p).
Proof. unfold peak_sane. simpl. lia. Qed.

Lemma capture_sane flags wl s : capture_ok s -> capture_ok (fst (capture flags wl s)).
Proof.
  intros [Hcur Hbuf]. unfold capture.
  destruct (peak_started s) eqn:Hst; simpl.
  - specialize (Hcur eq_refl). destruct Hcur as (Hh & Ha & Hf).
    destruct (Z.ltb_spec (height (current_peak s)) wl).
    + split; simpl; [intros _; lia | trivial].
    + destruct (Z.leb_spec wl 0).
      * destruct (close_peak_capture flags s) as (Hs' & _ & Hb').
        split; [rewrite Hs'; discriminate|].
        destruct Hb' as [-> | ->]; trivial.
        apply stored_Forall; trivial. now apply measure_peak_sane.
      * split; simpl; [intros _; lia | trivial].
  - destruct (Z.ltb_spec 0 wl); simpl.
    + split; simpl; [intros _; lia | trivial].
    + split; [rewrite Hst; discriminate | trivial].
Qed.

Lemma advance_sane flags s : capture_ok s -> capture_ok (snd (fst (advance flags s))).
Proof.
  intros [Hcur Hbuf].
  destruct (advance_shape flags s) as (b & t & i & -> & Hb & _).
  split; simpl; trivial.
  destruct Hb as [-> | ->]; trivial.
  apply check_peaks_Forall; [apply hit_sane | exact Hbuf].
Qed.

Lemma capture_ok_signal s s' : capture_part s = capture_part s' -> capture_ok s -> capture_ok s'.
Proof.
  unfold capture_part, capture_ok. intros [= E1 E2 E3 _ _]. now rewrite E1, E2, E3.
Qed.

Lemma scan_sample_sane flags out acc x :
  capture_ok (final acc) -> capture_ok (final (scan_sample flags out acc x)).
Proof.
  intros H. unfold scan_sample.
  pose proof (signal_path_capture_part flags out x (final acc)) as H1.
  destruct (signal_path flags out x (final acc)) as [[wl s1] o]. simpl in H1.
  apply (capture_ok_signal _ s1) in H; [|now symmetry].
  apply (capture_sane flags wl) in H.
  destruct (capture flags wl s1) as [s2 l1]. simpl in H.
  apply (advance_sane flags) in H.
  destruct (advance flags s2) as [[d s3] l2]. exact H.
Qed.

(** Whatever the calls made and the samples scanned, every buffered peak
    has a height and an area of 1 at least, a width between 0 and its
    area, and from 0 to 4 hits of the bell; the open peak, if any, has a
    height and an area of 1 at least. So the division of the area by the
    height never divides by zero, and the count of hits cannot step over
    the 5 that the analysis tests for. *)
Theorem buffered_peaks_are_sane (s : scanner) :
  reachable s ->
  Forall peak_sane (peak_buffer s)
  /\ (peak_started s = true ->
      1 <= height (current_peak s) /\ 1 <= area (current_peak s)).
Proof.
  intros Hr.
  assert (H : capture_ok s).
  { revert s Hr. apply reachable_invariant.
    - split; [discriminate | constructor].
    - intros s H. exact H.
    - intros. now apply scan_sample_sane. }
  destruct H as [Hcur Hbuf]. split; trivial.
  intros Hst. destruct (Hcur Hst) as (? & ? & _). auto.
Qed.

Lemma buffered_peaks_are_sane_witness :
  reachable sharp_peak /\ Forall peak_sane (peak_buffer sharp_peak).
Proof.
  split; [exact sharp_peak_reachable|].
  exact (proj1 (buffered_peaks_are_sane sharp_peak sharp_peak_reachable)).
Defined.

(** ** The times of the peaks and the sample counter *)

Lemma ascending_app l x : ascending l -> Forall (fun a => a < x) l -> ascending (l ++ [x]).
Proof.
  induction l as [|a l IH]; simpl; [auto|].
  intros [Ha Hl] Hx. inversion Hx; subst. split; [|auto].
  apply Forall_app. auto.
Qed.

Lemma ascending_suffix pre l : ascending (pre ++ l) -> ascending l.
Proof. induction pre as [|a pre IH]; simpl; [auto | intros [_ H]; auto]. Qed.

Lemma ascending_delete i l : ascending l -> ascending (delete i l).
Proof.
  revert i. induction l as [|a l IH]; intros [|i]; simpl; try tauto.
  intros [Ha Hl]. split; auto using Forall_delete.
Qed.

Lemma stored_times p buf :
  ascending (map time buf) -> Forall (fun q => time q < time p) buf ->
  ascending (map time (stored p buf)).
Proof.
  intros Ha Hp.
  destruct (stored_shape p buf) as [-> | [[_ ->] | (_ & i & _ & ->)]]; trivial;
    rewrite map_app; apply ascending_app.
  - trivial.
  - now apply Forall_map.
  - change (map time (delete i buf)) with (time <$> delete i buf).
    rewrite list_fmap_delete. now apply ascending_delete.
  - apply Forall_map. now apply Forall_delete.
Qed.

Lemma times_upto_signal bound s s' :
  capture_part s = capture_part s' -> times_upto bound s -> times_upto bound s'.
Proof.
  unfold capture_part, times_upto. intros [= E1 E2 E3 E4 _]. now rewrite E1, E2, E3, E4.
Qed.

Lemma Forall_time_weaken (b c : Z) (l : list peak) :
  b <= c -> Forall (fun p => time p <= b) l -> Forall (fun p => time p <= c) l.
Proof. intros Hbc H. eapply Forall_impl; [exact H|]. simpl. intros. lia. Qed.

(** the capture stamps a peak with the counter of the current sample *)
Lemma capture_times flags wl s :
  times_upto (sample_index s - 1) s ->
  times_upto (sample_index s) (fst (capture flags wl s))
  /\ sample_index (fst (capture flags wl s)) = sample_index s.
Proof.
  intros (Hi & Hasc & Hle & Hcur).
  assert (Hle' : Forall (fun p => time p <= sample_index s) (peak_buffer s))
    by (eapply Forall_time_weaken; [|exact Hle]; lia).
  assert (Hlt : Forall (fun p => time p < sample_index s) (peak_buffer s))
    by (eapply Forall_impl; [exact Hle|]; simpl; intros; lia).
  unfold capture, times_upto.
  destruct (peak_started s) eqn:Hst; simpl.
  - specialize (Hcur eq_refl). destruct Hcur as [Hc Hbc].
    destruct (Z.ltb_spec (height (current_peak s)) wl); simpl.
    + repeat split; auto. lia.
    + destruct (Z.leb_spec wl 0); simpl.
      * destruct (close_peak_capture flags s) as (Hs' & Hi' & Hb').
        rewrite Hs', Hi'. split; [|reflexivity].
        split; [lia|]. split; [|split; [|discriminate]].
        -- destruct Hb' as [-> | ->]; trivial. now apply stored_times.
        -- destruct Hb' as [-> | ->]; trivial.
           apply stored_Forall; trivial. simpl. lia.
      * repeat split; auto; lia.
  - destruct (Z.ltb_spec 0 wl); simpl.
    + repeat split; auto. lia.
    + rewrite Hst. repeat split; auto; discriminate.
Qed.

Lemma check_peaks_times flags s :
  exists pre,
    map time (peak_buffer s)
    = pre ++ map time (peak_buffer (snd (fst (check_peaks flags s)))).
Proof.
  destruct (check_peaks_buffer flags s) as [-> | (pre & mid & E & H2)].
  - exists (map time (peak_buffer s)). now rewrite app_nil_r.
  - exists (map time pre). rewrite (Forall2_kept_times _ _ H2), E. apply map_app.
Qed.

Lemma wrap32_small z : INT_MIN <= z <= INT_MAX -> wrap32 z = z.
Proof.
  unfold INT_MIN, INT_MAX, wrap32. intros H. rewrite Z.mod_small by lia. lia.
Qed.

Lemma advance_times flags s :
  times_upto (sample_index s) s -> sample_index s < INT_MAX ->
  times_ok (snd (fst (advance flags s)))
  /\ sample_index (snd (fst (advance flags s))) <= sample_index s + 1.
Proof.
  intros (Hi & Hasc & Hle & Hcur) Hmax. unfold times_ok.
  destruct (advance_shape flags s) as (b & t & i & -> & Hb & Hidx).
  cbv zeta in Hb, Hidx.
  rewrite wrap32_small in Hb, Hidx by (unfold INT_MIN; lia). simpl.
  assert (Hb' : exists pre, map time (peak_buffer s) = pre ++ map time b).
  { destruct Hb as [-> | ->]; [exists []; reflexivity|].
    apply (check_peaks_times flags (set_sample_index (sample_index s + 1) s)). }
  destruct Hb' as [pre Hpre].
  assert (Hasc' : ascending (map time b)).
  { rewrite Hpre in Hasc. now apply ascending_suffix in Hasc. }
  assert (Hall : forall P : Z -> Prop,
            Forall (fun p => P (time p)) (peak_buffer s) -> Forall (fun p => P (time p)) b).
  { intros P HP. apply Forall_map. apply Forall_map in HP.
    rewrite Hpre in HP. now apply Forall_app in HP as [_ HP]. }
  destruct Hidx as [[-> _] | (-> & Hday & -> & Hst)].
  - split; [|lia].
    unfold times_upto. simpl. split; [lia|]. split; trivial.
    replace (sample_index s + 1 - 1) with (sample_index s) by lia.
    split; [apply (Hall (fun z => z <= sample_index s)); trivial|].
    intros Hst. destruct (Hcur Hst) as [Hc Hbc]. split; trivial.
    apply (Hall (fun z => z < time (current_peak s))); trivial.
  - assert (Hd : 0 < DAY) by (unfold DAY, SAMPLING_RATE; lia).
    pose proof (Z.rem_bound_pos (sample_index s + 1) DAY ltac:(lia) Hd) as Hr.
    split; [|lia].
    unfold times_upto. simpl. rewrite Hst.
    split; [lia|]. repeat split; auto. discriminate.
Qed.

Lemma scan_sample_times flags out acc x :
  times_ok (final acc) -> sample_index (final acc) < INT_MAX ->
  times_ok (final (scan_sample flags out acc x))
  /\ sample_index (final (scan_sample flags out acc x)) <= sample_index (final acc) + 1.
Proof.
  intros H Hmax. unfold scan_sample.
  pose proof (signal_path_capture_part flags out x (final acc)) as H1.
  destruct (signal_path flags out x (final acc)) as [[wl s1] o]. simpl in H1.
  assert (Hi : sample_index s1 = sample_index (final acc))
    by (unfold capture_part in H1; congruence).
  unfold times_ok in H. rewrite <- Hi in H, Hmax |- *.
  apply (times_upto_signal _ _ s1) in H; [|now symmetry].
  apply (capture_times flags wl) in H. destruct H as [H Hi2].
  destruct (capture flags wl s1) as [s2 l1]. simpl in H, Hi2.
  rewrite <- Hi2 in H, Hmax |- *.
  destruct (advance_times flags s2 H Hmax) as [T B].
  destruct (advance flags s2) as [[d s3] l2]. split; [exact T | exact B].
Qed.

Lemma scan_fold_times flags out xs :
  forall acc,
    times_ok (final acc) ->
    sample_index (final acc) + Z.of_nat (length xs) <= INT_MAX ->
    times_ok (final (fold_left (scan_sample flags out) xs acc))
    /\ sample_index (final (fold_left (scan_sample flags out) xs acc))
       <= sample_index (final acc) + Z.of_nat (length xs).
Proof.
  induction xs as [|x xs IH]; intros acc H Hmax.
  - cbn [fold_left length]. split; [exact H | lia].
  - cbn [fold_left length] in *.
    destruct (scan_sample_times flags out acc x H ltac:(lia)) as [T B].
    destruct (IH (scan_sample flags out acc x) T ltac:(lia)) as [T' B'].
    split; [exact T' | lia].
Qed.

Lemma times_ok_startup : times_ok startup.
Proof.
  unfold times_ok, times_upto. simpl. repeat split; auto; try lia; discriminate.
Qed.

(** The order of the peaks in time. At the program image the sample
    counter is not negative, the buffered peaks stand in the order of
    their times, strictly increasing and all before the counter, and the
    open peak, if any, is later than every buffered peak. [scan_audio_init]
    keeps this, and so does every call of [scan_audio] that does not take
    the counter past the largest [int]: the differences of times that the
    knock search takes are those of peaks in time order, the fall of the
    counter by 24 hours never coming between two of them. *)
Theorem peak_times_ascend (xs : list Z) (out : bool) (flags : Z) (s : scanner) :
  times_ok s ->
  sample_index s + Z.of_nat (length xs) <= INT_MAX ->
  let s' := final (scan_audio xs out flags s) in
  times_ok startup
  /\ times_ok (scan_audio_init s)
  /\ times_ok s'
  /\ 0 <= sample_index s' <= sample_index s + Z.of_nat (length xs)
  /\ ascending (map time (peak_buffer s'))
  /\ Forall (fun p => time p < sample_index s') (peak_buffer s')
  /\ (peak_started s' = true ->
      time (current_peak s') < sample_index s'
      /\ Forall (fun p => time p < time (current_peak s')) (peak_buffer s')).
Proof.
  intros H Hmax. cbv zeta. unfold scan_audio.
  destruct (scan_fold_times flags out xs (mk_outcome 0 s [] []) H Hmax) as [T B].
  cbn [final] in B.
  split; [exact times_ok_startup|].
  split; [exact (times_upto_signal _ s (scan_audio_init s) eq_refl H)|].
  split; [exact T|].
  destruct T as (Hi & Hasc & Hle & Hcur). repeat split; trivial.
  - eapply Forall_impl; [exact Hle|]. simpl. intros. lia.
  - destruct (Hcur H0). lia.
  - now destruct (Hcur H0).
Qed.

Lemma times_ok_fresh : times_ok fresh.
Proof. exact (times_upto_signal _ startup fresh eq_refl times_ok_startup). Qed.

Lemma peak_times_ascend_witness :
  times_ok fresh
  /\ sample_index fresh + Z.of_nat (length (rising ++ [5000; 0])) <= INT_MAX
  /\ ascending (map time (peak_buffer sharp_peak))
  /\ Forall (fun p => time p < sample_index sharp_peak) (peak_buffer sharp_peak).
Proof.
  assert (Hmax : sample_index fresh + Z.of_nat (length (rising ++ [5000; 0]))
                 <= INT_MAX)
    by (vm_compute; discriminate).
  split; [exact times_ok_fresh|]. split; [exact Hmax|].
  destruct (peak_times_ascend (rising ++ [5000; 0]) false 0 fresh times_ok_fresh Hmax)
    as (_ & _ & _ & _ & H1 & H2 & _).
  split; [exact H1 | exact H2].
Defined.

Lemma scan_sample_idle flags out acc x :
  let s := final (scan_sample flags out acc x) in
  peak_buffer s = [] -> peak_started s = false -> sample_index s <= DAY.
Proof.
  unfold scan_sample.
  destruct (signal_path flags out x (final acc)) as [[wl s1] o].
  destruct (capture flags wl s1) as [s2 l1].
  destruct (advance_shape flags s2) as (b & t & i & Hs3 & _ & Hidx).
  cbv zeta in Hidx. set (n := wrap32 (sample_index s2 + 1)) in *.
  destruct (advance flags s2) as [[d s3] l2]. simpl in *. subst s3. simpl.
  intros Hb Hst. destruct Hidx as [[-> Hno] | (-> & Hday & _ & _)].
  - destruct (Z_le_gt_dec n DAY); trivial.
    exfalso. apply Hno; trivial. lia.
  - assert (0 < DAY) by (unfold DAY, SAMPLING_RATE; lia).
    pose proof (Z.rem_bound_pos n DAY ltac:(lia) ltac:(lia)). lia.
Qed.

(** Whatever the calls made and the samples scanned, with no peak open and
    none buffered the sample counter is at most 24 hours of samples: past
    that, an idle detector takes the counter back by 24 hours at the end
    of the sample. *)
Theorem idle_counter_within_a_day (s : scanner) :
  reachable s ->
  peak_buffer s = [] -> peak_started s = false -> sample_index s <= DAY.
Proof.
  revert s.
  apply (reachable_invariant
           (fun s => peak_buffer s = [] -> peak_started s = false -> sample_index s <= DAY)).
  - intros _ _. simpl. unfold DAY, SAMPLING_RATE. lia.
  - intros s H. exact H.
  - intros flags out acc x _. apply scan_sample_idle.
Qed.

Lemma quiet_idle : peak_buffer quiet = [] /\ peak_started quiet = false.
Proof. split; vm_compute; reflexivity. Qed.

Lemma idle_counter_within_a_day_witness :
  reachable quiet /\ sample_index quiet <= DAY.
Proof.
  split; [exact quiet_reachable|].
  exact (idle_counter_within_a_day quiet quiet_reachable
           (proj1 quiet_idle) (proj2 quiet_idle)).
Defined.

(** ** The expiry of old peaks *)

Lemma ascending_head_least a l : ascending (a :: l) -> Forall (fun b => a <= b) (a :: l).
Proof.
  simpl. intros [H _]. constructor; [lia|].
  eapply Forall_impl; [exact H|]. simpl. intros. lia.
Qed.

(** On a buffer in time order, whose times are those of an [int] and leave
    room below the largest [int] for twice the longest knock, the first
    loop of [check_peaks] removes the expired peaks, all of them and no
    other: what it leaves is the buffer less its expired front, and holds
    no peak older than twice the longest knock. *)
Theorem expiry_removes_the_expired (now : Z) (buf : list peak) :
  ascending (map time buf) ->
  Forall (fun p => INT_MIN <= time p /\ time p + KNOCK_MAX_SPAN * 2 <= INT_MAX) buf ->
  exists gone,
    buf = gone ++ expire_peaks now buf
    /\ Forall (expired now) gone
    /\ Forall (fun p => ~ expired now p) (expire_peaks now buf).
Proof.
  unfold expired. induction buf as [|p buf IH]; intros Hasc Hrange.
  - exists []. simpl. auto.
  - inversion Hrange as [|? ? [Hlo Hhi] Hrest]; subst. cbn [expire_peaks].
    rewrite wrap32_small by (unfold KNOCK_MAX_SPAN, INT_MIN in *; lia).
    destruct (Z.ltb_spec (time p + KNOCK_MAX_SPAN * 2) now) as [Hlt | Hge].
    + destruct IH as (gone & E & Hg & Hk); [now destruct Hasc | exact Hrest|].
      exists (p :: gone). simpl. repeat split; auto. now f_equal.
    + exists []. simpl. repeat split; auto.
      apply (ascending_head_least (time p) (map time buf)) in Hasc.
      change (time p :: map time buf) with (map time (p :: buf)) in Hasc.
      rewrite Forall_map in Hasc.
      eapply Forall_impl; [exact Hasc|]. simpl. intros q Hq. lia.
Qed.

Lemma expiry_removes_the_expired_witness :
  ascending (map time (peak_buffer three_knocks))
  /\ Forall (fun p => INT_MIN <= time p /\ time p + KNOCK_MAX_SPAN * 2 <= INT_MAX)
            (peak_buffer three_knocks)
  /\ exists gone,
       peak_buffer three_knocks = gone ++ expire_peaks 26000 (peak_buffer three_knocks)
       /\ Forall (expired 26000) gone
       /\ Forall (fun p => ~ expired 26000 p) (expire_peaks 26000 (peak_buffer three_knocks)).
Proof.
  assert (Hasc : ascending (map time (peak_buffer three_knocks)))
    by (simpl; repeat split; auto; repeat constructor; lia).
  assert (Hrange : Forall (fun p => INT_MIN <= time p
                                    /\ time p + KNOCK_MAX_SPAN * 2 <= INT_MAX)
                          (peak_buffer three_knocks))
    by (unfold INT_MIN, INT_MAX, KNOCK_MAX_SPAN; simpl;
        repeat (constructor; [simpl; lia|]); constructor).
  split; [exact Hasc|]. split; [exact Hrange|].
  exact (expiry_removes_the_expired 26000 (peak_buffer three_knocks) Hasc Hrange).
Defined.

(** ** One analysis *)

(** An analysis reports a knock, a bell or nothing, never both events;
    it reports no knock on fewer than three unexpired peaks; and whatever
    it reports, the peak buffer is empty afterwards. *)
Theorem analysis_reports_one_event (flags : Z) (s : scanner) :
  let d := fst (fst (check_peaks flags s)) in
  (d = 0 \/ d = SCAN_KNOCK_DETECTED \/ d = SCAN_BELL_DETECTED)
  /\ (d <> 0 -> peak_buffer (snd (fst (check_peaks flags s))) = [])
  /\ ((length (expire_peaks (sample_index s) (peak_buffer s)) < 3)%nat ->
      d <> SCAN_KNOCK_DETECTED).
Proof.
  cbv zeta. unfold check_peaks. set (s1 := set_peak_buffer _ s).
  destruct (knock_search_settled s1 flags) as [(Hf & Hd & Hs & _) | (Hn & ->)].
  - destruct (knock_search flags s1) as [[d s'] l]. simpl in *. subst d s'. simpl.
    split; [auto|]. split; [auto|].
    destruct Hf as (p1 & p2 & p3 & Hord & Hlen & _). unfold num_peaks in Hlen.
    simpl in Hlen. lia.
  - simpl. destruct (bell_loop _ _ _) as [b [p|]]; simpl.
    + split; [auto|]. split; [auto|]. discriminate.
    + split; [auto|]. split; [congruence | discriminate].
Qed.

(** ** The eviction of add_peak *)

(** When the buffer is full, the peak that [add_peak] lets go is a lowest
    one of the seventeen: the new peak if no buffered peak is lower than
    it, and otherwise the oldest of the lowest buffered peaks, the others
    keeping their order before the new peak. *)
Theorem eviction_drops_a_lowest (p : peak) (flags : Z) (s : scanner) :
  num_peaks s = MAX_NUM_PEAKS ->
  let buf := peak_buffer s in
  let buf' := peak_buffer (fst (add_peak p flags s)) in
  (buf' = buf /\ Forall (fun q => height p <= height q) buf)
  \/ exists i d,
       buf !! i = Some d
       /\ buf' = delete i buf ++ [p]
       /\ height d < height p
       /\ Forall (fun q => height d <= height q) buf
       /\ forall j q, (j < i)%nat -> buf !! j = Some q -> height d < height q.
Proof.
  intros Hfull. cbv zeta. rewrite add_peak_stored.
  replace (peak_buffer (set_peak_buffer (stored p (peak_buffer s)) s))
    with (stored p (peak_buffer s)) by now destruct s.
  exact (stored_drops_a_lowest p (peak_buffer s) Hfull).
Qed.

Lemma eviction_drops_a_lowest_witness :
  num_peaks crowded = MAX_NUM_PEAKS
  /\ ((peak_buffer (fst (add_peak (mk_peak 2000 500 5 110 0 F32.zero) 0 crowded))
       = full_buffer
       /\ Forall (fun q => 110 <= height q) full_buffer)
      \/ exists i d,
           full_buffer !! i = Some d
           /\ peak_buffer (fst (add_peak (mk_peak 2000 500 5 110 0 F32.zero) 0 crowded))
              = delete i full_buffer ++ [mk_peak 2000 500 5 110 0 F32.zero]
           /\ height d < 110
           /\ Forall (fun q => height d <= height q) full_buffer
           /\ forall j q, (j < i)%nat -> full_buffer !! j = Some q -> height d < height q).
Proof.
  split; [reflexivity|].
  exact (eviction_drops_a_lowest (mk_peak 2000 500 5 110 0 F32.zero) 0 crowded eq_refl).
Defined.

(** ** Detections and the analysis interval *)

Lemma check_peaks_event flags s :
  let d := fst (fst (check_peaks flags s)) in
  d = 0 \/ d = SCAN_KNOCK_DETECTED \/ d = SCAN_BELL_DETECTED.
Proof.
  cbv zeta. unfold check_peaks. set (s1 := set_peak_buffer _ s).
  destruct (knock_search_settled s1 flags) as [(Hf & Hd & Hs & _) | (Hn & ->)].
  - destruct (knock_search flags s1) as [[d s'] l]. simpl in *. subst d s'. simpl.
    auto.
  - simpl. destruct (bell_loop _ _ _) as [b [p|]]; simpl; auto.
Qed.

Lemma capture_index flags wl s :
  sample_index (fst (capture flags wl s)) = sample_index s.
Proof.
  unfold capture. destruct (_ || _); [|reflexivity].
  destruct (negb _); [reflexivity|].
  destruct (_ <? _); [reflexivity|].
  destruct (_ <=? _); [|reflexivity].
  apply close_peak_capture.
Qed.

(** the value that the end of the loop body gives *)
Lemma advance_event flags s :
  let d := fst (fst (advance flags s)) in
  (d = 0 \/ d = SCAN_KNOCK_DETECTED \/ d = SCAN_BELL_DETECTED)
  /\ (Z.rem (wrap32 (sample_index s + 1)) ANALYSIS_INTERVAL <> 0 -> d = 0).
Proof.
  cbv zeta. unfold advance. cbv zeta. cbn [sample_index set_sample_index].
  destruct (Z.eqb_spec (Z.rem (wrap32 (sample_index s + 1)) ANALYSIS_INTERVAL) 0)
    as [E | N].
  - pose proof (check_peaks_event flags
                  (set_sample_index (wrap32 (sample_index s + 1)) s)) as He.
    cbv zeta in He.
    destruct (check_peaks flags _) as [[d s'] l]. cbn [fst snd] in *.
    cbn [fst]; split; trivial; intros; contradiction.
  - cbn [fst]; split; auto.
Qed.

(** the counter that the end of the loop body leaves, short of the
    largest [int] *)
Lemma advance_tick flags s :
  0 <= sample_index s < INT_MAX ->
  let i := sample_index (snd (fst (advance flags s))) in
  0 <= i <= sample_index s + 1
  /\ Z.rem i ANALYSIS_INTERVAL = Z.rem (sample_index s + 1) ANALYSIS_INTERVAL.
Proof.
  intros Hidx. cbv zeta.
  destruct (advance_shape flags s) as (b & t & i & Hs & _ & Hi).
  cbv zeta in Hi. rewrite wrap32_small in Hi by (unfold INT_MIN; lia).
  rewrite Hs. cbn [sample_index set_sample_index].
  assert (Hday : DAY = ANALYSIS_INTERVAL * 864000) by reflexivity.
  change ANALYSIS_INTERVAL with 1600 in *.
  destruct Hi as [[-> _] | (-> & Hgt & _)].
  - split; [lia | reflexivity].
  - rewrite Hday in *. set (n := sample_index s + 1) in *.
    pose proof (Z.rem_bound_pos n (1600 * 864000) ltac:(lia) ltac:(lia)) as Hm.
    split; [lia|].
    rewrite (Z.rem_mod_nonneg (Z.rem n (1600 * 864000)) 1600) by lia.
    rewrite (Z.rem_mod_nonneg n (1600 * 864000)) by lia.
    rewrite (Z.rem_mod_nonneg n 1600) by lia.
    Z.div_mod_to_equations. lia.
Qed.

Lemma scan_sample_bits flags out acc x :
  0 <= detections acc <= 3 -> 0 <= detections (scan_sample flags out acc x) <= 3.
Proof.
  intros Hacc. unfold scan_sample.
  destruct (signal_path flags out x (final acc)) as [[wl s1] o].
  destruct (capture flags wl s1) as [s2 l1].
  destruct (advance_event flags s2) as [A3 _].
  destruct (advance flags s2) as [[d s3] l2]. cbn [fst snd detections] in *.
  assert (Ha : detections acc = 0 \/ detections acc = 1 \/ detections acc = 2
               \/ detections acc = 3) by lia.
  unfold SCAN_KNOCK_DETECTED, SCAN_BELL_DETECTED in A3.
  destruct Ha as [E | [E | [E | E]]], A3 as [F | [F | F]]; rewrite E, F;
    change (Z.lor _ _) with 0 || change (Z.lor _ _) with 1
    || change (Z.lor _ _) with 2 || change (Z.lor _ _) with 3; lia.
Qed.

Lemma scan_sample_tick flags out acc x :
  0 <= sample_index (final acc) < INT_MAX ->
  let r := scan_sample flags out acc x in
  0 <= sample_index (final r) <= sample_index (final acc) + 1
  /\ Z.rem (sample_index (final r)) ANALYSIS_INTERVAL
     = Z.rem (sample_index (final acc) + 1) ANALYSIS_INTERVAL
  /\ (Z.rem (sample_index (final acc) + 1) ANALYSIS_INTERVAL <> 0 ->
      detections r = detections acc).
Proof.
  intros Hidx. cbv zeta. unfold scan_sample.
  pose proof (signal_path_capture_part flags out x (final acc)) as Hsp.
  destruct (signal_path flags out x (final acc)) as [[wl s1] o]. cbn [fst snd] in Hsp.
  assert (E1 : sample_index s1 = sample_index (final acc)).
  { unfold capture_part in Hsp. now injection Hsp. }
  pose proof (capture_index flags wl s1) as E2.
  destruct (capture flags wl s1) as [s2 l1]. cbn [fst] in E2.
  assert (Hidx2 : 0 <= sample_index s2 < INT_MAX) by lia.
  destruct (advance_tick flags s2 Hidx2) as (A1 & A2).
  destruct (advance_event flags s2) as (_ & A4).
  rewrite wrap32_small in A4 by (unfold INT_MIN; lia).
  destruct (advance flags s2) as [[d s3] l2]. cbn [fst snd] in *.
  cbn [final detections]. rewrite <- E1, <- E2.
  split; [exact A1|]. split; [exact A2|].
  intros Hn. rewrite (A4 Hn). apply Z.lor_0_r.
Qed.

Lemma scan_fold_ticks flags out xs :
  forall acc,
    0 <= sample_index (final acc) ->
    sample_index (final acc) + Z.of_nat (length xs) <= INT_MAX ->
    let r := fold_left (scan_sample flags out) xs acc in
    Z.rem (sample_index (final acc)) ANALYSIS_INTERVAL + Z.of_nat (length xs)
    < ANALYSIS_INTERVAL ->
    detections r = detections acc
    /\ Z.rem (sample_index (final r)) ANALYSIS_INTERVAL
       = Z.rem (sample_index (final acc)) ANALYSIS_INTERVAL + Z.of_nat (length xs).
Proof.
  induction xs as [|x xs IH]; intros acc Hidx Hmax; cbv zeta.
  - cbn [fold_left length]. intros _; split; [reflexivity | lia].
  - cbn [fold_left length] in *.
    destruct (scan_sample_tick flags out acc x ltac:(lia)) as (S1 & S2 & S4).
    specialize (IH (scan_sample flags out acc x) ltac:(lia) ltac:(lia)).
    cbv zeta in IH.
    intros Hroom.
    assert (Hr : 0 <= Z.rem (sample_index (final acc)) ANALYSIS_INTERVAL)
      by (apply Z.rem_nonneg; [discriminate | lia]).
    assert (Hstep : Z.rem (sample_index (final acc) + 1) ANALYSIS_INTERVAL
                    = Z.rem (sample_index (final acc)) ANALYSIS_INTERVAL + 1).
    { revert Hroom Hr. change ANALYSIS_INTERVAL with 1600.
      rewrite !Z.rem_mod_nonneg by lia. Z.div_mod_to_equations. lia. }
    destruct IH as [I2 I3]; [rewrite S2, Hstep; lia|].
    split.
    + rewrite I2. apply S4. rewrite Hstep. lia.
    + rewrite I3, S2, Hstep. lia.
Qed.

Lemma scan_fold_bits flags out xs :
  forall acc, 0 <= detections acc <= 3 ->
    0 <= detections (fold_left (scan_sample flags out) xs acc) <= 3.
Proof.
  induction xs as [|x xs IH]; intros acc Hacc; [exact Hacc|].
  cbn [fold_left]. apply IH. now apply scan_sample_bits.
Qed.

(** [scan_audio] reports events at the analysis only: a call whose
    samples take the sample counter, not negative, neither to a multiple
    of the analysis interval nor past the largest [int] returns 0, however
    loud they are, and moves the phase of the counter in the interval on
    by their number. *)
Theorem no_detection_between_analyses (xs : list Z) (out : bool) (flags : Z)
    (s : scanner) :
  0 <= sample_index s ->
  sample_index s + Z.of_nat (length xs) <= INT_MAX ->
  Z.rem (sample_index s) ANALYSIS_INTERVAL + Z.of_nat (length xs) < ANALYSIS_INTERVAL ->
  let r := scan_audio xs out flags s in
  detections r = 0
  /\ Z.rem (sample_index (final r)) ANALYSIS_INTERVAL
     = Z.rem (sample_index s) ANALYSIS_INTERVAL + Z.of_nat (length xs).
Proof.
  intros Hidx Hmax Hroom. cbv zeta. unfold scan_audio.
  exact (scan_fold_ticks flags out xs (mk_outcome 0 s [] []) Hidx Hmax Hroom).
Qed.

(** The value that [scan_audio] returns holds the two event bits and
    nothing else, whatever the samples and the flags passed. *)
Theorem detections_are_the_two_events (xs : list Z) (out : bool) (flags : Z)
    (s : scanner) :
  Z.land (detections (scan_audio xs out flags s))
         (Z.lnot (Z.lor SCAN_KNOCK_DETECTED SCAN_BELL_DETECTED)) = 0.
Proof.
  unfold scan_audio.
  assert (H : 0 <= detections (fold_left (scan_sample flags out) xs
                                 (mk_outcome 0 s [] [])) <= 3)
    by (apply scan_fold_bits; cbn; lia).
  set (d := detections _) in *.
  assert (Hd : d = 0 \/ d = 1 \/ d = 2 \/ d = 3) by lia.
  destruct Hd as [-> | [-> | [-> | ->]]]; reflexivity.
Qed.

Lemma no_detection_between_analyses_witness :
  0 <= sample_index three_knocks
  /\ sample_index three_knocks + Z.of_nat (length (replicate 1599 20000)) <= INT_MAX
  /\ Z.rem (sample_index three_knocks) ANALYSIS_INTERVAL
     + Z.of_nat (length (replicate 1599 20000)) < ANALYSIS_INTERVAL
  /\ detections (scan_audio (replicate 1599 20000) false 0 three_knocks) = 0.
Proof.
  assert (H1 : 0 <= sample_index three_knocks) by (simpl; lia).
  assert (H2 : Z.rem (sample_index three_knocks) ANALYSIS_INTERVAL
               + Z.of_nat (length (replicate 1599 20000)) < ANALYSIS_INTERVAL)
    by (rewrite length_replicate; vm_compute; reflexivity).
  assert (H3 : sample_index three_knocks + Z.of_nat (length (replicate 1599 20000))
               <= INT_MAX)
    by (rewrite length_replicate; vm_compute; discriminate).
  split; [exact H1|]. split; [exact H3|]. split; [exact H2|].
  exact (proj1 (no_detection_between_analyses (replicate 1599 20000) false 0
                  three_knocks H1 H3 H2)).
Defined.

(** ** Silence *)

Lemma decorrelate_silence w : decorrelate w 0 0 = (0, w).
Proof. unfold decorrelate. rewrite Z.mul_0_r. reflexivity. Qed.

Lemma normalize_silence (level : float) :
  above_zero level ->
  clip (F32.mul (F32.div (F32.of_int 0) level) (F32.of_int NORMALIZATION_LEVEL)) = F32.zero.
Proof.
  destruct level as [[|]|[|]| |[|] m e]; simpl; try tauto; intros _; reflexivity.
Qed.

Lemma bell_filter_silence : biquad_apply bell_filter F32.zero = (F32.zero, bell_filter).
Proof. vm_compute. reflexivity. Qed.

Lemma set_peak_buffer_same s : set_peak_buffer (peak_buffer s) s = s.
Proof. now destruct s. Qed.

Lemma check_peaks_empty flags s :
  peak_buffer s = [] -> check_peaks flags s = (0, s, []).
Proof.
  intros H. unfold check_peaks, knock_search, num_peaks. rewrite H. simpl.
  destruct s. simpl in H. subst. reflexivity.
Qed.

Lemma advance_empty flags s :
  peak_buffer s = [] ->
  exists t i, fst (advance flags s) = (0, set_sample_index i (set_peak_threshold t s)).
Proof.
  intros H. unfold advance. cbv zeta.
  set (s1 := set_sample_index _ s).
  rewrite (check_peaks_empty flags s1) by exact H.
  destruct (Z.rem _ _ =? 0); cbv iota beta;
    match goal with |- context [if ?c then set_sample_index ?i ?t else _] =>
      destruct c end; simpl; eauto.
Qed.

(** a sample of zero leaves a detector at rest as it is, but for the
    counter, the threshold, the level of the decorrelated audio and the
    index into the window *)
Lemma scan_sample_silence flags out acc :
  silent (final acc) ->
  let r := scan_sample flags out acc 0 in
  silent (final r) /\ detections r = detections acc /\ weight (final r) = weight (final acc).
Proof.
  intros (Hbq & Hbuf & Hst & Hwin & Hidx & Hsum & Hfl & Hlast & Hlev).
  unfold scan_sample, signal_path. rewrite Hlast, decorrelate_silence.
  change (Z.abs 0) with 0.
  assert (Hlev' : above_zero (decay (decorrelated_level (final acc)) (F32.of_int 0)))
    by (apply decay_above; [exact Hlev | lia]).
  rewrite (normalize_silence _ Hlev'), Hbq, bell_filter_silence, Hfl, Hwin, Hsum.
  rewrite lookup_total_replicate_2 by lia. rewrite insert_replicate.
  change (to_int16 (F32.abs F32.zero)) with 0.
  change (decay F32.zero (F32.abs F32.zero)) with F32.zero.
  change (wrap16 (Z.shiftr (0 - 0 + 0 + Z.quot WINDOW_SIZE 2) WINDOW_BITS - NORMALIZATION_LEVEL))
    with (-128).
  cbv iota beta. unfold capture. cbn [peak_started]. rewrite Hst.
  change (false || (0 <? -128)) with false. cbv iota beta.
  match goal with |- context [advance flags ?t] =>
    destruct (advance_empty flags t Hbuf) as (t' & i & Ha);
    destruct (advance flags t) as [[d s3] l2] end.
  simpl in Ha. injection Ha as -> ->. simpl.
  rewrite Z.lor_0_r. split; [|auto].
  unfold silent. simpl. repeat split; auto.
  - change WINDOW_MASK with (Z.ones 8). rewrite Z.land_ones by lia.
    apply Z.mod_pos_bound. lia.
  - change WINDOW_MASK with (Z.ones 8). rewrite Z.land_ones by lia.
    apply Z.mod_pos_bound. lia.
Qed.

(** Zero samples, however many, fed to a detector at rest give no
    detection and leave it at rest: no peak opens, the buffer stays empty,
    the window and the bell level stay zero, the weight stays as it was. *)
Theorem silence_gives_no_event (n : nat) (out : bool) (flags : Z) (s : scanner) :
  silent s ->
  let r := scan_audio (replicate n 0) out flags s in
  detections r = 0 /\ silent (final r) /\ weight (final r) = weight s.
Proof.
  intros Hs. cbv zeta. unfold scan_audio.
  assert (H : forall acc, silent (final acc) ->
            let r := fold_left (scan_sample flags out) (replicate n 0) acc in
            detections r = detections acc /\ silent (final r)
            /\ weight (final r) = weight (final acc)).
  { induction n as [|n IH]; intros acc Hacc; simpl; [auto|].
    destruct (scan_sample_silence flags out acc Hacc) as (H1 & H2 & H3).
    destruct (IH _ H1) as (H4 & H5 & H6). cbv zeta in *.
    split; [congruence|]. split; [exact H5 | congruence]. }
  apply (H (mk_outcome 0 s [] [])). exact Hs.
Qed.

Lemma fresh_silent : silent fresh.
Proof.
  unfold silent. repeat split; try reflexivity; try (simpl; lia).
  vm_compute. discriminate.
Qed.

Lemma silence_gives_no_event_witness :
  silent fresh /\ detections (scan_audio (replicate 3000 0) false 0 fresh) = 0.
Proof.
  split; [exact fresh_silent|].
  exact (proj1 (silence_gives_no_event 3000 false 0 fresh fresh_silent)).
Defined.

(** * The caller: the microphone buffer and fill_buffer *)

Lemma ring_read_lookup micbuff tail n i :
  ring_read micbuff tail n !! i
  = if decide (i < n)%nat
    then Some (micbuff !!! Z.to_nat ((tail + Z.of_nat i) mod MIC_BUFFER_SAMPLES))
    else None.
Proof.
  unfold ring_read. change (map ?f ?l) with (f <$> l). rewrite list_lookup_fmap.
  destruct (decide (i < n)%nat) as [Hlt | Hge].
  - rewrite lookup_seq_lt by trivial. reflexivity.
  - rewrite lookup_seq_ge by lia. reflexivity.
Qed.

Lemma ring_read_length micbuff tail n : length (ring_read micbuff tail n) = n.
Proof. unfold ring_read. now rewrite length_map, length_seq. Qed.

(** up to the end of the buffer, the samples from [tail] on are a slice *)
Lemma ring_read_slice micbuff tail n :
  length micbuff = Z.to_nat MIC_BUFFER_SAMPLES ->
  0 <= tail -> 0 <= n -> tail + n <= MIC_BUFFER_SAMPLES ->
  take (Z.to_nat n) (drop (Z.to_nat tail) micbuff) = ring_read micbuff tail (Z.to_nat n).
Proof.
  intros Hlen Ht Hn Hend. apply list_eq. intros i.
  rewrite ring_read_lookup, lookup_take, lookup_drop.
  destruct (decide (i < Z.to_nat n)%nat) as [Hlt | Hge]; trivial.
  rewrite Z.mod_small by lia.
  replace (Z.to_nat (tail + Z.of_nat i)) with (Z.to_nat tail + i)%nat by lia.
  destruct (lookup_lt_is_Some_2 micbuff (Z.to_nat tail + i)) as [x Hx].
  { rewrite Hlen. lia. }
  rewrite Hx. now rewrite (list_lookup_total_correct _ _ _ Hx).
Qed.

Lemma ring_read_app micbuff tail a b :
  ring_read micbuff tail (a + b)
  = ring_read micbuff tail a
    ++ ring_read micbuff ((tail + Z.of_nat a) mod MIC_BUFFER_SAMPLES) b.
Proof.
  apply list_eq. intros i.
  rewrite lookup_app, !ring_read_lookup, ring_read_length.
  destruct (decide (i < a)%nat) as [Ha | Ha].
  - destruct (decide (i < a + b)%nat); [reflexivity | lia].
  - destruct (decide (i < a + b)%nat), (decide (i - a < b)%nat); try lia; trivial.
    rewrite Zplus_mod_idemp_l.
    replace (tail + Z.of_nat a + Z.of_nat (i - a)) with (tail + Z.of_nat i) by lia.
    reflexivity.
Qed.

(** the first loop of [fill_buffer], from any turn on *)
Lemma scan_microphone_ring micbuff user_mode fuel :
  length micbuff = Z.to_nat MIC_BUFFER_SAMPLES ->
  forall count tail d s l,
    0 <= count -> (Z.to_nat count <= fuel)%nat -> 0 <= tail < MIC_BUFFER_SAMPLES ->
    let r := scan_audio (ring_read micbuff tail (Z.to_nat count)) false
                        (fill_flags user_mode) s in
    scan_microphone fuel micbuff user_mode count tail d s l
    = Some (Z.lor d (detections r), (tail + count) mod MIC_BUFFER_SAMPLES,
            final r, l ++ printed r).
Proof.
  intros Hlen. change MIC_BUFFER_SAMPLES with 192 in *.
  induction fuel as [|fuel IH]; intros count tail d s l Hc Hf Ht; cbv zeta.
  - assert (count = 0) by lia. subst count. simpl.
    rewrite Z.lor_0_r, app_nil_r, Z.add_0_r, Z.mod_small by lia. reflexivity.
  - simpl scan_microphone. destruct (Z.eqb_spec count 0) as [-> | Hnz].
    + simpl. rewrite Z.lor_0_r, app_nil_r, Z.add_0_r, Z.mod_small by lia. reflexivity.
    + change MIC_BUFFER_SAMPLES with 192.
      set (n1 := if 192 <? tail + count then 192 - tail else count).
      assert (Hn1 : 1 <= n1 <= count /\ tail + n1 <= 192
                    /\ (tail + n1 < 192 -> n1 = count)).
      { unfold n1. destruct (Z.ltb_spec 192 (tail + count)); lia. }
      destruct Hn1 as (Hn1 & Hend & Hall).
      rewrite (ring_read_slice micbuff tail n1) by (trivial; lia).
      set (tail' := if 192 <=? tail + n1 then 0 else tail + n1).
      assert (Ht' : tail' = (tail + n1) mod 192 /\ 0 <= tail' < 192).
      { unfold tail'. destruct (Z.leb_spec 192 (tail + n1)).
        - replace (tail + n1) with 192 by lia. split; [reflexivity | lia].
        - rewrite Z.mod_small by lia. lia. }
      destruct Ht' as [Et' Ht'].
      rewrite IH by (trivial; lia). cbv zeta.
      replace (Z.to_nat count) with (Z.to_nat n1 + Z.to_nat (count - n1))%nat by lia.
      rewrite ring_read_app, scan_audio_app. cbn [join detections final printed].
      rewrite Z2Nat.id by lia. change MIC_BUFFER_SAMPLES with 192. rewrite <- Et'.
      replace ((tail' + (count - n1)) mod 192) with ((tail + count) mod 192)
        by (rewrite Et', Zplus_mod_idemp_l; f_equal; lia).
      rewrite Z.lor_assoc, app_assoc. reflexivity.
Qed.

(** The first loop of [fill_buffer] ends, and the scanner has then seen,
    in the order of the microphone buffer and around its end, the [count]
    samples from [mic_tail] on, as if in one call of [scan_audio] with the
    output pointer NULL; the detections of the calls are gathered and
    [mic_tail] has moved on by [count] around the buffer. *)
Theorem fill_scans_the_ring (micbuff : list Z) (user_mode count tail : Z) (s : scanner) :
  length micbuff = Z.to_nat MIC_BUFFER_SAMPLES ->
  0 <= count -> 0 <= tail < MIC_BUFFER_SAMPLES ->
  let r := scan_audio (ring_read micbuff tail (Z.to_nat count)) false
                      (fill_flags user_mode) s in
  scan_microphone (Z.to_nat count) micbuff user_mode count tail 0 s []
  = Some (detections r, (tail + count) mod MIC_BUFFER_SAMPLES, final r, printed r).
Proof.
  intros Hlen Hc Ht.
  exact (scan_microphone_ring micbuff user_mode (Z.to_nat count) Hlen
           count tail 0 s [] Hc (Nat.le_refl _) Ht).
Qed.

(** ** The microphone side *)

Lemma store_samples_length buffer :
  forall data at_, length (store_samples data at_ buffer) = length data.
Proof.
  induction buffer as [|x rest IH]; intros data at_; [reflexivity|].
  cbn [store_samples]. now rewrite IH, length_insert.
Qed.

Lemma store_samples_lookup buffer :
  forall data at_ i,
    (at_ + length buffer <= length data)%nat ->
    store_samples data at_ buffer !! i
    = if decide (at_ <= i < at_ + length buffer)%nat
      then buffer !! (i - at_)%nat else data !! i.
Proof.
  induction buffer as [|x rest IH]; intros data at_ i Hfit.
  - cbn [store_samples length]. destruct (decide _); [lia | reflexivity].
  - cbn [store_samples length] in *.
    rewrite IH by (rewrite length_insert; lia).
    destruct (decide (S at_ <= i < S at_ + length rest)%nat) as [Hin | Hout].
    + destruct (decide (at_ <= i < at_ + S (length rest))%nat); [|lia].
      replace (i - at_)%nat with (S (i - S at_)) by lia. reflexivity.
    + destruct (decide (at_ <= i < at_ + S (length rest))%nat) as [Hin' | Hout'].
      * assert (i = at_) by lia. subst i. rewrite Nat.sub_diag.
        rewrite list_lookup_insert. destruct (decide _) as [_ | Hn]; [reflexivity | lia].
      * rewrite list_lookup_insert_ne by lia. reflexivity.
Qed.

Lemma recorded_ring buffer m :
  length (mic_data m) = Z.to_nat MIC_BUFFER_SAMPLES ->
  0 <= mic_head m ->
  mic_head m + Z.of_nat (length buffer) <= MIC_BUFFER_SAMPLES ->
  ring_read (mic_data (WaveRecorderCallback buffer m)) (mic_head m) (length buffer)
  = buffer.
Proof.
  intros Hlen Hhead Hfit. change MIC_BUFFER_SAMPLES with 192 in *.
  apply list_eq. intros i. rewrite ring_read_lookup.
  destruct (decide (i < length buffer)%nat) as [Hi | Hi].
  - change MIC_BUFFER_SAMPLES with 192. rewrite Z.mod_small by lia.
    unfold WaveRecorderCallback. destruct (negb _); cbn [mic_data].
    all: destruct (lookup_lt_is_Some_2 buffer i Hi) as [x Hx]; rewrite Hx.
    all: f_equal; apply list_lookup_total_correct.
    all: rewrite store_samples_lookup by lia.
    all: destruct (decide _) as [_ | Hn]; [|lia].
    all: rewrite <- Hx; f_equal; lia.
  - symmetry. apply lookup_ge_None_2. lia.
Qed.

(** What [WaveRecorderCallback] stores is read back: a batch that fits
    before the end of the microphone buffer lies, in its order, from the
    old [mic_head] on; the rest of the buffer is as it was, and
    [mic_head] has moved on by the batch, to 0 at the end. *)
Theorem recorded_samples_read_back (buffer : list Z) (m : microphone) :
  length (mic_data m) = Z.to_nat MIC_BUFFER_SAMPLES ->
  0 <= mic_head m ->
  mic_head m + Z.of_nat (length buffer) <= MIC_BUFFER_SAMPLES ->
  let m' := WaveRecorderCallback buffer m in
  ring_read (mic_data m') (mic_head m) (length buffer) = buffer
  /\ length (mic_data m') = length (mic_data m)
  /\ mic_head m' = (mic_head m + Z.of_nat (length buffer)) mod MIC_BUFFER_SAMPLES
  /\ forall i, (i < Z.to_nat (mic_head m)
                \/ Z.to_nat (mic_head m) + length buffer <= i)%nat ->
               mic_data m' !! i = mic_data m !! i.
Proof.
  intros Hlen Hhead Hfit. cbv zeta.
  split; [exact (recorded_ring buffer m Hlen Hhead Hfit)|].
  change MIC_BUFFER_SAMPLES with 192 in *.
  unfold WaveRecorderCallback. destruct (negb _); cbn [mic_data mic_head].
  all: split; [apply store_samples_length|].
  all: split;
    [ change MIC_BUFFER_SAMPLES with 192;
      destruct (Z.leb_spec 192 (mic_head m + Z.of_nat (length buffer)));
      [ replace (mic_head m + Z.of_nat (length buffer)) with 192 by lia; reflexivity
      | rewrite Z.mod_small by lia; reflexivity ]
    | ].
  all: intros i Hi; rewrite store_samples_lookup by lia.
  all: destruct (decide _); [lia | reflexivity].
Qed.






Lemma recorded_samples_read_back_witness :
  length (mic_data late_microphone) = Z.to_nat MIC_BUFFER_SAMPLES
  /\ 0 <= mic_head late_microphone
  /\ mic_head late_microphone + Z.of_nat (length [7; 8; 9]) <= MIC_BUFFER_SAMPLES
  /\ ring_read (mic_data (WaveRecorderCallback [7; 8; 9] late_microphone)) 160 3
     = [7; 8; 9]
  /\ mic_head (WaveRecorderCallback [7; 8; 9] late_microphone) = 163.
Proof.
  assert (H1 : length (mic_data late_microphone) = Z.to_nat MIC_BUFFER_SAMPLES)
    by reflexivity.
  assert (H2 : 0 <= mic_head late_microphone) by (simpl; lia).
  assert (H3 : mic_head late_microphone + Z.of_nat (length [7; 8; 9])
               <= MIC_BUFFER_SAMPLES)
    by (change MIC_BUFFER_SAMPLES with 192; simpl; lia).
  split; [exact H1|]. split; [exact H2|]. split; [exact H3|].
  destruct (recorded_samples_read_back [7; 8; 9] late_microphone H1 H2 H3)
    as (R1 & _ & R3 & _).
  split; [exact R1 | exact R3].
Defined.



(** ** The second loop of fill_buffer, and the whole of it *)

Lemma clip_samples_S flash a n :
  clip_samples flash a (S n) = flash a :: clip_samples flash (a + 1) n.
Proof.
  unfold clip_samples. cbn [seq map]. rewrite Z.add_0_r. f_equal.
  rewrite <- seq_shift, map_map. apply map_ext. intros k. f_equal. lia.
Qed.

Lemma stereo_length l : length (stereo l) = (2 * length l)%nat.
Proof. unfold stereo. induction l as [|x l IH]; simpl; [reflexivity | rewrite IH; lia]. Qed.

Lemma stereo_zeros n : stereo (replicate n 0) = replicate (2 * n) 0.
Proof.
  induction n as [|n IH]; [reflexivity|].
  replace (2 * S n)%nat with (S (S (2 * n))) by lia. simpl replicate.
  unfold stereo in *. simpl. now rewrite IH.
Qed.

Lemma clip_samples_length flash a n : length (clip_samples flash a n) = n.
Proof. unfold clip_samples. now rewrite length_map, length_seq. Qed.

Section PlayerFacts.

Variables LED_CTRL_GREEN_TOGGLE LED_CTRL_ORANGE_TOGGLE : Z.
Variables LED_CTRL_GREEN_OFF LED_CTRL_ORANGE_OFF : Z.
Variable flash : Z -> Z.

Abbreviation play_ :=
  (play LED_CTRL_GREEN_TOGGLE LED_CTRL_ORANGE_TOGGLE LED_CTRL_ORANGE_OFF flash).
Abbreviation trigger_ :=
  (trigger LED_CTRL_GREEN_TOGGLE LED_CTRL_ORANGE_TOGGLE LED_CTRL_GREEN_OFF).
Abbreviation cued_ :=
  (cued LED_CTRL_GREEN_TOGGLE LED_CTRL_ORANGE_TOGGLE LED_CTRL_GREEN_OFF).
Abbreviation fill_buffer_ :=
  (fill_buffer LED_CTRL_GREEN_TOGGLE LED_CTRL_ORANGE_TOGGLE
               LED_CTRL_GREEN_OFF LED_CTRL_ORANGE_OFF flash).

(** the number of samples of the clip that [count] turns play *)
Abbreviation played count p := (Nat.min count (Z.to_nat (canned_samples p))).

Lemma play_shape count :
  forall p, 0 <= canned_samples p ->
    fst (play_ count p)
    = stereo (clip_samples flash (canned_audio p) (played count p)
              ++ replicate (count - played count p) 0)
    /\ canned_audio (snd (play_ count p)) = canned_audio p + Z.of_nat (played count p)
    /\ canned_samples (snd (play_ count p)) = canned_samples p - Z.of_nat (played count p)
    /\ canned_ptr (snd (play_ count p)) = canned_ptr p
    /\ mic_tail (snd (play_ count p)) = mic_tail p
    /\ samples_since_trigger (snd (play_ count p)) = samples_since_trigger p
    /\ ((canned_samples p = 0 \/ Z.of_nat count < canned_samples p) ->
        LED_Toggle (snd (play_ count p)) = LED_Toggle p).
Proof.
  induction count as [|count IH]; intros p Hcs.
  - cbn [play fst snd Nat.min Nat.sub replicate clip_samples seq map app].
    rewrite Z.add_0_r, Z.sub_0_r. repeat split; trivial.
  - cbn [play]. destruct (Z.eqb_spec (canned_samples p) 0) as [E0 | Hnz]; cbn [negb].
    + destruct (IH p Hcs) as (H1 & H2 & H3 & H4 & H5 & H6 & H7).
      destruct (play_ count p) as [out p'] eqn:E. cbn [fst snd] in *.
      rewrite E0 in *. change (Z.to_nat 0) with 0%nat in *.
      rewrite Nat.min_0_r in *. rewrite H1.
      cbn [clip_samples seq map app]. rewrite !Nat.sub_0_r.
      repeat split; trivial. intros _. apply H7. now left.
    + set (q := mk_player (mic_tail p) (canned_ptr p) (canned_audio p + 1)
                  (canned_samples p - 1) (samples_since_trigger p) _).
      assert (Hq : 0 <= canned_samples q) by (cbn; lia).
      destruct (IH q Hq) as (H1 & H2 & H3 & H4 & H5 & H6 & H7).
      destruct (play_ count q) as [out p'] eqn:E. cbn [fst snd] in *.
      cbn [canned_samples canned_audio canned_ptr mic_tail samples_since_trigger
           LED_Toggle q] in H1, H2, H3, H4, H5, H6, H7.
      replace (Z.to_nat (canned_samples p)) with (S (Z.to_nat (canned_samples p - 1)))
        by lia.
      rewrite <- Nat.succ_min_distr. cbn [Nat.sub].
      rewrite clip_samples_S, H1. repeat split; trivial; try lia.
      intros [H0 | Hlong]; [lia|].
      rewrite H7 by lia.
      destruct (Z.eqb_spec (canned_samples p - 1) 0); [lia | reflexivity].
Qed.

(** The second loop of [fill_buffer] writes [count] stereo frames: the
    next samples of the clip, each to both channels, as long as the clip
    lasts, and zeros after. It reads the canned audio only inside what is
    left of the clip, and leaves [canned_samples] at the rest. *)
Theorem play_clip_then_silence (count : nat) (p : player) :
  0 <= canned_samples p ->
  let k := Nat.min count (Z.to_nat (canned_samples p)) in
  fst (play_ count p)
  = stereo (clip_samples flash (canned_audio p) k ++ replicate (count - k) 0)
  /\ canned_audio (snd (play_ count p)) = canned_audio p + Z.of_nat k
  /\ canned_samples (snd (play_ count p)) = canned_samples p - Z.of_nat k.
Proof.
  intros Hcs. destruct (play_shape count p Hcs) as (H1 & H2 & H3 & _).
  cbv zeta. auto.
Qed.

Lemma play_length count p : length (fst (play_ count p)) = (2 * count)%nat.
Proof.
  revert p. induction count as [|count IH]; intros p; [reflexivity|].
  cbn [play]. destruct (negb _).
  - match goal with |- context [play_ count ?q] =>
      specialize (IH q); destruct (play_ count q) end.
    cbn [fst] in *. cbn [length]. lia.
  - specialize (IH p). destruct (play_ count p). cbn [fst] in *. cbn [length]. lia.
Qed.

Lemma play_mic_tail count p : mic_tail (snd (play_ count p)) = mic_tail p.
Proof.
  revert p. induction count as [|count IH]; intros p; [reflexivity|].
  cbn [play]. destruct (negb _).
  - match goal with |- context [play_ count ?q] =>
      specialize (IH q); destruct (play_ count q) end.
    exact IH.
  - specialize (IH p). destruct (play_ count p). exact IH.
Qed.

Lemma trigger_ok user_mode p :
  player_ok p ->
  player_ok (trigger_ user_mode p) /\ in_a_clip (trigger_ user_mode p)
  /\ mic_tail (trigger_ user_mode p) = mic_tail p
  /\ samples_since_trigger (trigger_ user_mode p) = 0.
Proof.
  intros [Hptr Hcs]. unfold trigger. destruct (flag user_mode 1).
  - repeat split; cbn; trivial; try lia.
    right. exists bark. cbn. split; [now left | lia].
  - assert (Hc : (canned_ptr p = 0 \/ canned_ptr p = 1 \/ canned_ptr p = 2
                  \/ canned_ptr p = 3 \/ canned_ptr p = 4 \/ canned_ptr p = 5)%nat)
      by lia.
    repeat split; cbn [canned_ptr canned_samples mic_tail samples_since_trigger];
      trivial.
    + destruct Hc as [-> | [-> | [-> | [-> | [-> | ->]]]]]; vm_compute; lia.
    + destruct Hc as [-> | [-> | [-> | [-> | [-> | ->]]]]]; vm_compute; discriminate.
    + right. exists (canned_clips !!! canned_ptr p).
      cbn [canned_audio canned_samples]. split; [|lia].
      right. destruct Hc as [-> | [-> | [-> | [-> | [-> | ->]]]]]; cbn; tauto.
Qed.

Lemma play_in_a_clip count p :
  0 <= canned_samples p -> in_a_clip p -> in_a_clip (snd (play_ count p)).
Proof.
  intros Hcs Hin. destruct (play_shape count p Hcs) as (_ & H2 & H3 & _).
  destruct Hin as [E0 | (c & Hc & Hs & He)].
  - left. rewrite H3, E0. rewrite E0 in *. change (Z.to_nat 0) with 0%nat.
    rewrite Nat.min_0_r. reflexivity.
  - right. exists c. rewrite H2, H3. split; [trivial | lia].
Qed.

Lemma fill_buffer_eq micbuff user_mode num p s :
  length micbuff = Z.to_nat MIC_BUFFER_SAMPLES ->
  0 <= num -> 0 <= mic_tail p < MIC_BUFFER_SAMPLES ->
  let count := Z.quot num 2 in
  let r := scan_audio (ring_read micbuff (mic_tail p) (Z.to_nat count)) false
                      (fill_flags user_mode) s in
  let q := cued_ user_mode (detections r)
                ((mic_tail p + count) mod MIC_BUFFER_SAMPLES) p in
  fill_buffer_ micbuff user_mode num p s
  = Some (fst (play_ (Z.to_nat count) q),
          rewound (detections r) count (snd (play_ (Z.to_nat count) q)),
          final r, printed r).
Proof.
  intros Hlen Hnum Htail. cbv zeta. unfold fill_buffer.
  assert (Hc : 0 <= Z.quot num 2) by (apply Z.quot_pos; lia).
  rewrite (scan_microphone_ring micbuff user_mode (Z.to_nat (Z.quot num 2)) Hlen
             (Z.quot num 2) (mic_tail p) 0 s [] Hc (Nat.le_refl _) Htail).
  cbv zeta. rewrite Z.lor_0_l. cbn [app].
  fold (cued_ user_mode
          (detections (scan_audio (ring_read micbuff (mic_tail p)
                                     (Z.to_nat (Z.quot num 2)))
                                  false (fill_flags user_mode) s))
          ((mic_tail p + Z.quot num 2) mod MIC_BUFFER_SAMPLES) p).
  destruct (play_ _ _) as [buffer p']. reflexivity.
Qed.

Lemma cued_ok user_mode detection tail p :
  player_ok p ->
  player_ok (cued_ user_mode detection tail p)
  /\ mic_tail (cued_ user_mode detection tail p) = tail
  /\ (in_a_clip p -> in_a_clip (cued_ user_mode detection tail p)).
Proof.
  intros Hok. unfold cued.
  set (p0 := mk_player tail _ _ _ _ _).
  assert (Hok0 : player_ok p0) by exact Hok.
  destruct (negb _ && _).
  - destruct (trigger_ok user_mode p0 Hok0) as (H1 & H2 & H3 & _).
    repeat split; trivial; apply H1.
  - repeat split; trivial; apply Hok.
Qed.

Lemma rewound_ok detection count p :
  player_ok p ->
  player_ok (rewound detection count p)
  /\ mic_tail (rewound detection count p) = mic_tail p
  /\ (in_a_clip p -> in_a_clip (rewound detection count p)).
Proof.
  intros [Hptr Hcs]. unfold rewound. destruct (_ && _); [|repeat split; trivial].
  repeat split; cbn; trivial. destruct (_ <? _); lia.
Qed.

(** Given a whole microphone buffer and a player in order, [fill_buffer]
    returns: it has written [num_samples / 2] stereo frames, moved
    [mic_tail] on by that many samples around the buffer and passed just
    these samples to the scanner; the player is in order again, and what
    it still has to play is still the rest of a clip. *)
Theorem fill_buffer_keeps_order (micbuff : list Z) (user_mode num : Z)
    (p : player) (s : scanner) :
  length micbuff = Z.to_nat MIC_BUFFER_SAMPLES ->
  0 <= num -> 0 <= mic_tail p < MIC_BUFFER_SAMPLES ->
  player_ok p ->
  let count := Z.quot num 2 in
  let r := scan_audio (ring_read micbuff (mic_tail p) (Z.to_nat count)) false
                      (fill_flags user_mode) s in
  exists buffer p',
    fill_buffer_ micbuff user_mode num p s = Some (buffer, p', final r, printed r)
    /\ length buffer = (2 * Z.to_nat count)%nat
    /\ mic_tail p' = (mic_tail p + count) mod MIC_BUFFER_SAMPLES
    /\ player_ok p'
    /\ (in_a_clip p -> in_a_clip p').
Proof.
  intros Hlen Hnum Htail Hok. cbv zeta.
  rewrite (fill_buffer_eq micbuff user_mode num p s Hlen Hnum Htail). cbv zeta.
  set (r := scan_audio _ _ _ _).
  set (q := cued_ user_mode (detections r) _ p).
  destruct (cued_ok user_mode (detections r)
              ((mic_tail p + Z.quot num 2) mod MIC_BUFFER_SAMPLES) p Hok)
    as (Hq & Hqt & Hqc). fold q in Hq, Hqt, Hqc.
  destruct (play_shape (Z.to_nat (Z.quot num 2)) q (proj2 Hq))
    as (_ & P2 & P3 & P4 & P5 & _).
  set (p1 := snd (play_ (Z.to_nat (Z.quot num 2)) q)) in *.
  assert (Hp1 : player_ok p1).
  { split; [rewrite P4; apply Hq | rewrite P3; destruct Hq; lia]. }
  destruct (rewound_ok (detections r) (Z.quot num 2) p1 Hp1) as (R1 & R2 & R3).
  eexists _, _. split; [reflexivity|]. split; [apply play_length|].
  split; [now rewrite R2, P5, Hqt|]. split; [exact R1|].
  intros Hin. apply R3. apply play_in_a_clip; [apply Hq | auto].
Qed.

(** With nothing detected and no clip playing, [fill_buffer] writes
    zeros only; the player keeps its clip position and its LEDs, counts
    the samples since the last trigger, and goes back to the first clip
    once that count has passed a minute. This is so as long as the count,
    an [int], stays below the largest [int]. *)
Theorem quiet_fill_is_silence (micbuff : list Z) (user_mode num : Z)
    (p : player) (s : scanner) :
  length micbuff = Z.to_nat MIC_BUFFER_SAMPLES ->
  0 <= num -> 0 <= mic_tail p < MIC_BUFFER_SAMPLES ->
  canned_samples p = 0 ->
  INT_MIN <= samples_since_trigger p ->
  samples_since_trigger p + Z.quot num 2 <= INT_MAX ->
  let count := Z.quot num 2 in
  let r := scan_audio (ring_read micbuff (mic_tail p) (Z.to_nat count)) false
                      (fill_flags user_mode) s in
  detections r = 0 ->
  fill_buffer_ micbuff user_mode num p s
  = Some (replicate (2 * Z.to_nat count) 0,
          mk_player ((mic_tail p + count) mod MIC_BUFFER_SAMPLES)
                    (if 16000 * 60 <? samples_since_trigger p + count
                     then 0%nat else canned_ptr p)
                    (canned_audio p) 0
                    (samples_since_trigger p + count) (LED_Toggle p),
          final r, printed r).
Proof.
  intros Hlen Hnum Htail Hidle Hlo Hhi. cbv zeta. intros Hquiet.
  assert (Hc : 0 <= Z.quot num 2) by (apply Z.quot_pos; lia).
  rewrite (fill_buffer_eq micbuff user_mode num p s Hlen Hnum Htail). cbv zeta.
  rewrite Hquiet. unfold cued. cbn [Z.eqb negb andb].
  set (q := mk_player _ _ _ _ _ _).
  assert (Hq : 0 <= canned_samples q) by (cbn; lia).
  destruct (play_shape (Z.to_nat (Z.quot num 2)) q Hq)
    as (P1 & P2 & P3 & P4 & P5 & P6 & P7).
  cbn [q canned_samples canned_audio canned_ptr mic_tail samples_since_trigger
       LED_Toggle] in P1, P2, P3, P4, P5, P6, P7.
  rewrite Hidle in P1, P2, P3, P7. change (Z.to_nat 0) with 0%nat in *.
  rewrite Nat.min_0_r in *. cbn [clip_samples seq map app] in P1.
  rewrite Nat.sub_0_r, stereo_zeros in P1. rewrite Z.add_0_r in P2.
  rewrite Z.sub_0_r in P3. specialize (P7 (or_introl eq_refl)).
  rewrite P1. unfold rewound. rewrite P3, P4, P5, P6, P7, P2.
  rewrite wrap32_small by lia. reflexivity.
Qed.

(** A detection while no clip plays, in the normal mode, starts the clip
    that [canned_ptr] stands on: its samples from the first on go to both
    channels of this very buffer, [canned_ptr] moves to the next of the
    six clips, the first after the last, and the count of samples since
    the trigger restarts. *)
Theorem detection_starts_the_next_clip (micbuff : list Z) (user_mode num : Z)
    (p : player) (s : scanner) :
  length micbuff = Z.to_nat MIC_BUFFER_SAMPLES ->
  0 <= num -> 0 <= mic_tail p < MIC_BUFFER_SAMPLES ->
  player_ok p -> canned_samples p = 0 ->
  flag user_mode 1 = false ->
  let count := Z.quot num 2 in
  let r := scan_audio (ring_read micbuff (mic_tail p) (Z.to_nat count)) false
                      (fill_flags user_mode) s in
  detections r <> 0 ->
  let c := canned_clips !!! canned_ptr p in
  let k := Nat.min (Z.to_nat count) (Z.to_nat (num_samples c)) in
  exists p',
    fill_buffer_ micbuff user_mode num p s
    = Some (stereo (clip_samples flash (start_sample c) k
                    ++ replicate (Z.to_nat count - k) 0),
            p', final r, printed r)
    /\ canned_ptr p' = (S (canned_ptr p) mod 6)%nat
    /\ canned_audio p' = start_sample c + Z.of_nat k
    /\ canned_samples p' = num_samples c - Z.of_nat k
    /\ samples_since_trigger p' = 0.
Proof.
  intros Hlen Hnum Htail Hok Hidle Hmode. cbv zeta. intros Hdet.
  rewrite (fill_buffer_eq micbuff user_mode num p s Hlen Hnum Htail). cbv zeta.
  set (r := scan_audio _ _ _ _) in *.
  unfold cued. cbn [canned_samples]. rewrite Hidle.
  destruct (Z.eqb_spec (detections r) 0) as [E | _]; [contradiction|].
  cbn [negb andb Z.eqb]. unfold trigger. rewrite Hmode.
  cbn [canned_ptr mic_tail LED_Toggle].
  set (q := mk_player _ _ _ _ _ _).
  assert (Hc : (canned_ptr p = 0 \/ canned_ptr p = 1 \/ canned_ptr p = 2
                \/ canned_ptr p = 3 \/ canned_ptr p = 4 \/ canned_ptr p = 5)%nat)
    by (destruct Hok; lia).
  assert (Hq : 0 <= canned_samples q).
  { cbn. destruct Hc as [-> | [-> | [-> | [-> | [-> | ->]]]]]; vm_compute; discriminate. }
  destruct (play_shape (Z.to_nat (Z.quot num 2)) q Hq)
    as (P1 & P2 & P3 & P4 & P5 & P6 & _).
  cbn [q canned_samples canned_audio canned_ptr mic_tail samples_since_trigger]
    in P1, P2, P3, P4, P5, P6.
  eexists. split; [rewrite P1; reflexivity|].
  unfold rewound.
  destruct (Z.eqb_spec (detections r) 0) as [E | _]; [contradiction|].
  rewrite andb_false_r. rewrite P2, P3, P4, P6.
  repeat split; trivial.
  destruct Hc as [-> | [-> | [-> | [-> | [-> | ->]]]]]; reflexivity.
Qed.

(** While a clip plays a detection starts nothing: the buffer goes on
    with the samples of the clip where the last call stopped. *)
Theorem playing_clip_goes_on (micbuff : list Z) (user_mode num : Z)
    (p : player) (s : scanner) :
  length micbuff = Z.to_nat MIC_BUFFER_SAMPLES ->
  0 <= num -> 0 <= mic_tail p < MIC_BUFFER_SAMPLES ->
  0 < canned_samples p ->
  let count := Z.quot num 2 in
  let r := scan_audio (ring_read micbuff (mic_tail p) (Z.to_nat count)) false
                      (fill_flags user_mode) s in
  let k := Nat.min (Z.to_nat count) (Z.to_nat (canned_samples p)) in
  exists p',
    fill_buffer_ micbuff user_mode num p s
    = Some (stereo (clip_samples flash (canned_audio p) k
                    ++ replicate (Z.to_nat count - k) 0),
            p', final r, printed r)
    /\ canned_audio p' = canned_audio p + Z.of_nat k
    /\ canned_samples p' = canned_samples p - Z.of_nat k.
Proof.
  intros Hlen Hnum Htail Hplaying. cbv zeta.
  rewrite (fill_buffer_eq micbuff user_mode num p s Hlen Hnum Htail). cbv zeta.
  set (r := scan_audio _ _ _ _) in *.
  unfold cued. cbn [canned_samples].
  destruct (Z.eqb_spec (canned_samples p) 0) as [E | _]; [lia|].
  rewrite andb_false_r.
  set (q := mk_player _ _ _ _ _ _).
  assert (Hq : 0 <= canned_samples q) by (cbn; lia).
  destruct (play_shape (Z.to_nat (Z.quot num 2)) q Hq) as (P1 & P2 & P3 & _).
  cbn [q canned_samples canned_audio] in P1, P2, P3.
  eexists. split; [rewrite P1; reflexivity|].
  unfold rewound. destruct (_ && _); cbn [canned_audio canned_samples]; auto.
Qed.

(** The scanner hears what the microphone delivered: when [mic_tail]
    has caught up with [mic_head] and [WaveRecorderCallback] then stores
    a batch that fits before the end of the buffer, [fill_buffer], asked
    for as many stereo frames, passes exactly this batch to [scan_audio],
    in its order. *)
Theorem scanner_hears_the_microphone (buffer : list Z) (m : microphone)
    (user_mode : Z) (p : player) (s : scanner) :
  length (mic_data m) = Z.to_nat MIC_BUFFER_SAMPLES ->
  0 <= mic_head m < MIC_BUFFER_SAMPLES ->
  mic_head m + Z.of_nat (length buffer) <= MIC_BUFFER_SAMPLES ->
  mic_tail p = mic_head m ->
  let m' := WaveRecorderCallback buffer m in
  let r := scan_audio buffer false (fill_flags user_mode) s in
  exists out p',
    fill_buffer_ (mic_data m') user_mode (2 * Z.of_nat (length buffer)) p s
    = Some (out, p', final r, printed r)
    /\ mic_tail p' = mic_head m'.
Proof.
  intros Hlen Hhead Hfit Htail. cbv zeta.
  assert (Hlen' : length (mic_data (WaveRecorderCallback buffer m))
                  = Z.to_nat MIC_BUFFER_SAMPLES).
  { unfold WaveRecorderCallback. destruct (negb _); cbn [mic_data];
      now rewrite store_samples_length. }
  assert (Hq : Z.quot (2 * Z.of_nat (length buffer)) 2 = Z.of_nat (length buffer)).
  { rewrite Z.mul_comm. apply Z.quot_mul. lia. }
  rewrite (fill_buffer_eq (mic_data (WaveRecorderCallback buffer m)) user_mode
             (2 * Z.of_nat (length buffer)) p s Hlen' ltac:(lia)
             ltac:(rewrite Htail; exact Hhead)).
  cbv zeta. rewrite Hq, Nat2Z.id, Htail.
  rewrite (recorded_ring buffer m Hlen (proj1 Hhead) Hfit).
  eexists _, _. split; [reflexivity|].
  set (r := scan_audio buffer false (fill_flags user_mode) s).
  set (q := cued_ user_mode (detections r) _ p).
  assert (Eq : mic_tail q = (mic_head m + Z.of_nat (length buffer))
                            mod MIC_BUFFER_SAMPLES).
  { unfold q, cued. destruct (_ && _); [|reflexivity].
    unfold trigger. destruct (flag user_mode 1); reflexivity. }
  assert (Er : forall d c x, mic_tail (rewound d c x) = mic_tail x).
  { intros d c x. unfold rewound. destruct (_ && _); reflexivity. }
  rewrite Er, play_mic_tail, Eq.
  change MIC_BUFFER_SAMPLES with 192 in *.
  unfold WaveRecorderCallback. destruct (negb _); cbn [mic_head].
  all: change MIC_BUFFER_SAMPLES with 192.
  all: destruct (Z.leb_spec 192 (mic_head m + Z.of_nat (length buffer)));
    [ replace (mic_head m + Z.of_nat (length buffer)) with 192 by lia; reflexivity
    | rewrite Z.mod_small by lia; reflexivity ].
Qed.

End PlayerFacts.

Lemma mic_tail_in_range : 0 <= 160 < MIC_BUFFER_SAMPLES.
Proof. change MIC_BUFFER_SAMPLES with 192. lia. Qed.

Lemma fill_scans_the_ring_witness :
  length ramp = Z.to_nat MIC_BUFFER_SAMPLES /\ 0 <= 64
  /\ 0 <= 160 < MIC_BUFFER_SAMPLES
  /\ scan_microphone 64 ramp 0 64 160 0 startup []
     = Some (detections (scan_audio (ring_read ramp 160 64) false (fill_flags 0) startup),
             32,
             final (scan_audio (ring_read ramp 160 64) false (fill_flags 0) startup),
             printed (scan_audio (ring_read ramp 160 64) false (fill_flags 0) startup)).
Proof.
  split; [reflexivity|]. split; [lia|]. split; [exact mic_tail_in_range|].
  apply (fill_scans_the_ring ramp 0 64 160 startup);
    [reflexivity | lia | exact mic_tail_in_range].
Defined.

Lemma play_clip_then_silence_witness :
  0 <= canned_samples busy_player
  /\ fst (play 1 2 8 (fun a => a mod 100) 64 busy_player)
     = stereo (clip_samples (fun a => a mod 100) 81900 20 ++ replicate 44 0)
  /\ canned_audio (snd (play 1 2 8 (fun a => a mod 100) 64 busy_player)) = 81920
  /\ canned_samples (snd (play 1 2 8 (fun a => a mod 100) 64 busy_player)) = 0.
Proof.
  assert (H : 0 <= canned_samples busy_player) by (simpl; lia).
  split; [exact H|].
  exact (play_clip_then_silence 1 2 8 (fun a => a mod 100) 64 busy_player H).
Defined.

Lemma fill_buffer_keeps_order_witness :
  length ramp = Z.to_nat MIC_BUFFER_SAMPLES /\ 0 <= 128
  /\ 0 <= mic_tail idle_player < MIC_BUFFER_SAMPLES
  /\ player_ok idle_player
  /\ exists buffer p' s' log,
       fill_buffer 1 2 4 8 (fun a => a mod 100) ramp 0 128 idle_player startup
       = Some (buffer, p', s', log)
       /\ length buffer = 128%nat /\ mic_tail p' = 32 /\ player_ok p'.
Proof.
  assert (Hok : player_ok idle_player) by (split; simpl; lia).
  split; [reflexivity|]. split; [lia|]. split; [exact mic_tail_in_range|].
  split; [exact Hok|].
  destruct (fill_buffer_keeps_order 1 2 4 8 (fun a => a mod 100) ramp 0 128
              idle_player startup eq_refl ltac:(lia) mic_tail_in_range Hok)
    as (buffer & p' & H1 & H2 & H3 & H4 & _).
  exists buffer, p'. eexists _, _. split; [exact H1|].
  split; [exact H2|]. split; [exact H3 | exact H4].
Defined.

Lemma ramp_is_quiet :
  detections (scan_audio (ring_read ramp 160 64) false (fill_flags 0) startup) = 0.
Proof. vm_compute. reflexivity. Qed.

Lemma quiet_fill_is_silence_witness :
  length ramp = Z.to_nat MIC_BUFFER_SAMPLES /\ 0 <= 128
  /\ 0 <= mic_tail idle_player < MIC_BUFFER_SAMPLES
  /\ canned_samples idle_player = 0
  /\ INT_MIN <= samples_since_trigger idle_player
  /\ samples_since_trigger idle_player + Z.quot 128 2 <= INT_MAX
  /\ detections (scan_audio (ring_read ramp 160 64) false (fill_flags 0) startup) = 0
  /\ fill_buffer 1 2 4 8 (fun a => a mod 100) ramp 0 128 idle_player startup
     = Some (replicate 128 0, mk_player 32 1 0 0 564 0,
             final (scan_audio (ring_read ramp 160 64) false (fill_flags 0) startup),
             printed (scan_audio (ring_read ramp 160 64) false (fill_flags 0) startup)).
Proof.
  assert (Hlo : INT_MIN <= samples_since_trigger idle_player)
    by (vm_compute; discriminate).
  assert (Hhi : samples_since_trigger idle_player + Z.quot 128 2 <= INT_MAX)
    by (vm_compute; discriminate).
  split; [reflexivity|]. split; [lia|]. split; [exact mic_tail_in_range|].
  split; [reflexivity|]. split; [exact Hlo|]. split; [exact Hhi|].
  split; [exact ramp_is_quiet|].
  exact (quiet_fill_is_silence 1 2 4 8 (fun a => a mod 100) ramp 0 128
           idle_player startup eq_refl ltac:(lia) mic_tail_in_range eq_refl
           Hlo Hhi ramp_is_quiet).
Defined.

Lemma knocks_are_heard :
  detections (scan_audio (ring_read (replicate 192 0) 160 64) false (fill_flags 0)
                         knocks_due) <> 0.
Proof.
  assert (E : detections (scan_audio (ring_read (replicate 192 0) 160 64) false
                            (fill_flags 0) knocks_due) = 1)
    by (vm_compute; reflexivity).
  rewrite E. discriminate.
Qed.

Lemma detection_starts_the_next_clip_witness :
  length (replicate 192 0) = Z.to_nat MIC_BUFFER_SAMPLES /\ 0 <= 128
  /\ 0 <= mic_tail idle_player < MIC_BUFFER_SAMPLES
  /\ player_ok idle_player /\ canned_samples idle_player = 0
  /\ flag 0 1 = false
  /\ detections (scan_audio (ring_read (replicate 192 0) 160 64) false (fill_flags 0)
                            knocks_due) <> 0
  /\ exists p' s' log,
       fill_buffer 1 2 4 8 (fun a => a mod 100) (replicate 192 0) 0 128
                   idle_player knocks_due
       = Some (stereo (clip_samples (fun a => a mod 100) 81920 64), p', s', log)
       /\ canned_ptr p' = 2%nat /\ canned_audio p' = 81984
       /\ canned_samples p' = 94016.
Proof.
  assert (Hok : player_ok idle_player) by (split; simpl; lia).
  split; [reflexivity|]. split; [lia|]. split; [exact mic_tail_in_range|].
  split; [exact Hok|]. split; [reflexivity|]. split; [reflexivity|].
  split; [exact knocks_are_heard|].
  destruct (detection_starts_the_next_clip 1 2 4 8 (fun a => a mod 100)
              (replicate 192 0) 0 128 idle_player knocks_due eq_refl ltac:(lia)
              mic_tail_in_range Hok eq_refl eq_refl knocks_are_heard)
    as (p' & H1 & H2 & H3 & H4 & _).
  exists p'. eexists _, _.
  split; [exact H1 | split; [exact H2 | split; [exact H3 | exact H4]]].
Defined.

Lemma playing_clip_goes_on_witness :
  length ramp = Z.to_nat MIC_BUFFER_SAMPLES /\ 0 <= 128
  /\ 0 <= mic_tail busy_player < MIC_BUFFER_SAMPLES
  /\ 0 < canned_samples busy_player
  /\ exists p' s' log,
       fill_buffer 1 2 4 8 (fun a => a mod 100) ramp 0 128 busy_player knocks_due
       = Some (stereo (clip_samples (fun a => a mod 100) 81900 20 ++ replicate 44 0),
               p', s', log)
       /\ canned_audio p' = 81920 /\ canned_samples p' = 0.
Proof.
  split; [reflexivity|]. split; [lia|]. split; [exact mic_tail_in_range|].
  split; [simpl; lia|].
  destruct (playing_clip_goes_on 1 2 4 8 (fun a => a mod 100) ramp 0 128
              busy_player knocks_due eq_refl ltac:(lia) mic_tail_in_range
              ltac:(simpl; lia))
    as (p' & H1 & H2 & H3).
  exists p'. eexists _, _. split; [exact H1|]. split; [exact H2 | exact H3].
Defined.

Lemma scanner_hears_the_microphone_witness :
  length (mic_data late_microphone) = Z.to_nat MIC_BUFFER_SAMPLES
  /\ 0 <= mic_head late_microphone < MIC_BUFFER_SAMPLES
  /\ mic_head late_microphone + Z.of_nat (length [7; 8; 9]) <= MIC_BUFFER_SAMPLES
  /\ mic_tail idle_player = mic_head late_microphone
  /\ exists out p',
       fill_buffer 1 2 4 8 (fun a => a mod 100)
                   (mic_data (WaveRecorderCallback [7; 8; 9] late_microphone))
                   0 6 idle_player startup
       = Some (out, p', final (scan_audio [7; 8; 9] false (fill_flags 0) startup),
               printed (scan_audio [7; 8; 9] false (fill_flags 0) startup))
       /\ mic_tail p' = 163.
Proof.
  assert (H3 : mic_head late_microphone + Z.of_nat (length [7; 8; 9])
               <= MIC_BUFFER_SAMPLES)
    by (change MIC_BUFFER_SAMPLES with 192; simpl; lia).
  split; [reflexivity|]. split; [exact mic_tail_in_range|]. split; [exact H3|].
  split; [reflexivity|].
  exact (scanner_hears_the_microphone 1 2 4 8 (fun a => a mod 100) [7; 8; 9]
           late_microphone 0 idle_player startup eq_refl mic_tail_in_range H3
           eq_refl).
Defined.

(** ** The transmit buffer of the debug output *)

Lemma land_mask x : Z.land x TX_BUFMASK = x mod TX_BUFLEN.
Proof. change TX_BUFMASK with (Z.ones 13). now rewrite Z.land_ones by lia. Qed.

Lemma pending_length u :
  length (pending u) = Z.to_nat ((tx_head u - tx_tail u) mod TX_BUFLEN).
Proof. unfold pending. now rewrite length_map, length_seq. Qed.

Lemma pending_lookup u i :
  pending u !! i
  = if decide (i < Z.to_nat ((tx_head u - tx_tail u) mod TX_BUFLEN))%nat
    then Some (tx_buffer u !!! Z.to_nat ((tx_tail u + Z.of_nat i) mod TX_BUFLEN))
    else None.
Proof.
  unfold pending. change (map ?f ?l) with (f <$> l). rewrite list_lookup_fmap.
  destruct (decide _) as [Hlt | Hge].
  - rewrite lookup_seq_lt by trivial. reflexivity.
  - rewrite lookup_seq_ge by lia. reflexivity.
Qed.

Lemma pending_nil_iff u :
  usart_ok u -> (pending u = [] <-> tx_head u = tx_tail u).
Proof.
  intros (_ & Hh & Ht & _). rewrite <- length_zero_iff_nil, pending_length.
  change TX_BUFLEN with 8192 in *. split.
  - intros E. revert E. Z.div_mod_to_equations. lia.
  - intros ->. now rewrite Z.sub_diag.
Qed.

Lemma txe_iff_pending u :
  usart_ok u -> (TXE_enabled u = true <-> pending u <> []).
Proof.
  intros Hok. rewrite (pending_nil_iff u Hok). apply Hok.
Qed.

Lemma putchar_some c u :
  usart_ok u -> Z.of_nat (length (pending u)) < TX_BUFMASK ->
  exists u',
    USART2_putchar c u = Some u'
    /\ pending u' = pending u ++ [wrap8 c]
    /\ usart_ok u'
    /\ DR u' = DR u.
Proof.
  intros (Hlen & Hh & Ht & Htxe) Hroom. rewrite pending_length in Hroom.
  unfold USART2_putchar. rewrite land_mask.
  change TX_BUFMASK with 8191 in *. change TX_BUFLEN with 8192 in *.
  rewrite Z2Nat.id in Hroom by (apply Z.mod_pos_bound; lia).
  destruct (Z.eqb_spec ((tx_head u + 1) mod 8192) (tx_tail u)) as [Efull | Hfree].
  { exfalso. revert Hroom Efull. Z.div_mod_to_equations. lia. }
  eexists. split; [reflexivity|].
  assert (Hd : (((tx_head u + 1) mod 8192 - tx_tail u) mod 8192
               = (tx_head u - tx_tail u) mod 8192 + 1)).
  { revert Hroom Hfree. Z.div_mod_to_equations. lia. }
  split; [|split; [|reflexivity]].
  - apply list_eq. intros i.
    rewrite lookup_app, !pending_lookup, pending_length.
    cbn [tx_head tx_tail tx_buffer]. change TX_BUFLEN with 8192. rewrite Hd.
    set (d := (tx_head u - tx_tail u) mod 8192) in *.
    assert (Hdr : 0 <= d < 8191) by (unfold d; revert Hroom; Z.div_mod_to_equations; lia).
    destruct (decide (i < Z.to_nat d)%nat) as [Hi | Hi].
    + destruct (decide (i < Z.to_nat (d + 1))%nat); [|lia].
      f_equal. apply list_lookup_total_insert_ne.
      intros E. apply (f_equal Z.of_nat) in E.
      rewrite !Z2Nat.id in E by (try lia; apply Z.mod_pos_bound; lia).
      unfold d in Hi. revert Hi E. Z.div_mod_to_equations. lia.
    + destruct (decide (i < Z.to_nat (d + 1))%nat) as [Hi' | Hi'].
      * assert (Ei : i = Z.to_nat d) by lia.
        replace (i - Z.to_nat d)%nat with 0%nat by lia. cbn [lookup list_lookup].
        f_equal. rewrite list_lookup_total_insert.
        destruct (decide _) as [_ | Hn]; [reflexivity|].
        exfalso. apply Hn. split; [|rewrite Hlen; lia].
        f_equal. subst i. rewrite Z2Nat.id by lia.
        unfold d. Z.div_mod_to_equations. lia.
      * rewrite lookup_ge_None_2; [reflexivity | cbn [length]; lia].
  - unfold usart_ok. cbn [tx_buffer tx_head tx_tail TXE_enabled].
    rewrite length_insert. change TX_BUFLEN with 8192.
    split; [exact Hlen|]. split; [apply Z.mod_pos_bound; lia|]. split; [exact Ht|].
    split; [intros _; exact Hfree | intros _].
    destruct (Z.eqb_spec (tx_head u) (tx_tail u)); [reflexivity | now apply Htxe].
Qed.

Lemma putchar_none c u :
  usart_ok u -> (USART2_putchar c u = None <-> Z.of_nat (length (pending u)) = TX_BUFMASK).
Proof.
  intros (Hlen & Hh & Ht & Htxe). rewrite pending_length.
  unfold USART2_putchar. rewrite land_mask.
  change TX_BUFMASK with 8191 in *. change TX_BUFLEN with 8192 in *.
  rewrite Z2Nat.id by (apply Z.mod_pos_bound; lia).
  destruct (Z.eqb_spec ((tx_head u + 1) mod 8192) (tx_tail u)) as [Efull | Hfree].
  - split; [intros _ | reflexivity]. revert Efull. Z.div_mod_to_equations. lia.
  - split; [discriminate | intros E; exfalso]. revert Hfree E.
    Z.div_mod_to_equations. lia.
Qed.

(** [USART2_putchar] has to wait exactly when 8191 characters are queued;
    otherwise it puts its character, as a byte, behind the ones queued
    and leaves the transmit interrupt enabled. *)
Theorem putchar_queues_or_waits (c : Z) (u : usart) :
  usart_ok u ->
  (USART2_putchar c u = None <-> Z.of_nat (length (pending u)) = TX_BUFMASK)
  /\ (Z.of_nat (length (pending u)) < TX_BUFMASK ->
      exists u',
        USART2_putchar c u = Some u'
        /\ pending u' = pending u ++ [wrap8 c]
        /\ TXE_enabled u' = true
        /\ usart_ok u').
Proof.
  intros Hok. split; [exact (putchar_none c u Hok)|].
  intros Hroom. destruct (putchar_some c u Hok Hroom) as (u' & E & Hp & Hok' & _).
  exists u'. split; [exact E|]. split; [exact Hp|]. split; [|exact Hok'].
  apply (txe_iff_pending u' Hok'). rewrite Hp.
  destruct (pending u); discriminate.
Qed.

Lemma interrupt_step u :
  usart_ok u -> pending u <> [] ->
  exists c rest u',
    pending u = c :: rest
    /\ USART2_IRQHandler true None u = Some u'
    /\ DR u' = DR u ++ [c]
    /\ pending u' = rest
    /\ usart_ok u'.
Proof.
  intros (Hlen & Hh & Ht & Htxe) Hne.
  assert (Hd : 0 < (tx_head u - tx_tail u) mod TX_BUFLEN).
  { destruct (Z.eq_dec ((tx_head u - tx_tail u) mod TX_BUFLEN) 0) as [E | Nz].
    - exfalso. apply Hne. apply length_zero_iff_nil. rewrite pending_length, E.
      reflexivity.
    - assert (0 <= (tx_head u - tx_tail u) mod TX_BUFLEN)
        by (apply Z.mod_pos_bound; reflexivity).
      lia. }
  change TX_BUFLEN with 8192 in *.
  assert (Hneq : tx_head u <> tx_tail u).
  { intros E. rewrite E, Z.sub_diag in Hd. change (0 mod 8192) with 0 in Hd. lia. }
  assert (Eon : TXE_enabled u = true) by now apply Htxe.
  exists (tx_buffer u !!! Z.to_nat (tx_tail u)).
  eexists. eexists.
  unfold USART2_IRQHandler. rewrite Eon. cbn [andb]. rewrite land_mask.
  change TX_BUFLEN with 8192.
  assert (Hd' : (tx_head u - (tx_tail u + 1) mod 8192) mod 8192
                = (tx_head u - tx_tail u) mod 8192 - 1).
  { revert Hd. Z.div_mod_to_equations. lia. }
  split; [|split; [reflexivity|split; [reflexivity|split; [reflexivity|]]]].
  - apply list_eq. intros i. rewrite pending_lookup. change TX_BUFLEN with 8192.
    destruct i as [|i].
    + destruct (decide _) as [_ | Hn]; [|lia].
      cbn [lookup list_lookup]. rewrite Z.add_0_r, Z.mod_small by lia. reflexivity.
    + cbn [lookup list_lookup]. rewrite pending_lookup.
      cbn [tx_head tx_tail tx_buffer]. change TX_BUFLEN with 8192. rewrite Hd'.
      destruct (decide (S i < _)%nat), (decide (i < _)%nat); try lia; trivial.
      do 3 f_equal. Z.div_mod_to_equations. lia.
  - unfold usart_ok. cbn [tx_buffer tx_head tx_tail TXE_enabled].
    change TX_BUFLEN with 8192.
    split; [exact Hlen|]. split; [exact Hh|].
    split; [apply Z.mod_pos_bound; lia|].
    destruct (Z.eqb_spec ((tx_tail u + 1) mod 8192) (tx_head u)) as [E | N].
    + split; [discriminate | intros N; exfalso; apply N; now symmetry].
    + split; [intros _ E; apply N; now symmetry | intros _; reflexivity].
Qed.

(** Served while characters are queued, the transmit interrupt of
    [USART2_IRQHandler] writes the oldest of them to the data register and
    takes it from the queue, and it stays enabled exactly if more are
    queued; with nothing queued it is disabled and the handler changes
    nothing. *)
Theorem interrupt_sends_the_oldest (u : usart) :
  usart_ok u ->
  (pending u = [] -> USART2_IRQHandler true None u = Some u)
  /\ (forall c rest, pending u = c :: rest ->
        exists u',
          USART2_IRQHandler true None u = Some u'
          /\ DR u' = DR u ++ [c]
          /\ pending u' = rest
          /\ (TXE_enabled u' = true <-> rest <> [])
          /\ usart_ok u').
Proof.
  intros Hok. split.
  - intros Hempty. unfold USART2_IRQHandler.
    destruct (TXE_enabled u) eqn:Eon; [|reflexivity].
    exfalso. now apply (proj1 (txe_iff_pending u Hok) Eon).
  - intros c rest Hp.
    destruct (interrupt_step u Hok) as (c' & rest' & u' & E & H1 & H2 & H3 & H4).
    { rewrite Hp. discriminate. }
    rewrite Hp in E. injection E as <- <-.
    exists u'. split; [exact H1|]. split; [exact H2|]. split; [exact H3|].
    split; [|exact H4]. rewrite <- H3. now apply txe_iff_pending.
Qed.

Lemma Dbg_puts_queue s :
  forall u, usart_ok u ->
    Z.of_nat (length (pending u) + length (crlf (text s))) <= TX_BUFMASK ->
    exists u',
      Dbg_puts s u = Some u'
      /\ pending u' = pending u ++ crlf (text s)
      /\ usart_ok u'
      /\ DR u' = DR u.
Proof.
  induction s as [|c s IH]; intros u Hok Hroom.
  - exists u. cbn. rewrite app_nil_r. auto.
  - cbn [Dbg_puts text] in *. destruct (Z.eqb_spec c 0) as [E0 | Hnz].
    { exists u. cbn. rewrite app_nil_r. auto. }
    unfold crlf in Hroom. cbn [flat_map] in Hroom. fold (crlf (text s)) in Hroom.
    unfold crlf. cbn [flat_map]. fold (crlf (text s)).
    destruct (Z.eqb_spec c 10) as [E10 | Hn10].
    + rewrite length_app in Hroom. cbn [length] in Hroom.
      destruct (putchar_some 13 u Hok) as (u1 & E1 & P1 & Hok1 & D1); [lia|].
      rewrite E1.
      destruct (putchar_some c u1 Hok1) as (u2 & E2 & P2 & Hok2 & D2).
      { rewrite P1, length_app. cbn [length]. lia. }
      rewrite E2.
      destruct (IH u2 Hok2) as (u' & E & P & Hok' & D).
      { rewrite P2, P1, !length_app. cbn [length]. lia. }
      exists u'. split; [exact E|]. split; [|split; [exact Hok' | congruence]].
      rewrite P, P2, P1. change (wrap8 13) with 13.
      rewrite <- !app_assoc. reflexivity.
    + rewrite length_app in Hroom. cbn [length] in Hroom.
      destruct (putchar_some c u Hok) as (u1 & E1 & P1 & Hok1 & D1); [lia|].
      rewrite E1.
      destruct (IH u1 Hok1) as (u' & E & P & Hok' & D).
      { rewrite P1, length_app. cbn [length]. lia. }
      exists u'. split; [exact E|]. split; [|split; [exact Hok' | congruence]].
      rewrite P, P1. rewrite <- !app_assoc. reflexivity.
Qed.

Lemma transmit_all n :
  forall u, usart_ok u -> length (pending u) = n ->
    exists u',
      transmit n u = Some u'
      /\ DR u' = DR u ++ pending u
      /\ pending u' = []
      /\ usart_ok u'.
Proof.
  induction n as [|n IH]; intros u Hok Hlen.
  - exists u. apply length_zero_iff_nil in Hlen. rewrite Hlen, app_nil_r.
    cbn. auto.
  - destruct (interrupt_step u Hok) as (c & rest & u1 & E & H1 & H2 & H3 & H4).
    { intros Hnil. rewrite Hnil in Hlen. discriminate. }
    cbn [transmit]. rewrite H1.
    destruct (IH u1 H4) as (u' & T & D & P & Hok').
    { rewrite H3. rewrite E in Hlen. cbn [length] in Hlen. lia. }
    exists u'. split; [exact T|]. split; [|split; [exact P | exact Hok']].
    rewrite D, H2, H3, E, <- app_assoc. reflexivity.
Qed.

(** What [Dbg_puts] is given reaches the data register: if the transmit
    buffer has room for it, the call returns without waiting, and the
    transmit interrupts that follow send what was queued before and then
    the string up to its closing zero, byte by byte in its order, with a
    carriage return before every newline; the interrupt is disabled after
    the last byte. *)
Theorem Dbg_puts_reaches_the_wire (s : list Z) (u : usart) :
  usart_ok u ->
  Z.of_nat (length (pending u) + length (crlf (text s))) <= TX_BUFMASK ->
  exists u1 u2,
    Dbg_puts s u = Some u1
    /\ transmit (length (pending u1)) u1 = Some u2
    /\ DR u2 = DR u ++ pending u ++ crlf (text s)
    /\ pending u2 = []
    /\ TXE_enabled u2 = false.
Proof.
  intros Hok Hroom.
  destruct (Dbg_puts_queue s u Hok Hroom) as (u1 & E1 & P1 & Hok1 & D1).
  destruct (transmit_all (length (pending u1)) u1 Hok1 eq_refl)
    as (u2 & E2 & D2 & P2 & Hok2).
  exists u1, u2. split; [exact E1|]. split; [exact E2|].
  split; [now rewrite D2, D1, P1|]. split; [exact P2|].
  destruct (TXE_enabled u2) eqn:Eon; [|reflexivity].
  exfalso. now apply (proj1 (txe_iff_pending u2 Hok2) Eon).
Qed.

Lemma usart_startup_ok : usart_ok usart_startup.
Proof.
  unfold usart_ok, usart_startup. cbn [tx_buffer tx_head tx_tail TXE_enabled].
  rewrite length_replicate. change TX_BUFLEN with 8192.
  split; [reflexivity|]. split; [lia|]. split; [lia|].
  split; [discriminate | intros H; now contradiction H].
Qed.

Lemma usart_startup_empty : pending usart_startup = [].
Proof. apply (pending_nil_iff _ usart_startup_ok). reflexivity. Qed.

Lemma putchar_queues_or_waits_witness :
  usart_ok usart_startup
  /\ Z.of_nat (length (pending usart_startup)) < TX_BUFMASK
  /\ exists u', USART2_putchar 65 usart_startup = Some u' /\ pending u' = [65].
Proof.
  assert (Hroom : Z.of_nat (length (pending usart_startup)) < TX_BUFMASK)
    by (rewrite usart_startup_empty; change TX_BUFMASK with 8191; cbn [length]; lia).
  split; [exact usart_startup_ok|]. split; [exact Hroom|].
  destruct (proj2 (putchar_queues_or_waits 65 usart_startup usart_startup_ok) Hroom)
    as (u' & E & P & _).
  exists u'. split; [exact E|]. rewrite P, usart_startup_empty. reflexivity.
Defined.

Lemma one_queued_ok : usart_ok one_queued.
Proof.
  unfold usart_ok, one_queued. cbn [tx_buffer tx_head tx_tail TXE_enabled].
  rewrite length_insert, length_replicate. change TX_BUFLEN with 8192.
  split; [reflexivity|]. split; [lia|]. split; [lia|].
  split; [intros _; discriminate | reflexivity].
Qed.

Lemma one_queued_pending : pending one_queued = [65].
Proof. vm_compute. reflexivity. Qed.

Lemma interrupt_sends_the_oldest_witness :
  usart_ok one_queued
  /\ pending one_queued = [65]
  /\ exists u',
       USART2_IRQHandler true None one_queued = Some u'
       /\ DR u' = [65] /\ pending u' = [] /\ usart_ok u'.
Proof.
  split; [exact one_queued_ok|]. split; [exact one_queued_pending|].
  destruct (proj2 (interrupt_sends_the_oldest one_queued one_queued_ok)
              65 [] one_queued_pending)
    as (u' & E & D & P & _ & Hok).
  exists u'. split; [exact E|]. split; [exact D|]. split; [exact P | exact Hok].
Defined.

Lemma Dbg_puts_reaches_the_wire_witness :
  usart_ok usart_startup
  /\ Z.of_nat (length (pending usart_startup) + length (crlf (text ok_line)))
      <= TX_BUFMASK
  /\ exists u1 u2,
       Dbg_puts ok_line usart_startup = Some u1
       /\ transmit (length (pending u1)) u1 = Some u2
       /\ DR u2 = [111; 107; 13; 10]
       /\ TXE_enabled u2 = false.
Proof.
  assert (Hroom : Z.of_nat (length (pending usart_startup)
                             + length (crlf (text ok_line))) <= TX_BUFMASK)
    by (rewrite usart_startup_empty; change TX_BUFMASK with 8191; cbn; lia).
  split; [exact usart_startup_ok|]. split; [exact Hroom|].
  destruct (Dbg_puts_reaches_the_wire ok_line usart_startup usart_startup_ok Hroom)
    as (u1 & u2 & E1 & E2 & D & _ & T).
  exists u1, u2. split; [exact E1|]. split; [exact E2|]. split; [|exact T].
  rewrite D, usart_startup_empty. reflexivity.
Defined.

(** ** The time of a message *)

(** The time that [time_format] prints is the sample time: for a time
    that is not negative the hours and the minutes, which stay below 60,
    take the whole minutes of it, and the seconds are the samples that
    remain, fewer than a minute of them, divided by the sampling rate. *)
Theorem time_format_fields (t : Z) :
  0 <= t ->
  exists rest,
    t = (hours (time_format t) * 60 + minutes (time_format t)) * 60 * SAMPLING_RATE
        + rest
    /\ 0 <= rest < 60 * SAMPLING_RATE
    /\ 0 <= hours (time_format t)
    /\ 0 <= minutes (time_format t) < 60
    /\ seconds (time_format t) = F32.div (F32.of_int rest) (F32.of_int SAMPLING_RATE).
Proof.
  intros Ht. exists (Z.rem t (SAMPLING_RATE * 60)).
  unfold time_format. cbn [hours minutes seconds].
  change SAMPLING_RATE with 16000.
  change (16000 * 3600) with 57600000. change (16000 * 60) with 960000.
  rewrite !Z.quot_div_nonneg, Z.rem_mod_nonneg by lia.
  split; [|split; [|split; [|split; [|reflexivity]]]];
    Z.div_mod_to_equations; lia.
Qed.

Lemma time_format_fields_witness :
  0 <= 59608000
  /\ hours (time_format 59608000) = 1 /\ minutes (time_format 59608000) = 2
  /\ exists rest,
       59608000 = (hours (time_format 59608000) * 60
                   + minutes (time_format 59608000)) * 60 * SAMPLING_RATE + rest
       /\ 0 <= rest < 60 * SAMPLING_RATE.
Proof.
  split; [lia|]. split; [reflexivity|]. split; [reflexivity|].
  destruct (time_format_fields 59608000 ltac:(lia)) as (rest & H1 & H2 & _).
  exists rest. split; [exact H1 | exact H2].
Defined.
